(** * Family Task Management API: task lifecycle, scoring and statistics

    A shallow embedding of the request handlers of [index.js] and of the
    Mongoose schemas [models/Family.js] and [models/Task.js].

    Conventions of the embedding.
    - A [Date] is its time value: milliseconds since the epoch, in [Z].
    - A member's [score] is a JS number, a double: a [spec_float] of the
      Standard Library at the precision of binary64, added with [SFadd].
      A registration can store any number as a score, so the score is not
      taken for a small integer.  (The type has values that no request
      body denotes: NaN, which Mongoose does not cast to, and mantissas
      beyond 53 bits.)
    - The counters the handlers build from zero ([total], [completed],
      [.length]) are in [Z]: they count the tasks at hand and stay far
      below 2^53, where double arithmetic on integers is exact.
    - An optional field of a document or of a request body is an [option].
    - The two collections are lists in natural (insertion) order; a
      document is found and saved by its [_id].
    - The clock, the ObjectId generator and bcrypt are the environment:
      the instant [now] and the password hash come with the request, fresh
      ids come from a counter kept next to the collections.
    - A handler runs after the route schema has accepted the body and the
      bearer token has been verified.  The route schemas do not forbid
      additional properties.  Where a handler destructures the body, only
      the keys it names matter.  Where it hands the body or a part of it
      to Mongoose ([members] of a registration, the whole body of
      [PUT /api/tasks/:id]), the keys the document schema has a path for
      are stored as well: a member's [score] and [_id], a task's
      [completedAt], [family] and [comments].  These are modelled, each
      with the value Mongoose casts the body's value to.  The request
      bodies of the model are the bodies with these keys and the declared
      ones.  Not modelled as body keys: [_id], [createdAt], [updatedAt]
      and [__v] of a task, a [score], an [_id] or [comments] that is
      [null] or does not cast, and names that are no path of the schema.
    - Local time is UTC plus the offset in force at the instant, a
      function that is a parameter of the date functions (the host's time
      zone with its daylight-saving rules). *)

From Stdlib Require Import ZArith QArith Qround Lia Ascii SpecFloat.
From stdpp Require Import base numbers list strings sorting pretty.

Local Open Scope Z_scope.

(** ** ECMAScript Date arithmetic (ECMA-262, "Time Values and Time Range") *)

Module JSDate.

Definition msPerDay : Z := 86400000.

Definition Day (t : Z) : Z := t / msPerDay.

Definition DaysInYear (y : Z) : Z :=
  if decide (y mod 4 ≠ 0) then 365
  else if decide (y mod 100 ≠ 0) then 366
  else if decide (y mod 400 ≠ 0) then 365
  else 366.

Definition DayFromYear (y : Z) : Z :=
  365 * (y - 1970) + (y - 1969) / 4 - (y - 1901) / 100 + (y - 1601) / 400.

Definition TimeFromYear (y : Z) : Z := msPerDay * DayFromYear y.

(** [YearFromTime t] is specified as the largest [y] with
    [TimeFromYear y <= t]; it is computed here from the mean year length
    (146097 days in 400 years) and corrected by at most one year. *)
Definition YearFromDay (d : Z) : Z :=
  let y := 1970 + (400 * d) / 146097 in
  if decide (d < DayFromYear y) then y - 1
  else if decide (DayFromYear (y + 1) ≤ d) then y + 1
  else y.

Definition YearFromTime (t : Z) : Z := YearFromDay (Day t).

Definition InLeapYear (t : Z) : Z :=
  if decide (DaysInYear (YearFromTime t) = 366) then 1 else 0.

Definition DayWithinYear (t : Z) : Z := Day t - DayFromYear (YearFromTime t).

Definition MonthFromTime (t : Z) : Z :=
  let d := DayWithinYear t in
  let leap := InLeapYear t in
  if decide (d < 31) then 0
  else if decide (d < 59 + leap) then 1
  else if decide (d < 90 + leap) then 2
  else if decide (d < 120 + leap) then 3
  else if decide (d < 151 + leap) then 4
  else if decide (d < 181 + leap) then 5
  else if decide (d < 212 + leap) then 6
  else if decide (d < 243 + leap) then 7
  else if decide (d < 273 + leap) then 8
  else if decide (d < 304 + leap) then 9
  else if decide (d < 334 + leap) then 10
  else 11.

Definition WeekDay (t : Z) : Z := (Day t + 4) mod 7.

Section Local.
(** [LocalTZA t isUTC] is the offset of the server's local time from UTC
    in milliseconds: the offset in force at the instant [t] when [isUTC]
    is [true], and the offset by which the local time [t] is read when it
    is [false].  It is the host's, with its daylight-saving rules. *)
Variable LocalTZA : Z → bool → Z.

Definition LocalTime (t : Z) : Z := t + LocalTZA t true.
Definition UTC (t : Z) : Z := t - LocalTZA t false.

Definition getFullYear (t : Z) : Z := YearFromTime (LocalTime t).
Definition getMonth (t : Z) : Z := MonthFromTime (LocalTime t).
Definition getDay (t : Z) : Z := WeekDay (LocalTime t).

(** [new Date(year, 0, 1)]: local midnight of 1 January.  The Date
    constructor reads a year from 0 to 99 as 1900 + year. *)
Definition Date_year_0_1 (year : Z) : Z :=
  let yr := if decide (0 ≤ year ≤ 99) then 1900 + year else year in
  UTC (TimeFromYear yr).
End Local.

End JSDate.

(** [String(n)] for an integer [n]. *)
Definition String_of_number (n : Z) : string := pretty n.

(** [s.padStart(target, fill)] for a one-character [fill]. *)
Fixpoint padding (n : nat) (fill : Ascii.ascii) : string :=
  match n with
  | O => EmptyString
  | S n => String fill (padding n fill)
  end.

Definition padStart (target : nat) (fill : Ascii.ascii) (s : string) : string :=
  String.app (padding (target - String.length s) fill) s.

Inductive Period := week | month.

Section BucketKey.
Variable LocalTZA : Z → bool → Z.

(** [Math.ceil(((date - firstDayOfYear) / 86400000
                 + firstDayOfYear.getDay() + 1) / 7)]
    The quotients are exact rationals.  The elapsed time is an integer
    number of milliseconds of about a year at most, so the sum is an
    integer or at least 1/86400000 away from one, far more than the
    rounding error of the double computation: both have the same
    ceiling. *)
Definition weekNumber (date : Z) : Z :=
  let firstDayOfYear :=
    JSDate.Date_year_0_1 LocalTZA (JSDate.getFullYear LocalTZA date) in
  Qceiling
    ((inject_Z (date - firstDayOfYear) / inject_Z 86400000
      + inject_Z (JSDate.getDay LocalTZA firstDayOfYear) + inject_Z 1)
     / inject_Z 7)%Q.

(** The body of the [forEach] callback of [GET /api/stats/history] up to
    the computation of [key]. *)
Definition bucketKey (period : Period) (date : Z) : string :=
  match period with
  | month =>
      String.app (String_of_number (JSDate.getFullYear LocalTZA date))
        (String.app "-"
           (padStart 2 "0"%char (String_of_number (JSDate.getMonth LocalTZA date + 1))))
  | week =>
      String.app (String_of_number (JSDate.getFullYear LocalTZA date))
        (String.app "-W"
           (padStart 2 "0"%char (String_of_number (weekNumber date))))
  end.
End BucketKey.

(** ** Documents ([models/Family.js], [models/Task.js]) *)

Definition ObjectId := N.
Bind Scope N_scope with ObjectId.

(** A [Date] as its time value. *)
Definition Date := Z.

(** A JS number: a double.  [Number_add] is [+] on numbers and
    [Number_of_Z n] the number an integer literal [n] denotes (the double
    nearest to [n]). *)
Definition Number := spec_float.

Definition Number_add (x y : Number) : Number := SFadd 53 1024 x y.

Definition Number_of_Z (n : Z) : Number := binary_normalize 53 1024 n 0 false.

Record Member := mkMember {
  m_id : ObjectId;
  m_name : string;
  score : Number
}.

Record Family := mkFamily {
  f_id : ObjectId;
  f_name : string;
  code : string;
  passwordHash : string;
  members : list Member;
  f_createdAt : Date;
  f_updatedAt : Date
}.

Record Comment := mkComment {
  c_member : string;
  c_text : string;
  c_createdAt : Date
}.

Inductive Priority := low | medium | high.

Record Task := mkTask {
  t_id : ObjectId;
  family : ObjectId;
  title : string;
  description : option string;
  priority : Priority;
  assignedTo : option string;
  dueDate : option Date;
  completed : bool;
  completedAt : option Date;
  comments : list Comment;
  createdAt : Date;
  updatedAt : Date
}.

Global Instance Number_eq_dec : EqDecision Number.
Proof. solve_decision. Defined.
Global Instance Member_eq_dec : EqDecision Member.
Proof. solve_decision. Defined.
Global Instance Family_eq_dec : EqDecision Family.
Proof. solve_decision. Defined.
Global Instance Comment_eq_dec : EqDecision Comment.
Proof. solve_decision. Defined.
Global Instance Priority_eq_dec : EqDecision Priority.
Proof. solve_decision. Defined.
Global Instance Task_eq_dec : EqDecision Task.
Proof. solve_decision. Defined.

(** Field assignments, [doc.field = v]. *)
Definition set_score (v : Number) (m : Member) : Member :=
  mkMember (m_id m) (m_name m) v.

Definition set_members (v : list Member) (f : Family) : Family :=
  mkFamily (f_id f) (f_name f) (code f) (passwordHash f) v
    (f_createdAt f) (f_updatedAt f).

Definition set_f_updatedAt (v : Date) (f : Family) : Family :=
  mkFamily (f_id f) (f_name f) (code f) (passwordHash f) (members f)
    (f_createdAt f) v.

Definition set_family (v : ObjectId) (t : Task) : Task :=
  mkTask (t_id t) v (title t) (description t) (priority t) (assignedTo t)
    (dueDate t) (completed t) (completedAt t) (comments t) (createdAt t)
    (updatedAt t).

Definition set_title (v : string) (t : Task) : Task :=
  mkTask (t_id t) (family t) v (description t) (priority t) (assignedTo t)
    (dueDate t) (completed t) (completedAt t) (comments t) (createdAt t)
    (updatedAt t).

Definition set_description (v : option string) (t : Task) : Task :=
  mkTask (t_id t) (family t) (title t) v (priority t) (assignedTo t)
    (dueDate t) (completed t) (completedAt t) (comments t) (createdAt t)
    (updatedAt t).

Definition set_priority (v : Priority) (t : Task) : Task :=
  mkTask (t_id t) (family t) (title t) (description t) v (assignedTo t)
    (dueDate t) (completed t) (completedAt t) (comments t) (createdAt t)
    (updatedAt t).

Definition set_assignedTo (v : option string) (t : Task) : Task :=
  mkTask (t_id t) (family t) (title t) (description t) (priority t) v
    (dueDate t) (completed t) (completedAt t) (comments t) (createdAt t)
    (updatedAt t).

Definition set_dueDate (v : option Date) (t : Task) : Task :=
  mkTask (t_id t) (family t) (title t) (description t) (priority t)
    (assignedTo t) v (completed t) (completedAt t) (comments t) (createdAt t)
    (updatedAt t).

Definition set_completed (v : bool) (t : Task) : Task :=
  mkTask (t_id t) (family t) (title t) (description t) (priority t)
    (assignedTo t) (dueDate t) v (completedAt t) (comments t) (createdAt t)
    (updatedAt t).

Definition set_completedAt (v : option Date) (t : Task) : Task :=
  mkTask (t_id t) (family t) (title t) (description t) (priority t)
    (assignedTo t) (dueDate t) (completed t) v (comments t) (createdAt t)
    (updatedAt t).

Definition set_comments (v : list Comment) (t : Task) : Task :=
  mkTask (t_id t) (family t) (title t) (description t) (priority t)
    (assignedTo t) (dueDate t) (completed t) (completedAt t) v (createdAt t)
    (updatedAt t).

Definition set_updatedAt (v : Date) (t : Task) : Task :=
  mkTask (t_id t) (family t) (title t) (description t) (priority t)
    (assignedTo t) (dueDate t) (completed t) (completedAt t) (comments t)
    (createdAt t) v.

(** *** Schema validation

    A [String] path marked [required: true] rejects the empty string as
    well as a missing value.  [priority] is an enum by its type and
    [family] is always present. *)

Definition nonempty (s : string) : bool := bool_decide (s ≠ EmptyString).

Definition valid_member (m : Member) : bool := nonempty (m_name m).

Definition valid_family (f : Family) : bool :=
  nonempty (f_name f) && nonempty (code f) && nonempty (passwordHash f)
  && forallb valid_member (members f).

Definition valid_comment (c : Comment) : bool :=
  nonempty (c_member c) && nonempty (c_text c).

Definition valid_task (t : Task) : bool :=
  nonempty (title t) && forallb valid_comment (comments t).

(** ** The store and the persistence layer *)

Record Store := mkStore {
  families : list Family;
  tasks : list Task;
  next_oid : ObjectId
}.

Definition set_families (v : list Family) (s : Store) : Store :=
  mkStore v (tasks s) (next_oid s).
Definition set_tasks (v : list Task) (s : Store) : Store :=
  mkStore (families s) v (next_oid s).

(** [new ObjectId()], [n] times. *)
Definition take_oids (n : N) (s : Store) : Store :=
  mkStore (families s) (tasks s) (next_oid s + n)%N.

Definition empty_store : Store := mkStore [] [] 0%N.

(** What a handler does with a request: it sends a reply with a status
    code, or an exception reaches the framework (which answers 500). *)
Inductive Reply (A : Type) :=
  | Sent (status : Z) (payload : A)
  | Refused (status : Z) (error : string)
  | Thrown (error : string).
Arguments Sent {A} status payload.
Arguments Refused {A} status error.
Arguments Thrown {A} error.

(** [Model.findOne(q)]: the first document of the collection matching. *)
Definition findOne {A} (q : A → Prop) `{∀ x, Decision (q x)}
    (coll : list A) : option A :=
  snd <$> list_find q coll.

(** [Model.find(q)]: the matching documents in natural order. *)
Definition find {A} (q : A → Prop) `{∀ x, Decision (q x)}
    (coll : list A) : list A :=
  filter q coll.

(** [Model.deleteOne(q)]: the collection without its first matching
    document, and [deletedCount]. *)
Definition deleteOne {A} (q : A → Prop) `{∀ x, Decision (q x)}
    (coll : list A) : list A * Z :=
  match list_find q coll with
  | Some (i, _) => (delete i coll, 1)
  | None => (coll, 0)
  end.

(** Writing a document back: the stored document with the same [_id] is
    replaced; a new document is appended. *)
Definition upsert {A} (id : A → ObjectId) (doc : A) (coll : list A) : list A :=
  match list_find (λ d, id d = id doc) coll with
  | Some (i, _) => <[i := doc]> coll
  | None => coll ++ [doc]
  end.

(** [task.save()] for a document [t] that was loaded as [t0] (or is new,
    [t0 = None]).  Validation runs first and throws on failure; an
    unmodified document is not written; [timestamps: true] stamps
    [updatedAt] on a write. *)
Definition save_task (now : Date) (t0 : option Task) (t : Task)
    (s : Store) : option Store :=
  if valid_task t then
    if decide (t0 = Some t) then Some s
    else Some (set_tasks (upsert t_id (set_updatedAt now t) (tasks s)) s)
  else None.

(** [family.save()], likewise.  The unique index on [code] never fires:
    the only handler that sets [code] looks the code up first. *)
Definition save_family (now : Date) (f0 : option Family) (f : Family)
    (s : Store) : option Store :=
  if valid_family f then
    if decide (f0 = Some f) then Some s
    else Some (set_families (upsert f_id (set_f_updatedAt now f) (families s)) s)
  else None.

(** The [authenticate] hook after the token has been verified: the family
    the token names is loaded and attached to the request. *)
Definition authenticate (s : Store) (familyId : ObjectId) : option Family :=
  findOne (λ f, f_id f = familyId) (families s).

Definition with_family {A} (s : Store) (familyId : ObjectId)
    (handler : Family → Store * Reply A) : Store * Reply A :=
  match authenticate s familyId with
  | None => (s, Refused 401 "Family not found")
  | Some request_family => handler request_family
  end.

(** JS truthiness of an optional string: [undefined] and the empty string
    are falsy. *)
Definition truthy (o : option string) : bool :=
  match o with
  | Some v => nonempty v
  | None => false
  end.

(** ** Request handlers ([index.js]) *)

(** *** Families and members *)

Record FamilyView := mkFamilyView {
  fv_id : ObjectId; fv_name : string; fv_code : string
}.

Record MemberView := mkMemberView {
  mv_id : ObjectId; mv_name : string; mv_score : Number
}.

(** An element of [members] in a registration body.  The route schema
    declares [name] and admits other keys; [MemberSchema] has the paths
    [score] and [_id], so these two are stored when the body gives them:
    [mi_score] and [mi_id] are the number and the ObjectId Mongoose casts
    the body's values to, [None] when the key is absent. *)
Record MemberInput := mkMemberInput {
  mi_name : string;
  mi_score : option Number;
  mi_id : option ObjectId
}.

(** The [members] array of a registration body, turned into subdocuments
    by [new Family({ name, code, members })]: a member without [_id] gets
    a fresh one, a member without [score] the default 0. *)
Fixpoint new_members (first : ObjectId) (body_members : list MemberInput)
    : list Member :=
  match body_members with
  | [] => []
  | b :: body_members =>
      mkMember (default first (mi_id b)) (mi_name b)
        (default (Number_of_Z 0) (mi_score b))
      :: new_members (first + 1)%N body_members
  end.

(** [POST /api/families/register].  [hash] is what bcrypt returns for the
    password. *)
Definition register (now : Date) (hash : string)
    (name family_code : string) (body_members : list MemberInput)
    (s : Store) : Store * Reply FamilyView :=
  match findOne (λ f, code f = family_code) (families s) with
  | Some existing => (s, Refused 409 "Family code already exists")
  | None =>
      let oid := next_oid s in
      let s := take_oids (1 + N.of_nat (length body_members)) s in
      let family :=
        mkFamily oid name family_code hash
          (new_members (oid + 1)%N body_members) now now in
      match save_family now None family s with
      | None => (s, Thrown "ValidationError")
      | Some s =>
          (s, Sent 201 (mkFamilyView (f_id family) (f_name family)
                          (code family)))
      end
  end.

(** [POST /api/members] *)
Definition create_member (now : Date) (name : string)
    (familyId : ObjectId) (s : Store) : Store * Reply MemberView :=
  with_family s familyId (λ request_family,
    let oid := next_oid s in
    let s := take_oids 1 s in
    let member := mkMember oid name (Number_of_Z 0) in
    let family' :=
      set_members (members request_family ++ [member]) request_family in
    match save_family now (Some request_family) family' s with
    | None => (s, Thrown "ValidationError")
    | Some s =>
        match last (members family') with
        | Some savedMember =>
            (s, Sent 201 (mkMemberView (m_id savedMember)
                            (m_name savedMember) (score savedMember)))
        | None => (s, Thrown "TypeError")
        end
    end).

(** [GET /api/members] *)
Definition list_members (familyId : ObjectId) (s : Store)
    : Store * Reply (list MemberView) :=
  with_family s familyId (λ request_family,
    (s, Sent 200
          ((λ m, mkMemberView (m_id m) (m_name m) (score m))
             <$> members request_family))).

(** *** Tasks *)

Record TaskView := mkTaskView {
  tv_id : ObjectId;
  tv_title : string;
  tv_priority : Priority;
  tv_assignedTo : option string;
  tv_dueDate : option Date;
  tv_completed : bool
}.

Definition task_view (t : Task) : TaskView :=
  mkTaskView (t_id t) (title t) (priority t) (assignedTo t) (dueDate t)
    (completed t).

(** [POST /api/tasks] *)
Definition create_task (now : Date)
    (title : string) (description : option string)
    (priority : option Priority) (dueDate : option Date)
    (assignedTo : option string)
    (familyId : ObjectId) (s : Store) : Store * Reply TaskView :=
  with_family s familyId (λ request_family,
    let priority := default medium priority in
    let oid := next_oid s in
    let s := take_oids 1 s in
    let task :=
      mkTask oid (f_id request_family) title description priority assignedTo
        dueDate false None [] now now in
    match save_task now None task s with
    | None => (s, Thrown "ValidationError")
    | Some s => (s, Sent 201 (task_view task))
    end).

(** [GET /api/tasks], with the optional [completed] filter. *)
Definition list_tasks (query_completed : option bool)
    (familyId : ObjectId) (s : Store) : Store * Reply (list TaskView) :=
  with_family s familyId (λ request_family,
    let tasks :=
      match query_completed with
      | None => find (λ t, family t = f_id request_family) (tasks s)
      | Some c =>
          find (λ t, family t = f_id request_family ∧ completed t = c)
            (tasks s)
      end in
    (s, Sent 200 (task_view <$> tasks))).

(** What Mongoose makes of a value assigned to a path of a document:
    [null] empties the path, a value of the path's type (or one that casts
    to it) is stored, and any other value is a cast error, which [save]
    reports as a validation error. *)
Inductive Cast (A : Type) :=
  | Nullish
  | Cast_ok (v : A)
  | Cast_error.
Arguments Nullish {A}.
Arguments Cast_ok {A} v.
Arguments Cast_error {A}.

Global Instance Cast_eq_dec {A} `{EqDecision A} : EqDecision (Cast A).
Proof. solve_decision. Defined.

(** The body of [PUT /api/tasks/:id].  The first six keys are the ones the
    route schema declares, with the types it checks.  The schema admits
    other keys, and the handler copies every key of the body onto the
    document: [u_completedAt], [u_family] and [u_comments] are the keys
    [completedAt], [family] and [comments] of the body, [None] when the
    key is absent.  [u_comments] is the array as Mongoose casts it to
    comments, a missing [createdAt] being the instant of the request. *)
Record TaskUpdate := mkTaskUpdate {
  u_title : option string;
  u_description : option string;
  u_priority : option Priority;
  u_dueDate : option Date;
  u_assignedTo : option string;
  u_completed : option bool;
  u_completedAt : option (Cast Date);
  u_family : option (Cast ObjectId);
  u_comments : option (list Comment)
}.

(** A body with the declared keys only. *)
Definition declared (update : TaskUpdate) : Prop :=
  u_completedAt update = None ∧ u_family update = None
  ∧ u_comments update = None.

(** [task[key] = value] for a key that the body may lack. *)
Definition assign_key {A} (set : A → Task → Task) (value : option A)
    (task : Task) : Task :=
  match value with
  | Some v => set v task
  | None => task
  end.

(** The assignment of a value to a path that casts it: a value that does
    not cast leaves the path as it is. *)
Definition set_cast_completedAt (value : Cast Date) (task : Task) : Task :=
  match value with
  | Nullish => set_completedAt None task
  | Cast_ok d => set_completedAt (Some d) task
  | Cast_error => task
  end.

Definition set_cast_family (value : Cast ObjectId) (task : Task) : Task :=
  match value with
  | Cast_ok g => set_family g task
  | Nullish | Cast_error => task
  end.

(** [Object.assign(task, update)]: the keys present in [update] are
    copied onto [task]. *)
Definition Object_assign (task : Task) (update : TaskUpdate) : Task :=
  let task := assign_key set_title (u_title update) task in
  let task :=
    assign_key (λ v, set_description (Some v)) (u_description update) task in
  let task := assign_key set_priority (u_priority update) task in
  let task := assign_key (λ v, set_dueDate (Some v)) (u_dueDate update) task in
  let task :=
    assign_key (λ v, set_assignedTo (Some v)) (u_assignedTo update) task in
  let task := assign_key set_completed (u_completed update) task in
  let task := assign_key set_cast_completedAt (u_completedAt update) task in
  let task := assign_key set_cast_family (u_family update) task in
  assign_key set_comments (u_comments update) task.

(** What the validation of [save] rejects of the copied keys: a value
    that does not cast, and an emptied [family], which is required. *)
Definition rejected (update : TaskUpdate) : bool :=
  bool_decide (u_completedAt update = Some Cast_error)
  || bool_decide (u_family update = Some Cast_error)
  || bool_decide (u_family update = Some Nullish).

(** [PUT /api/tasks/:id] *)
Definition update_task (now : Date) (id : ObjectId) (update : TaskUpdate)
    (familyId : ObjectId) (s : Store) : Store * Reply TaskView :=
  with_family s familyId (λ request_family,
    match findOne (λ t, t_id t = id ∧ family t = f_id request_family)
            (tasks s) with
    | None => (s, Refused 404 "Task not found")
    | Some task0 =>
        let task := Object_assign task0 update in
        let task :=
          if default false (u_completed update)
             && negb (bool_decide (is_Some (completedAt task)))
          then set_completedAt (Some now) task
          else task in
        match (if rejected update then None
               else save_task now (Some task0) task s) with
        | None => (s, Thrown "ValidationError")
        | Some s => (s, Sent 200 (task_view task))
        end
    end).

(** [DELETE /api/tasks/:id] *)
Definition delete_task (id : ObjectId)
    (familyId : ObjectId) (s : Store) : Store * Reply unit :=
  with_family s familyId (λ request_family,
    let '(tasks', deletedCount) :=
      deleteOne (λ t, t_id t = id ∧ family t = f_id request_family)
        (tasks s) in
    if decide (deletedCount = 0) then (s, Refused 404 "Task not found")
    else (set_tasks tasks' s, Sent 204 ())).

Record AssignView := mkAssignView {
  av_id : ObjectId; av_assignedTo : option string
}.

(** [POST /api/tasks/:id/assign] *)
Definition assign_task (now : Date) (id : ObjectId) (member : string)
    (familyId : ObjectId) (s : Store) : Store * Reply AssignView :=
  with_family s familyId (λ request_family,
    match findOne (λ t, t_id t = id ∧ family t = f_id request_family)
            (tasks s) with
    | None => (s, Refused 404 "Task not found")
    | Some task0 =>
        let exists_ :=
          bool_decide (Exists (λ m, m_name m = member)
                         (members request_family)) in
        if negb exists_ then (s, Refused 404 "Member not found")
        else
          let task := set_assignedTo (Some member) task0 in
          match save_task now (Some task0) task s with
          | None => (s, Thrown "ValidationError")
          | Some s => (s, Sent 200 (mkAssignView (t_id task) (assignedTo task)))
          end
    end).

Record CompleteView := mkCompleteView {
  cv_id : ObjectId;
  cv_completed : bool;
  cv_completedAt : option Date;
  memberScore : option Number
}.

(** [POST /api/tasks/:id/complete].  [date] is the optional field of the
    body, already parsed. *)
Definition complete_task (now : Date) (id : ObjectId) (date : option Date)
    (familyId : ObjectId) (s : Store) : Store * Reply CompleteView :=
  with_family s familyId (λ request_family,
    match findOne (λ t, t_id t = id ∧ family t = f_id request_family)
            (tasks s) with
    | None => (s, Refused 404 "Task not found")
    | Some task0 =>
        if completed task0 then
          (s, Sent 200 (mkCompleteView (t_id task0) true (completedAt task0)
                          None))
        else
          let task := set_completed true task0 in
          let task :=
            set_completedAt
              (Some (match date with Some d => d | None => now end)) task in
          match save_task now (Some task0) task s with
          | None => (s, Thrown "ValidationError")
          | Some s =>
              let found :=
                if truthy (assignedTo task) then
                  list_find (λ m, Some (m_name m) = assignedTo task)
                    (members request_family)
                else None in
              match found with
              | Some (i, member) =>
                  let member :=
                    set_score (Number_add (score member) (Number_of_Z 1))
                      member in
                  let memberScore := score member in
                  let family' :=
                    set_members (<[i := member]> (members request_family))
                      request_family in
                  match save_family now (Some request_family) family' s with
                  | None => (s, Thrown "ValidationError")
                  | Some s =>
                      (s, Sent 200
                            (mkCompleteView (t_id task) (completed task)
                               (completedAt task) (Some memberScore)))
                  end
              | None =>
                  (s, Sent 200
                        (mkCompleteView (t_id task) (completed task)
                           (completedAt task) None))
              end
          end
    end).

Record CommentsView := mkCommentsView {
  cm_id : ObjectId; cm_comments : list Comment
}.

(** [POST /api/tasks/:id/comments] *)
Definition add_comment (now : Date) (id : ObjectId) (member text : string)
    (familyId : ObjectId) (s : Store) : Store * Reply CommentsView :=
  with_family s familyId (λ request_family,
    match findOne (λ t, t_id t = id ∧ family t = f_id request_family)
            (tasks s) with
    | None => (s, Refused 404 "Task not found")
    | Some task0 =>
        let task :=
          set_comments (comments task0 ++ [mkComment member text now]) task0 in
        match save_task now (Some task0) task s with
        | None => (s, Thrown "ValidationError")
        | Some s => (s, Sent 201 (mkCommentsView (t_id task) (comments task)))
        end
    end).

(** *** Statistics and history *)

Record MemberStats := mkMemberStats {
  member : string;
  totalTasks : Z;
  completedTasks : Z;
  ms_score : Number
}.

(** [GET /api/stats/members] *)
Definition stats_members (familyId : ObjectId) (s : Store)
    : Store * Reply (list MemberStats) :=
  with_family s familyId (λ request_family,
    let tasks := find (λ t, family t = f_id request_family) (tasks s) in
    (s, Sent 200
          ((λ m,
              let memberTasks :=
                filter (λ t, assignedTo t = Some (m_name m)) tasks in
              let completed := filter (λ t, completed t = true) memberTasks in
              mkMemberStats (m_name m) (Z.of_nat (length memberTasks))
                (Z.of_nat (length completed)) (score m))
             <$> members request_family))).

Record HistoryEntry := mkHistoryEntry {
  period : string;
  total : Z;
  h_completed : Z
}.

(** A JS [Map] with string keys: the entries in insertion order. *)
Abbreviation Map V := (list (string * V)).

Definition Map_has {V} (k : string) (m : Map V) : bool :=
  bool_decide (Exists (λ kv, kv.1 = k) m).

Definition Map_get {V} (k : string) (m : Map V) : option V :=
  snd <$> findOne (λ kv : string * V, kv.1 = k) m.

Definition Map_set {V} (k : string) (v : V) (m : Map V) : Map V :=
  match list_find (λ kv : string * V, kv.1 = k) m with
  | Some (i, _) => <[i := (k, v)]> m
  | None => m ++ [(k, v)]
  end.

Definition Map_values {V} (m : Map V) : list V := m.*2.

Section History.
Variable LocalTZA : Z → bool → Z.

(** The callback of [tasks.forEach].  [map.get(key)] returns the entry
    object held by the map, so the two [+=] update the map in place;
    [None] stands for the [TypeError] of reading [entry.total] on
    [undefined]. *)
Definition history_step (query_period : Period) (map : Map HistoryEntry)
    (t : Task) : option (Map HistoryEntry) :=
  let key := bucketKey LocalTZA query_period (createdAt t) in
  let map :=
    if negb (Map_has key map) then Map_set key (mkHistoryEntry key 0 0) map
    else map in
  entry ← Map_get key map;
  let entry := mkHistoryEntry (period entry) (total entry + 1) (h_completed entry) in
  let entry :=
    if completed t
    then mkHistoryEntry (period entry) (total entry) (h_completed entry + 1)
    else entry in
  Some (Map_set key entry map).

Fixpoint forEach {A B} (f : B → A → option B) (l : list A) (acc : B)
    : option B :=
  match l with
  | [] => Some acc
  | x :: l => acc ← f acc x; forEach f l acc
  end.

(** [a.period.localeCompare(b.period) <= 0].  The keys are made of
    digits, [-] and [W], on which the collation order is the order of
    the character codes. *)
Definition period_le (a b : HistoryEntry) : Prop :=
  String.le (period a) (period b).

Global Instance period_le_dec : RelDecision period_le.
Proof. intros a b. unfold period_le. apply _. Defined.

(** [GET /api/stats/history]; [query_period] is [week] when the query
    has no [period]. *)
Definition history (query_period : option Period)
    (familyId : ObjectId) (s : Store) : Store * Reply (list HistoryEntry) :=
  with_family s familyId (λ request_family,
    let period := default week query_period in
    let tasks := find (λ t, family t = f_id request_family) (tasks s) in
    match forEach (history_step period) tasks [] with
    | None => (s, Thrown "TypeError")
    | Some map => (s, Sent 200 (merge_sort period_le (Map_values map)))
    end).
End History.

(** *** Alerts *)

Record OverdueView := mkOverdueView {
  ov_id : ObjectId;
  ov_title : string;
  ov_assignedTo : option string;
  ov_dueDate : option Date
}.

(** The query operator [{ $lt: bound }]: a missing field does not match. *)
Definition op_lt (field : option Date) (bound : Date) : bool :=
  match field with
  | Some d => bool_decide (d < bound)
  | None => false
  end.

Definition overdue_query (familyId : ObjectId) (now : Date) (t : Task) : Prop :=
  family t = familyId ∧ completed t = false ∧ op_lt (dueDate t) now.

Global Instance overdue_query_dec familyId now t :
  Decision (overdue_query familyId now t).
Proof. unfold overdue_query. apply _. Defined.

(** [GET /api/alerts/overdue] *)
Definition overdue (now : Date) (familyId : ObjectId) (s : Store)
    : Store * Reply (list OverdueView) :=
  with_family s familyId (λ request_family,
    let tasks := find (overdue_query (f_id request_family) now) (tasks s) in
    (s, Sent 200
          ((λ t, mkOverdueView (t_id t) (title t) (assignedTo t) (dueDate t))
             <$> tasks))).

(** ** The service as a state machine *)

(** The requests that reach a handler, with what the environment supplies
    for them (the instant, the bcrypt hash).  [familyId] is the family the
    bearer token names. *)
Inductive Request :=
  | Register (now : Date) (hash name family_code : string)
      (body_members : list MemberInput)
  | CreateMember (now : Date) (name : string) (familyId : ObjectId)
  | CreateTask (now : Date) (title : string) (description : option string)
      (priority : option Priority) (dueDate : option Date)
      (assignedTo : option string) (familyId : ObjectId)
  | UpdateTask (now : Date) (id : ObjectId) (update : TaskUpdate)
      (familyId : ObjectId)
  | DeleteTask (id : ObjectId) (familyId : ObjectId)
  | AssignTask (now : Date) (id : ObjectId) (member : string)
      (familyId : ObjectId)
  | CompleteTask (now : Date) (id : ObjectId) (date : option Date)
      (familyId : ObjectId)
  | AddComment (now : Date) (id : ObjectId) (member text : string)
      (familyId : ObjectId).

(** The effect of a request on the store.  The [GET] handlers and the login
    only read, they are functions of the store and have no case here. *)
Definition step (s : Store) (r : Request) : Store :=
  match r with
  | Register now hash name family_code body_members =>
      (register now hash name family_code body_members s).1
  | CreateMember now name familyId => (create_member now name familyId s).1
  | CreateTask now title description priority dueDate assignedTo familyId =>
      (create_task now title description priority dueDate assignedTo
         familyId s).1
  | UpdateTask now id update familyId =>
      (update_task now id update familyId s).1
  | DeleteTask id familyId => (delete_task id familyId s).1
  | AssignTask now id member familyId =>
      (assign_task now id member familyId s).1
  | CompleteTask now id date familyId =>
      (complete_task now id date familyId s).1
  | AddComment now id member text familyId =>
      (add_comment now id member text familyId s).1
  end.

Definition run (requests : list Request) (s : Store) : Store :=
  foldl step s requests.

(** The stores the service can be in. *)
Definition reachable (s : Store) : Prop :=
  ∃ requests, s = run requests empty_store.

(** What the schemas and the ObjectId generator guarantee of a store. *)
Record store_ok (s : Store) : Prop := mk_store_ok {
  ok_tasks_valid : Forall (λ t, valid_task t) (tasks s);
  ok_families_valid : Forall (λ f, valid_family f) (families s);
  ok_task_ids : NoDup (t_id <$> tasks s);
  ok_family_ids : NoDup (f_id <$> families s);
  ok_task_fresh : Forall (λ t, (t_id t < next_oid s)%N) (tasks s);
  ok_family_fresh : Forall (λ f, (f_id f < next_oid s)%N) (families s)
}.

(** Reference renderings of a number of two and of four decimal digits. *)
Definition digit (n : Z) : Ascii.ascii := Ascii.ascii_of_N (48 + Z.to_N n).

Definition two_digits (n : Z) : string :=
  String (digit (n / 10)) (String (digit (n mod 10)) EmptyString).

Definition four_digits (n : Z) : string :=
  String (digit (n / 1000))
    (String (digit (n / 100 mod 10)) (two_digits (n mod 100))).

(** The offsets of a time zone are less than a day. *)
Definition zone_bounded (LocalTZA : Z → bool → Z) : Prop :=
  ∀ t isUTC, - JSDate.msPerDay < LocalTZA t isUTC < JSDate.msPerDay.

(** The local midnight of 1 January of the year [y] is a local time of
    the zone: the instant it is read as shows that local time.  (A zone
    that changes its offset in that night can skip it.) *)
Definition midnight_exists (LocalTZA : Z → bool → Z) (y : Z) : Prop :=
  JSDate.LocalTime LocalTZA (JSDate.UTC LocalTZA (JSDate.TimeFromYear y))
  = JSDate.TimeFromYear y.

(** Local time never steps back: the zone has no change of offset that
    sets the clocks back. *)
Definition zone_monotone (LocalTZA : Z → bool → Z) : Prop :=
  ∀ t1 t2, t1 ≤ t2 →
    JSDate.LocalTime LocalTZA t1 ≤ JSDate.LocalTime LocalTZA t2.

(** Local midnight of 1 January of the local year of [date]. *)
Definition Jan1 (LocalTZA : Z → bool → Z) (date : Date) : Date :=
  JSDate.UTC LocalTZA
    (JSDate.TimeFromYear (JSDate.getFullYear LocalTZA date)).

(** ** Auxiliary definitions for the statements *)

(** The task as [complete_task] stores it. *)
Definition completed_at (now : Date) (date : option Date) (t : Task) : Task :=
  set_updatedAt now
    (set_completedAt (Some (default now date)) (set_completed true t)).

(** The score after [member.score += 1]. *)
Definition credit (x : Number) : Number := Number_add x (Number_of_Z 1).

(** A score that is an integer from 0 to [2^53]. *)
Definition counted (x : Number) : Prop :=
  ∃ n, 0 ≤ n ≤ 2 ^ 53 ∧ x = Number_of_Z n.

(** The member the completion credits, with its position. *)
Definition credited (fam : Family) (t : Task) : option (nat * Member) :=
  if truthy (assignedTo t)
  then list_find (λ m, Some (m_name m) = assignedTo t) (members fam)
  else None.

(** The task [update_task] hands to [save]. *)
Definition updated (now : Date) (update : TaskUpdate) (task0 : Task) : Task :=
  let task := Object_assign task0 update in
  if default false (u_completed update)
     && negb (bool_decide (is_Some (completedAt task)))
  then set_completedAt (Some now) task
  else task.

Definition Zsum (l : list Z) : Z := foldr Z.add 0 l.

(** The sums the history reports. *)
Definition sum_total (entries : list HistoryEntry) : Z :=
  Zsum (total <$> entries).
Definition sum_completed (entries : list HistoryEntry) : Z :=
  Zsum (h_completed <$> entries).

(** *** The civil calendar

    The Gregorian calendar, for the statements about the keys: leap years,
    the lengths of the months, and the time value of a civil date with a
    time of day.  [JSDate.DayFromYear y] is the day number of 1 January of
    the year [y], counted from 1 January 1970. *)

Definition leap_year (y : Z) : bool :=
  bool_decide (y mod 4 = 0 ∧ (y mod 100 ≠ 0 ∨ y mod 400 = 0)).

Definition month_length (y m : Z) : Z :=
  match m with
  | 2 => if leap_year y then 29 else 28
  | 4 | 6 | 9 | 11 => 30
  | _ => 31
  end.

Definition days_before_month (y m : Z) : Z :=
  Zsum (month_length y <$> seqZ 1 (m - 1)).

(** The time value of the day [d] of the month [m] of the year [y], [ms]
    milliseconds after midnight. *)
Definition civil_time (y m d ms : Z) : Z :=
  (JSDate.DayFromYear y + days_before_month y m + (d - 1)) * JSDate.msPerDay
  + ms.

(** The weekday of a day number, Sunday being 0: day 0, 1 January 1970,
    was a Thursday. *)
Definition civil_weekday (day : Z) : Z := (day + 4) mod 7.

(** The map of the history handler: its keys are distinct and each entry
    carries its key. *)
Definition buckets_ok (map : Map HistoryEntry) : Prop :=
  NoDup map.*1 ∧ Forall (λ kv, period kv.2 = kv.1) map.



(** ** Scenarios *)

(** A member of a registration body with its declared key only. *)
Definition named (name : string) : MemberInput := mkMemberInput name None None.

(** Two time zones.  UTC, and New York in 2024: five hours behind UTC,
    and four from 10 March 07:00 UTC to 3 November 06:00 UTC.  A local
    time that the change of March skips or that of November repeats is
    read with the offset before the change. *)
Definition Etc_UTC : Z → bool → Z := λ _ _, 0.

Definition America_New_York (t : Z) (isUTC : bool) : Z :=
  if isUTC
  then if decide (1710054000000 ≤ t < 1730613600000)
       then -14400000 else -18000000
  else if decide (1710039600000 ≤ t < 1730599200000)
       then -14400000 else -18000000.

(** Family F with members Alice and Bob; task T1 assigned to Alice, task
    T2 unassigned and due at instant 50. *)
Definition demo_requests : list Request :=
  [Register 0 "$2a$10$hash" "F" "F-1" [named "Alice"; named "Bob"];
   CreateTask 1 "T1" None None None (Some "Alice"%string) 0;
   CreateTask 2 "T2" None None (Some 50) None 0].

Definition demo_store : Store := run demo_requests empty_store.

Definition demo_family : Family :=
  mkFamily 0 "F" "F-1" "$2a$10$hash"
    [mkMember 1 "Alice" (Number_of_Z 0); mkMember 2 "Bob" (Number_of_Z 0)] 0 0.

Definition demo_T1 : Task :=
  mkTask 3 0 "T1" None medium (Some "Alice"%string) None false None [] 1 1.

Definition demo_T2 : Task :=
  mkTask 4 0 "T2" None medium None (Some 50) false None [] 2 2.

(** T1 completed at instant 5. *)
Definition completed_requests : list Request :=
  demo_requests ++ [CompleteTask 5 3 None 0].

Definition completed_store : Store := run completed_requests empty_store.



(** Family F whose member Alice was registered with the score 2^53, the
    first integer whose successor is no double; task T1 is assigned to
    her. *)
Definition saturated_requests : list Request :=
  [Register 0 "$2a$10$hash" "F" "F-1"
     [mkMemberInput "Alice" (Some (Number_of_Z (2 ^ 53))) None];
   CreateTask 1 "T1" None None None (Some "Alice"%string) 0].

Definition saturated_store : Store := run saturated_requests empty_store.

(** The same with the score 2^53 + 2: there the doubles are 2 apart, and
    the tie of [score + 1] goes to the even neighbour above. *)
Definition sparse_requests : list Request :=
  [Register 0 "$2a$10$hash" "F" "F-1"
     [mkMemberInput "Alice" (Some (Number_of_Z (2 ^ 53 + 2))) None];
   CreateTask 1 "T1" None None None (Some "Alice"%string) 0].

Definition sparse_store : Store := run sparse_requests empty_store.

(** Two members named Ann, the first registered with the score 2^53. *)
Definition saturated_namesake_requests : list Request :=
  [Register 0 "$2a$10$hash" "G" "G-1"
     [mkMemberInput "Ann" (Some (Number_of_Z (2 ^ 53))) None; named "Ann"];
   CreateTask 1 "T" None None None (Some "Ann"%string) 0].

Definition saturated_namesake_store : Store :=
  run saturated_namesake_requests empty_store.

(** A family with two members of the same name. *)
Definition namesake_requests : list Request :=
  [Register 0 "$2a$10$hash" "G" "G-1" [named "Ann"; named "Ann"];
   CreateTask 1 "T" None None None (Some "Ann"%string) 0].

Definition namesake_store : Store := run namesake_requests empty_store.

(** Two tasks created on 2024-01-02 and on 2024-01-09 (UTC). *)
Definition january_requests : list Request :=
  [Register 0 "$2a$10$hash" "F" "F-1" [];
   CreateTask 1704153600000 "T1" None None None None 0;
   CreateTask 1704758400000 "T2" None None None None 0].

Definition january_store : Store := run january_requests empty_store.

(** ** The token check and the login *)

(** [s.split(sep)] for a one-character separator: the pieces between the
    occurrences of [sep], an empty piece included. *)
Fixpoint split (sep : Ascii.ascii) (s : string) : list string :=
  match s with
  | EmptyString => [EmptyString]
  | String c s =>
      if Ascii.eqb c sep then EmptyString :: split sep s
      else match split sep s with
           | piece :: pieces => String c piece :: pieces
           | [] => [String c EmptyString]
           end
  end.

(** The [authenticate] hook from the header on.  [jwt_verify now token] is
    [jwt.verify(token, JWT_SECRET)] followed by [decoded.familyId], [None]
    when it throws; an [undefined] token makes it throw.  The hook either
    attaches a family to the request or sends a refusal. *)
Definition authenticate_request (jwt_verify : Date → string → option ObjectId)
    (now : Date) (authorization : option string) (s : Store)
    : Family + Z * string :=
  if negb (truthy authorization)
  then inr (401, "No authorization header provided"%string)
  else
    let authHeader := default EmptyString authorization in
    let token := split " " authHeader !! 1%nat in
    match token ≫= jwt_verify now with
    | None => inr (401, "Invalid or expired token"%string)
    | Some familyId =>
        match authenticate s familyId with
        | None => inr (401, "Family not found"%string)
        | Some family => inl family
        end
    end.

(** [POST /api/families/login].  [bcrypt_compare password hash] is
    [bcrypt.compare]; [jwt_sign now familyId code] is the token
    [jwt.sign] issues at the instant [now]. *)
Definition login (bcrypt_compare : string → string → bool)
    (jwt_sign : Date → ObjectId → string → string)
    (now : Date) (body_code password : string) (s : Store)
    : Store * Reply string :=
  match findOne (λ f, code f = body_code) (families s) with
  | None => (s, Refused 401 "Invalid code or password")
  | Some family =>
      let valid := bcrypt_compare password (passwordHash family) in
      if negb valid then (s, Refused 401 "Invalid code or password")
      else (s, Sent 200 (jwt_sign now (f_id family) (code family)))
  end.

(** ** More auxiliary definitions *)

(** The family a request is authenticated as; a registration has none. *)
Definition request_family (r : Request) : option ObjectId :=
  match r with
  | Register _ _ _ _ _ => None
  | CreateMember _ _ familyId
  | CreateTask _ _ _ _ _ _ familyId
  | UpdateTask _ _ _ familyId
  | DeleteTask _ familyId
  | AssignTask _ _ _ familyId
  | CompleteTask _ _ _ familyId
  | AddComment _ _ _ _ familyId => Some familyId
  end.


(** A request that hands a task to another family: a [PUT] whose body has
    a [family] that casts to an id. *)
Definition moves_task (r : Request) : Prop :=
  match r with
  | UpdateTask _ _ update _ => ∃ g, u_family update = Some (Cast_ok g)
  | _ => False
  end.

(** A request that is no [PUT] with keys beyond the declared ones. *)
Definition declared_update (r : Request) : Prop :=
  match r with
  | UpdateTask _ _ update _ => declared update
  | _ => True
  end.

(** A request that is no registration with a [score] for a member. *)
Definition scoreless (r : Request) : Prop :=
  match r with
  | Register _ _ _ _ body_members =>
      Forall (λ b, mi_score b = None) body_members
  | _ => True
  end.

Definition is_completion (r : Request) : bool :=
  match r with
  | CompleteTask _ _ _ _ => true
  | _ => false
  end.

(** A string without the space character. *)
Fixpoint no_space (s : string) : bool :=
  match s with
  | EmptyString => true
  | String c s => negb (Ascii.eqb c " ") && no_space s
  end.

(** The entry the history holds for a key after the tasks [l]: the number
    of tasks of [l] with that key and the number of the completed ones
    among them; no entry when there is none. *)
Definition bucket_of (LocalTZA : Z → bool → Z) (query_period : Period)
    (l : list Task)
    (key : string) : option HistoryEntry :=
  let bucket :=
    filter (λ t, bucketKey LocalTZA query_period (createdAt t) = key) l in
  if decide (bucket = []) then None
  else Some (mkHistoryEntry key (Z.of_nat (length bucket))
               (Z.of_nat (length (filter (λ t, completed t = true) bucket)))).

(** The number the history key carries after the year: the month from 1
    or the week number. *)
Definition period_number (LocalTZA : Z → bool → Z) (query_period : Period)
    (date : Date) : Z :=
  match query_period with
  | month => JSDate.getMonth LocalTZA date + 1
  | week => weekNumber LocalTZA date
  end.

(** Toy instances of the cryptographic functions, for the scenarios: the
    token is the family id in decimal. *)
Definition toy_compare (password hash : string) : bool :=
  bool_decide (String.app "$2a$10$" password = hash).
Definition toy_sign (now : Date) (familyId : ObjectId) (family_code : string)
    : string :=
  pretty familyId.
Definition toy_verify (now : Date) (token : string) : option ObjectId :=
  if bool_decide (token = "0"%string) then Some 0%N
  else if bool_decide (token = "2"%string) then Some 2%N
  else None.

(** Two families, each with one task. *)
Definition tenants_requests : list Request :=
  [Register 0 "$2a$10$pw-f" "F" "F-1" [named "Alice"];
   Register 1 "$2a$10$pw-g" "G" "G-1" [named "Gus"];
   CreateTask 2 "F1" None None None (Some "Alice"%string) 0;
   CreateTask 3 "G1" None None None (Some "Gus"%string) 2].

Definition tenants_store : Store := run tenants_requests empty_store.

Definition tenants_F : Family :=
  mkFamily 0 "F" "F-1" "$2a$10$pw-f" [mkMember 1 "Alice" (Number_of_Z 0)] 0 0.

Definition tenants_F1 : Task :=
  mkTask 4 0 "F1" None medium (Some "Alice"%string) None false None [] 2 2.

Definition tenants_G1 : Task :=
  mkTask 5 2 "G1" None medium (Some "Gus"%string) None false None [] 3 3.

(** * Facts *)

(** ** Facts about the Date arithmetic *)

Ltac zdiv := Z.div_mod_to_equations; lia.

Module JSDateFacts.
Import JSDate.

Lemma DayFromYear_succ y : DayFromYear (y + 1) = DayFromYear y + DaysInYear y.
Proof.
  unfold DayFromYear, DaysInYear.
  repeat case_decide; zdiv.
Qed.

Lemma DaysInYear_range y : 365 ≤ DaysInYear y ≤ 366.
Proof. unfold DaysInYear. repeat case_decide; lia. Qed.

Lemma DayFromYear_mono y1 y2 : y1 ≤ y2 → DayFromYear y1 ≤ DayFromYear y2.
Proof. unfold DayFromYear. intros. zdiv. Qed.

(** The computed year is the one the specification asks for. *)
Lemma YearFromDay_spec d :
  DayFromYear (YearFromDay d) ≤ d < DayFromYear (YearFromDay d + 1).
Proof.
  unfold YearFromDay. cbv zeta.
  repeat case_decide.
  - split; [|replace (1970 + 400 * d / 146097 - 1 + 1)
               with (1970 + 400 * d / 146097) by lia; lia].
    unfold DayFromYear. zdiv.
  - split; [lia|].
    unfold DayFromYear. zdiv.
  - lia.
Qed.

Lemma YearFromDay_largest d y : DayFromYear y ≤ d → y ≤ YearFromDay d.
Proof.
  intros Hy. pose proof (YearFromDay_spec d) as [_ Hd].
  destruct (decide (y ≤ YearFromDay d)) as [|Hn]; [done|].
  pose proof (DayFromYear_mono (YearFromDay d + 1) y). lia.
Qed.

Lemma YearFromDay_unique d y :
  DayFromYear y ≤ d < DayFromYear (y + 1) → YearFromDay d = y.
Proof.
  intros [Hlo Hhi]. pose proof (YearFromDay_largest d y Hlo).
  pose proof (YearFromDay_spec d) as [Hd _].
  destruct (decide (YearFromDay d ≤ y)) as [|Hn]; [lia|].
  pose proof (DayFromYear_mono (y + 1) (YearFromDay d)). lia.
Qed.

Lemma DayWithinYear_range t : 0 ≤ DayWithinYear t ≤ 365.
Proof.
  unfold DayWithinYear, YearFromTime.
  pose proof (YearFromDay_spec (Day t)) as H.
  rewrite DayFromYear_succ in H.
  pose proof (DaysInYear_range (YearFromDay (Day t))). lia.
Qed.

Lemma MonthFromTime_range t : 0 ≤ MonthFromTime t ≤ 11.
Proof. unfold MonthFromTime. cbv zeta. repeat case_decide; lia. Qed.

Lemma WeekDay_range t : 0 ≤ WeekDay t ≤ 6.
Proof. unfold WeekDay. zdiv. Qed.

End JSDateFacts.

(** ** The civil calendar *)

Section Calendar.
Import JSDate JSDateFacts.

Lemma leap_year_DaysInYear y :
  DaysInYear y = if leap_year y then 366 else 365.
Proof.
  unfold DaysInYear, leap_year.
  case_bool_decide; repeat case_decide; try done; lia.
Qed.

Ltac months m :=
  let H := fresh in
  assert (m = 1 ∨ m = 2 ∨ m = 3 ∨ m = 4 ∨ m = 5 ∨ m = 6 ∨ m = 7 ∨ m = 8
          ∨ m = 9 ∨ m = 10 ∨ m = 11 ∨ m = 12) as H by lia;
  repeat (destruct H as [->|H]); [..|subst m].

(** The days before a month, month by month. *)
Lemma days_before_month_table y m :
  1 ≤ m ≤ 12 →
  days_before_month y m
  = match m with
    | 1 => 0 | 2 => 31 | 3 => 59 | 4 => 90 | 5 => 120 | 6 => 151
    | 7 => 181 | 8 => 212 | 9 => 243 | 10 => 273 | 11 => 304 | _ => 334
    end
    + match m with
      | 1 | 2 => 0
      | _ => if leap_year y then 1 else 0
      end.
Proof.
  intros Hm. unfold days_before_month, month_length.
  destruct (leap_year y); months m; reflexivity.
Qed.

(** The calendar of the new years: 1 January 1970 is the epoch, and a
    year is 366 days long when it is a leap year and 365 otherwise. *)
Lemma civil_time_new_year y :
  civil_time 1970 1 1 0 = 0
  ∧ civil_time (y + 1) 1 1 0
    = civil_time y 1 1 0 + (if leap_year y then 366 else 365) * msPerDay.
Proof.
  split; [reflexivity|]. unfold civil_time.
  rewrite !days_before_month_table, DayFromYear_succ, leap_year_DaysInYear
    by lia.
  lia.
Qed.

Lemma civil_day_within_year y m d :
  1 ≤ m ≤ 12 → 1 ≤ d ≤ month_length y m →
  0 ≤ days_before_month y m + (d - 1) < DaysInYear y.
Proof.
  intros Hm Hd. rewrite days_before_month_table, leap_year_DaysInYear by done.
  unfold month_length in Hd.
  destruct (leap_year y); months m; lia.
Qed.

Lemma Day_civil_time y m d ms :
  0 ≤ ms < msPerDay →
  Day (civil_time y m d ms) = DayFromYear y + days_before_month y m + (d - 1).
Proof.
  intros Hms. unfold Day, civil_time.
  generalize (DayFromYear y + days_before_month y m + (d - 1)).
  unfold msPerDay in *. intros D. zdiv.
Qed.

(** The year and the month the Date arithmetic reads from a time value
    are those of the civil date. *)
Lemma YearFromTime_civil_time y m d ms :
  1 ≤ m ≤ 12 → 1 ≤ d ≤ month_length y m → 0 ≤ ms < msPerDay →
  YearFromTime (civil_time y m d ms) = y.
Proof.
  intros Hm Hd Hms. unfold YearFromTime. rewrite Day_civil_time by done.
  apply YearFromDay_unique. rewrite DayFromYear_succ.
  pose proof (civil_day_within_year y m d Hm Hd). lia.
Qed.

Lemma MonthFromTime_civil_time y m d ms :
  1 ≤ m ≤ 12 → 1 ≤ d ≤ month_length y m → 0 ≤ ms < msPerDay →
  MonthFromTime (civil_time y m d ms) = m - 1.
Proof.
  intros Hm Hd Hms.
  unfold MonthFromTime, InLeapYear, DayWithinYear. cbv zeta.
  rewrite YearFromTime_civil_time, Day_civil_time by done.
  replace (DayFromYear y + days_before_month y m + (d - 1) - DayFromYear y)
    with (days_before_month y m + (d - 1)) by lia.
  rewrite days_before_month_table, leap_year_DaysInYear by done.
  unfold month_length in Hd.
  destruct (leap_year y); months m;
    (rewrite ?decide_True by done; rewrite ?decide_False by done);
    repeat case_decide; lia.
Qed.

Lemma days_before_month_succ y k :
  1 ≤ k ≤ 11 →
  days_before_month y (k + 1) = days_before_month y k + month_length y k.
Proof.
  intros Hk. rewrite !days_before_month_table by lia.
  unfold month_length.
  destruct (leap_year y); months k; first [reflexivity | lia].
Qed.

Lemma days_before_month_end y :
  days_before_month y 12 + month_length y 12 = DaysInYear y.
Proof.
  rewrite days_before_month_table, leap_year_DaysInYear by lia. cbn.
  destruct (leap_year y); reflexivity.
Qed.

(** Every time value is the time value of a civil date. *)
Lemma civil_time_exists t :
  ∃ y m d ms,
    1 ≤ m ≤ 12 ∧ 1 ≤ d ≤ month_length y m ∧ 0 ≤ ms < msPerDay
    ∧ t = civil_time y m d ms.
Proof.
  set (y := YearFromTime t). set (n := DayWithinYear t).
  assert (0 ≤ n < DaysInYear y) as Hn.
  { unfold n, DayWithinYear, y, YearFromTime.
    pose proof (YearFromDay_spec (Day t)) as H.
    rewrite DayFromYear_succ in H. lia. }
  assert (t = (DayFromYear y + n) * msPerDay + t mod msPerDay) as Ht.
  { unfold n, DayWithinYear, y, Day.
    generalize (DayFromYear (YearFromTime t)). unfold msPerDay. intros. zdiv. }
  assert (0 ≤ t mod msPerDay < msPerDay) as Hms
    by (unfold msPerDay; zdiv).
  assert (∃ m d, 1 ≤ m ≤ 12 ∧ 1 ≤ d ≤ month_length y m
                 ∧ n = days_before_month y m + (d - 1))
    as (m & d & Hm & Hd & Hnd).
  { assert (∀ k, 1 ≤ k ≤ 12 →
              n < days_before_month y k + month_length y k →
              days_before_month y k ≤ n →
              ∃ m d, 1 ≤ m ≤ 12 ∧ 1 ≤ d ≤ month_length y m
                     ∧ n = days_before_month y m + (d - 1)) as Hk.
    { intros k Hk Hlt Hge. exists k, (n - days_before_month y k + 1). lia. }
    pose proof (days_before_month_succ y) as Hsucc.
    pose proof (days_before_month_end y) as Hend.
    assert (days_before_month y 1 = 0) as Hstart by reflexivity.
    clear Ht.
    destruct (decide (n < days_before_month y 2)) as [|H2];
      [apply (Hk 1); [lia|rewrite <- (Hsucc 1) by lia; done|lia]|].
    destruct (decide (n < days_before_month y 3)) as [|H3];
      [apply (Hk 2); [lia|rewrite <- (Hsucc 2) by lia; done|lia]|].
    destruct (decide (n < days_before_month y 4)) as [|H4];
      [apply (Hk 3); [lia|rewrite <- (Hsucc 3) by lia; done|lia]|].
    destruct (decide (n < days_before_month y 5)) as [|H5];
      [apply (Hk 4); [lia|rewrite <- (Hsucc 4) by lia; done|lia]|].
    destruct (decide (n < days_before_month y 6)) as [|H6];
      [apply (Hk 5); [lia|rewrite <- (Hsucc 5) by lia; done|lia]|].
    destruct (decide (n < days_before_month y 7)) as [|H7];
      [apply (Hk 6); [lia|rewrite <- (Hsucc 6) by lia; done|lia]|].
    destruct (decide (n < days_before_month y 8)) as [|H8];
      [apply (Hk 7); [lia|rewrite <- (Hsucc 7) by lia; done|lia]|].
    destruct (decide (n < days_before_month y 9)) as [|H9];
      [apply (Hk 8); [lia|rewrite <- (Hsucc 8) by lia; done|lia]|].
    destruct (decide (n < days_before_month y 10)) as [|H10];
      [apply (Hk 9); [lia|rewrite <- (Hsucc 9) by lia; done|lia]|].
    destruct (decide (n < days_before_month y 11)) as [|H11];
      [apply (Hk 10); [lia|rewrite <- (Hsucc 10) by lia; done|lia]|].
    destruct (decide (n < days_before_month y 12)) as [|H12];
      [apply (Hk 11); [lia|rewrite <- (Hsucc 11) by lia; done|lia]|].
    apply (Hk 12); [lia|rewrite Hend; lia|lia]. }
  exists y, m, d, (t mod msPerDay). repeat split; try lia.
  unfold civil_time. rewrite Hnd in Ht. rewrite Ht at 1. lia.
Qed.

End Calendar.

(** ** The bucket key *)

Lemma pretty_N_char_digit (k : N) :
  (k < 10)%N → pretty_N_char k = digit (Z.of_N k).
Proof.
  intros Hk. unfold digit. rewrite N2Z.id.
  rewrite <- (N2Nat.id k). assert (N.to_nat k < 10)%nat as Hn by lia.
  revert Hn. generalize (N.to_nat k). clear. intros n Hn.
  do 10 (destruct n as [|n]; [reflexivity|]). lia.
Qed.

(** The decimal digits of a positive number, least significant first. *)
Lemma pretty_N_go_digit (x : N) (s : string) :
  (0 < x)%N →
  pretty_N_go x s
  = pretty_N_go (x `div` 10)%N (String (digit (Z.of_N x mod 10)) s).
Proof.
  intros Hx. rewrite pretty_N_go_step by done.
  rewrite pretty_N_char_digit by (apply N.mod_lt; done).
  by rewrite N2Z.inj_mod.
Qed.

Lemma String_of_number_pos (n : Z) :
  0 < n → String_of_number n = pretty_N_go (Z.to_N n) EmptyString.
Proof.
  intros Hn. destruct n as [|p|p]; try lia.
  unfold String_of_number, pretty, pretty_Z, pretty, pretty_positive, pretty,
    pretty_N.
  rewrite decide_False by done. reflexivity.
Qed.

Lemma String_of_number_four_digits n :
  1000 ≤ n ≤ 9999 → String_of_number n = four_digits n.
Proof.
  intros Hn. rewrite String_of_number_pos by lia.
  rewrite <- (Z2N.id n) at 2 by lia.
  assert (1000 ≤ Z.to_N n ≤ 9999)%N as HN by lia.
  generalize dependent (Z.to_N n). clear. intros x Hx.
  do 4 (rewrite pretty_N_go_digit by (zify; zdiv)).
  rewrite !N2Z.inj_div. 
  replace (x / 10 / 10 / 10 / 10)%N with 0%N by (zify; zdiv).
  rewrite pretty_N_go_0. unfold four_digits, two_digits.
  change (Z.of_N 10) with 10.
  f_equal; [f_equal; zdiv|].
  f_equal; [f_equal; zdiv|].
  f_equal; [f_equal; zdiv|].
  f_equal. f_equal. zdiv.
Qed.

Lemma padStart_two_digits n :
  0 ≤ n < 100 → padStart 2 "0" (String_of_number n) = two_digits n.
Proof.
  intros Hn.
  destruct (decide (n = 0)) as [->|]; [reflexivity|].
  rewrite String_of_number_pos by lia.
  rewrite <- (Z2N.id n) at 2 by lia.
  assert (1 ≤ Z.to_N n ≤ 99)%N as HN by lia.
  generalize dependent (Z.to_N n). clear. intros x Hx.
  rewrite pretty_N_go_digit by lia.
  destruct (decide (x < 10)%N).
  - replace (x `div` 10)%N with 0%N by (zify; zdiv).
    rewrite pretty_N_go_0. unfold two_digits, padStart. simpl.
    replace (Z.of_N x / 10) with 0 by zdiv. reflexivity.
  - rewrite pretty_N_go_digit by (zify; zdiv).
    replace (x / 10 / 10)%N with 0%N by (zify; zdiv).
    rewrite pretty_N_go_0. unfold two_digits, padStart. simpl.
    rewrite N2Z.inj_div. change (Z.of_N 10) with 10.
    change (String.app EmptyString ?s) with s.
    f_equal. f_equal. zdiv.
Qed.

Lemma Qceiling_week (ms dow : Z) :
  Qceiling ((inject_Z ms / inject_Z 86400000 + inject_Z dow + inject_Z 1)
            / inject_Z 7)%Q
  = - ((- (ms + (dow + 1) * 86400000)) / 604800000).
Proof.
  transitivity (Qceiling ((ms + (dow + 1) * 86400000) # 604800000)).
  - apply Qceiling_comp.
    unfold Qeq, Qdiv, Qmult, Qplus, Qinv, inject_Z. cbn. lia.
  - unfold Qceiling, Qfloor, Qopp. reflexivity.
Qed.


Section BucketKeyFacts.
Variable LocalTZA : Z → bool → Z.
Import JSDate JSDateFacts.

Lemma TimeFromYear_civil_time y : TimeFromYear y = civil_time y 1 1 0.
Proof.
  unfold TimeFromYear, civil_time.
  change (days_before_month y 1) with 0. lia.
Qed.

(** The time from [firstDayOfYear] to [date]: the local time elapsed in
    the year, corrected by the difference of the two offsets. *)
Lemma since_Jan1 date :
  date - Jan1 LocalTZA date
  = LocalTime LocalTZA date - TimeFromYear (getFullYear LocalTZA date)
    + (LocalTZA (TimeFromYear (getFullYear LocalTZA date)) false
       - LocalTZA date true).
Proof. unfold Jan1, UTC, LocalTime. lia. Qed.

Lemma local_year_elapsed date :
  0 ≤ LocalTime LocalTZA date - TimeFromYear (getFullYear LocalTZA date)
  < 366 * msPerDay.
Proof.
  unfold getFullYear, TimeFromYear.
  pose proof (DayWithinYear_range (LocalTime LocalTZA date)) as H.
  unfold DayWithinYear, Day in H.
  generalize dependent (DayFromYear (YearFromTime (LocalTime LocalTZA date))).
  generalize (LocalTime LocalTZA date). unfold msPerDay. intros t d H. zdiv.
Qed.

Lemma since_Jan1_range date :
  zone_bounded LocalTZA →
  - 2 * msPerDay < date - Jan1 LocalTZA date < 368 * msPerDay.
Proof.
  intros Hz. rewrite since_Jan1.
  pose proof (local_year_elapsed date).
  pose proof (Hz (TimeFromYear (getFullYear LocalTZA date)) false).
  pose proof (Hz date true). lia.
Qed.

Lemma getDay_Jan1 date :
  midnight_exists LocalTZA (getFullYear LocalTZA date) →
  getDay LocalTZA (Jan1 LocalTZA date)
  = civil_weekday (DayFromYear (getFullYear LocalTZA date)).
Proof.
  unfold midnight_exists, getDay, Jan1, WeekDay, civil_weekday. intros ->.
  unfold Day, TimeFromYear. do 2 f_equal.
  rewrite Z.mul_comm. by apply Z.div_mul.
Qed.

(** Outside the years 0 to 99, [firstDayOfYear] is 1 January of the
    year of [date]. *)
Lemma weekNumber_eq date :
  ¬ (0 ≤ getFullYear LocalTZA date ≤ 99) →
  weekNumber LocalTZA date
  = - ((- (date - Jan1 LocalTZA date
           + (getDay LocalTZA (Jan1 LocalTZA date) + 1) * 86400000))
       / 604800000).
Proof.
  intros Hy. unfold weekNumber, Date_year_0_1, Jan1. cbv zeta.
  rewrite decide_False by done. apply Qceiling_week.
Qed.

(** The week number is the ceiling the code writes, an integer from 0
    to 54. *)
Lemma weekNumber_ceiling date :
  zone_bounded LocalTZA →
  ¬ (0 ≤ getFullYear LocalTZA date ≤ 99) →
  let x := date - Jan1 LocalTZA date
           + (getDay LocalTZA (Jan1 LocalTZA date) + 1) * msPerDay in
  let w := weekNumber LocalTZA date in
  7 * msPerDay * (w - 1) < x ≤ 7 * msPerDay * w ∧ 0 ≤ w ≤ 54.
Proof.
  intros Hz Hy. cbv zeta. rewrite weekNumber_eq by done.
  pose proof (since_Jan1_range date Hz) as Hms.
  assert (0 ≤ getDay LocalTZA (Jan1 LocalTZA date) ≤ 6) as Hd
    by apply WeekDay_range.
  revert Hms Hd.
  generalize (date - Jan1 LocalTZA date), (getDay LocalTZA (Jan1 LocalTZA date)).
  unfold msPerDay. intros ms dow ??. zdiv.
Qed.

(** The year and the month of a date whose local time is a given civil
    date. *)
Lemma getFullYear_civil date y m d ms :
  1 ≤ m ≤ 12 → 1 ≤ d ≤ month_length y m → 0 ≤ ms < msPerDay →
  LocalTime LocalTZA date = civil_time y m d ms →
  getFullYear LocalTZA date = y ∧ getMonth LocalTZA date = m - 1.
Proof.
  intros Hm Hd Hms Hl. unfold getFullYear, getMonth. rewrite Hl.
  by rewrite YearFromTime_civil_time, MonthFromTime_civil_time.
Qed.
End BucketKeyFacts.

(** C7.  Let the local time of the creation date be the civil date
    [y]-[m]-[d], [ms] milliseconds after midnight, in a year from 1000 to
    9999.  For [month] the history key is the four digits of [y], a dash
    and the calendar month [m] on two digits.  For [week], in a time zone
    whose offsets are below a day and in which 1 January of [y] has a
    midnight, the key is the four digits of [y], "-W" and the week number
    [w] on two digits, where [w] is the ceiling of ((date - Jan1) in days
    + weekday of 1 January + 1) / 7, that is the integer with
    7 (w - 1) < that sum <= 7 w; Jan1 is the instant of the local
    midnight of 1 January of [y], and the weekday counts from Sunday = 0. *)
Theorem bucketKey_format (LocalTZA : Z → bool → Z) (date : Date)
    (y m d ms : Z) :
  1000 ≤ y ≤ 9999 → 1 ≤ m ≤ 12 → 1 ≤ d ≤ month_length y m →
  0 ≤ ms < JSDate.msPerDay →
  JSDate.LocalTime LocalTZA date = civil_time y m d ms →
  bucketKey LocalTZA month date = four_digits y +:+ "-" +:+ two_digits m
  ∧ (zone_bounded LocalTZA → midnight_exists LocalTZA y →
     let firstDayOfYear :=
       civil_time y 1 1 0 - LocalTZA (civil_time y 1 1 0) false in
     let dow := civil_weekday (JSDate.DayFromYear y) in
     let x := date - firstDayOfYear + (dow + 1) * JSDate.msPerDay in
     ∃ w,
       bucketKey LocalTZA week date = four_digits y +:+ "-W" +:+ two_digits w
       ∧ 7 * JSDate.msPerDay * (w - 1) < x ≤ 7 * JSDate.msPerDay * w).
Proof.
  intros Hy Hm Hd Hms Hl.
  destruct (getFullYear_civil LocalTZA date y m d ms Hm Hd Hms Hl)
    as [Hyear Hmonth].
  split.
  - unfold bucketKey. rewrite Hyear, Hmonth.
    rewrite (String_of_number_four_digits _ Hy).
    replace (m - 1 + 1) with m by lia.
    by rewrite padStart_two_digits by lia.
  - intros Hz Hmid. cbv zeta. exists (weekNumber LocalTZA date).
    destruct (weekNumber_ceiling LocalTZA date Hz) as [Hx Hw];
      [rewrite Hyear; lia|].
    rewrite getDay_Jan1 in Hx by (by rewrite Hyear).
    unfold Jan1, JSDate.UTC in Hx. rewrite Hyear in Hx.
    rewrite TimeFromYear_civil_time in Hx.
    split; [|exact Hx].
    unfold bucketKey. rewrite Hyear.
    rewrite (String_of_number_four_digits _ Hy).
    by rewrite padStart_two_digits by lia.
Qed.

Lemma America_New_York_bounded : zone_bounded America_New_York.
Proof.
  intros t isUTC. unfold America_New_York, JSDate.msPerDay.
  destruct isUTC; case_decide; lia.
Qed.

Lemma Etc_UTC_bounded : zone_bounded Etc_UTC.
Proof. intros t isUTC. unfold Etc_UTC, JSDate.msPerDay. lia. Qed.

Lemma Etc_UTC_monotone : zone_monotone Etc_UTC.
Proof. intros t1 t2 Ht. unfold JSDate.LocalTime, Etc_UTC. lia. Qed.

Lemma bucketKey_format_witness :
  bucketKey America_New_York month 1720240200000 = "2024-07"
  ∧ bucketKey America_New_York week 1720240200000 = "2024-W27".
Proof.
  destruct (bucketKey_format America_New_York 1720240200000 2024 7 6 1800000)
    as [Hm Hw].
  - lia.
  - lia.
  - change (month_length 2024 7) with 31. lia.
  - unfold JSDate.msPerDay. lia.
  - reflexivity.
  - split; [exact Hm|].
    destruct (Hw America_New_York_bounded eq_refl) as (w & Hkey & Hx).
    cbv zeta in Hx. unfold JSDate.msPerDay in Hx.
    change (civil_time 2024 1 1 0) with 1704067200000 in Hx.
    change (America_New_York 1704067200000 false) with (-18000000) in Hx.
    change (civil_weekday (JSDate.DayFromYear 2024)) with 1 in Hx.
    assert (w = 27) as -> by lia.
    exact Hkey.
Defined.

(** ** Weeks, day by day *)

Section WeekFacts.
Variable LocalTZA : Z → bool → Z.
Import JSDate JSDateFacts.

Lemma local_year_split date :
  LocalTime LocalTZA date - TimeFromYear (getFullYear LocalTZA date)
  = msPerDay * DayWithinYear (LocalTime LocalTZA date)
    + LocalTime LocalTZA date mod msPerDay.
Proof.
  unfold getFullYear, TimeFromYear, DayWithinYear, Day.
  generalize (DayFromYear (YearFromTime (LocalTime LocalTZA date))).
  generalize (LocalTime LocalTZA date). unfold msPerDay. intros t d. zdiv.
Qed.

(** The week number, day by day. *)
Lemma weekNumber_days date :
  let y := getFullYear LocalTZA date in
  ¬ (0 ≤ y ≤ 99) →
  midnight_exists LocalTZA y →
  LocalTZA date true = LocalTZA (TimeFromYear y) false →
  let n := DayWithinYear (LocalTime LocalTZA date) in
  let dow := civil_weekday (DayFromYear y) in
  weekNumber LocalTZA date
  = if decide (LocalTime LocalTZA date mod msPerDay = 0)
    then (n + dow + 7) / 7
    else (n + dow + 1) / 7 + 1.
Proof.
  cbv zeta. intros Hy Hmid Hoff. rewrite weekNumber_eq by done.
  rewrite since_Jan1, getDay_Jan1, <- Hoff, local_year_split by done.
  generalize (DayWithinYear (LocalTime LocalTZA date)),
    (civil_weekday (DayFromYear (getFullYear LocalTZA date))).
  generalize (LocalTime LocalTZA date), (LocalTZA date true).
  unfold msPerDay. intros t off n dow. case_decide; zdiv.
Qed.

(** X2.  Take a creation date outside the years 0 to 99, in a zone in
    which 1 January of its year has a midnight and whose offset at the
    creation instant is the one of that midnight (no daylight-saving
    shift in between).  With [n] the number of whole days since 1 January
    (local time) and [dow] the weekday of 1 January, every instant of a
    day but its first millisecond has the week number
    (n + dow + 1) / 7 + 1, and the first millisecond of the day has
    (n + dow + 7) / 7: the number goes up with Saturday, one day before
    the Sunday, and a Saturday's midnight still counts in the week
    before. *)
Theorem weekNumber_by_day date :
  let y := getFullYear LocalTZA date in
  ¬ (0 ≤ y ≤ 99) →
  midnight_exists LocalTZA y →
  LocalTZA date true = LocalTZA (TimeFromYear y) false →
  let n := DayWithinYear (LocalTime LocalTZA date) in
  let dow := civil_weekday (DayFromYear y) in
  weekNumber LocalTZA date
  = if decide (LocalTime LocalTZA date mod msPerDay = 0)
    then (n + dow + 7) / 7
    else (n + dow + 1) / 7 + 1.
Proof. exact (weekNumber_days date). Qed.
End WeekFacts.

(** The scenario of the specification, at any time of the two days, in a
    zone that keeps through the two days the offset of the midnight of
    1 January: tasks created on 2024-01-02 and on 2024-01-09 fall in two
    weeks and in one month. *)
Lemma scenario_keys (LocalTZA : Z → bool → Z) (d1 d2 : Date) :
  midnight_exists LocalTZA 2024 →
  LocalTZA d1 true = LocalTZA 1704067200000 false →
  LocalTZA d2 true = LocalTZA 1704067200000 false →
  1704153600000 ≤ JSDate.LocalTime LocalTZA d1 < 1704240000000 →
  1704758400000 ≤ JSDate.LocalTime LocalTZA d2 < 1704844800000 →
  bucketKey LocalTZA week d1 = "2024-W01"
  ∧ bucketKey LocalTZA week d2 = "2024-W02"
  ∧ bucketKey LocalTZA month d1 = "2024-01"
  ∧ bucketKey LocalTZA month d2 = "2024-01".
Proof.
  intros Hmid Ho1 Ho2 H1 H2.
  assert (∀ d, 1704067200000 ≤ JSDate.LocalTime LocalTZA d < 1706745600000 →
               JSDate.getFullYear LocalTZA d = 2024
               ∧ JSDate.getMonth LocalTZA d = 0
               ∧ JSDate.DayWithinYear (JSDate.LocalTime LocalTZA d)
                 = JSDate.LocalTime LocalTZA d / 86400000 - 19723) as Hjan.
  { intros d Hd.
    assert (19723 ≤ JSDate.Day (JSDate.LocalTime LocalTZA d) < 19754) as HD
      by (unfold JSDate.Day, JSDate.msPerDay; zdiv).
    assert (JSDate.YearFromTime (JSDate.LocalTime LocalTZA d) = 2024) as HY.
    { unfold JSDate.YearFromTime. apply JSDateFacts.YearFromDay_unique.
      change (JSDate.DayFromYear 2024) with 19723.
      change (JSDate.DayFromYear (2024 + 1)) with 20089. lia. }
    split; [exact HY|].
    unfold JSDate.getMonth, JSDate.MonthFromTime, JSDate.DayWithinYear.
    rewrite HY. change (JSDate.DayFromYear 2024) with 19723. cbv zeta.
    split; [|done]. rewrite decide_True; [done | lia]. }
  assert (∀ d, LocalTZA d true = LocalTZA 1704067200000 false →
               1704067200000 ≤ JSDate.LocalTime LocalTZA d < 1706745600000 →
               weekNumber LocalTZA d
               = if decide (JSDate.LocalTime LocalTZA d mod 86400000 = 0)
                 then (JSDate.LocalTime LocalTZA d / 86400000 - 19723 + 8) / 7
                 else (JSDate.LocalTime LocalTZA d / 86400000 - 19723 + 2) / 7 + 1)
    as Hweek.
  { intros d Ho Hd. destruct (Hjan d Hd) as (Hy & _ & Hn).
    rewrite weekNumber_days; rewrite Hy; [|lia|done|done].
    rewrite Hn. change (civil_weekday (JSDate.DayFromYear 2024)) with 1.
    unfold JSDate.msPerDay. case_decide; [|f_equal]; f_equal; lia. }
  destruct (Hjan d1) as (Hy1 & Hm1 & _); [lia|].
  destruct (Hjan d2) as (Hy2 & Hm2 & _); [lia|].
  unfold bucketKey.
  rewrite !Hweek, Hy1, Hy2, Hm1, Hm2 by (done || lia).
  assert ((if decide (JSDate.LocalTime LocalTZA d1 mod 86400000 = 0)
           then (JSDate.LocalTime LocalTZA d1 / 86400000 - 19723 + 8) / 7
           else (JSDate.LocalTime LocalTZA d1 / 86400000 - 19723 + 2) / 7 + 1)
          = 1) as -> by (case_decide; zdiv).
  assert ((if decide (JSDate.LocalTime LocalTZA d2 mod 86400000 = 0)
           then (JSDate.LocalTime LocalTZA d2 / 86400000 - 19723 + 8) / 7
           else (JSDate.LocalTime LocalTZA d2 / 86400000 - 19723 + 2) / 7 + 1)
          = 2) as -> by (case_decide; zdiv).
  done.
Qed.

(** ** The order of the keys *)

Lemma N_of_digit a : 0 ≤ a ≤ 9 → Ascii.N_of_ascii (digit a) = (48 + Z.to_N a)%N.
Proof. intros Ha. unfold digit. apply Ascii.N_ascii_embedding. lia. Qed.

Lemma compare_digit a b :
  0 ≤ a ≤ 9 → 0 ≤ b ≤ 9 → Ascii.compare (digit a) (digit b) = (a ?= b).
Proof.
  intros Ha Hb. unfold Ascii.compare. rewrite !N_of_digit by done.
  destruct (Z.compare_spec a b).
  - subst. apply N.compare_refl.
  - apply N.compare_lt_iff. lia.
  - apply N.compare_gt_iff. lia.
Qed.

Lemma compare_String c1 c2 s1 s2 :
  String.compare (String c1 s1) (String c2 s2)
  = match Ascii.compare c1 c2 with
    | Eq => String.compare s1 s2
    | ne => ne
    end.
Proof. reflexivity. Qed.

Lemma app_String c s1 s2 : String c s1 +:+ s2 = String c (s1 +:+ s2).
Proof. reflexivity. Qed.

Lemma app_EmptyString s : EmptyString +:+ s = s.
Proof. reflexivity. Qed.

(** Comparing two strings that start with two decimal digits. *)
Lemma compare_two_digits m1 m2 s1 s2 :
  0 ≤ m1 < 100 → 0 ≤ m2 < 100 →
  String.compare (two_digits m1 +:+ s1) (two_digits m2 +:+ s2)
  = match m1 ?= m2 with
    | Eq => String.compare s1 s2
    | ne => ne
    end.
Proof.
  intros H1 H2. unfold two_digits.
  rewrite !app_String, !app_EmptyString.
  rewrite !compare_String, !compare_digit by zdiv.
  destruct (Z.compare_spec (m1 / 10) (m2 / 10)),
    (Z.compare_spec (m1 mod 10) (m2 mod 10)),
    (Z.compare_spec m1 m2); try reflexivity; zdiv.
Qed.

Lemma compare_four_digits y1 y2 s1 s2 :
  0 ≤ y1 ≤ 9999 → 0 ≤ y2 ≤ 9999 →
  String.compare (four_digits y1 +:+ s1) (four_digits y2 +:+ s2)
  = match y1 ?= y2 with
    | Eq => String.compare s1 s2
    | ne => ne
    end.
Proof.
  intros H1 H2. unfold four_digits.
  rewrite !app_String.
  rewrite !compare_String, !compare_digit by zdiv.
  rewrite (compare_two_digits (y1 mod 100) (y2 mod 100)) by zdiv.
  destruct (Z.compare_spec (y1 / 1000) (y2 / 1000)),
    (Z.compare_spec (y1 / 100 mod 10) (y2 / 100 mod 10)),
    (Z.compare_spec (y1 mod 100) (y2 mod 100)),
    (Z.compare_spec y1 y2); try reflexivity; zdiv.
Qed.

Lemma compare_refl s : String.compare s s = Eq.
Proof.
  induction s as [|c s IH]; [done|].
  rewrite compare_String. unfold Ascii.compare. by rewrite N.compare_refl.
Qed.


Section KeyOrder.
Variable LocalTZA : Z → bool → Z.
Import JSDate JSDateFacts.

Lemma getFullYear_mono d1 d2 :
  zone_monotone LocalTZA →
  d1 ≤ d2 → getFullYear LocalTZA d1 ≤ getFullYear LocalTZA d2.
Proof.
  intros Hz Hd. unfold getFullYear, YearFromTime.
  apply YearFromDay_largest.
  pose proof (YearFromDay_spec (Day (LocalTime LocalTZA d1))) as [Hlo _].
  assert (Day (LocalTime LocalTZA d1) ≤ Day (LocalTime LocalTZA d2));
    [|lia].
  specialize (Hz d1 d2 Hd). unfold Day, msPerDay. zdiv.
Qed.

Lemma period_number_range query_period date :
  (query_period = week → zone_bounded LocalTZA) →
  ¬ (0 ≤ getFullYear LocalTZA date ≤ 99) →
  0 ≤ period_number LocalTZA query_period date < 100.
Proof.
  intros Hz Hy. destruct query_period; cbn.
  - destruct (weekNumber_ceiling LocalTZA date (Hz eq_refl) Hy) as [_ ?]. lia.
  - pose proof (MonthFromTime_range (LocalTime LocalTZA date)).
    unfold getMonth. lia.
Qed.

Lemma period_number_mono query_period d1 d2 :
  zone_monotone LocalTZA →
  d1 ≤ d2 →
  getFullYear LocalTZA d1 = getFullYear LocalTZA d2 →
  ¬ (0 ≤ getFullYear LocalTZA d1 ≤ 99) →
  period_number LocalTZA query_period d1
  ≤ period_number LocalTZA query_period d2.
Proof.
  intros Hz Hd Hy Hny. destruct query_period; cbn.
  - rewrite !weekNumber_eq by congruence.
    unfold Jan1. rewrite <- Hy.
    generalize (UTC LocalTZA (TimeFromYear (getFullYear LocalTZA d1))).
    intros j. generalize (getDay LocalTZA j). intros dow. zdiv.
  - unfold getMonth, MonthFromTime, InLeapYear, DayWithinYear. cbv zeta.
    unfold getFullYear in Hy. rewrite <- Hy.
    assert (Day (LocalTime LocalTZA d1) ≤ Day (LocalTime LocalTZA d2)) as HD
      by (specialize (Hz d1 d2 Hd); unfold Day, msPerDay; zdiv).
    revert HD.
    generalize (Day (LocalTime LocalTZA d1)), (Day (LocalTime LocalTZA d2)),
      (DayFromYear (YearFromTime (LocalTime LocalTZA d1))).
    intros D1 D2 Y0 HD.
    destruct (decide (DaysInYear _ = 366)); repeat case_decide; lia.
Qed.

(** The key, for a year of four digits. *)
Lemma bucketKey_digits query_period date :
  (query_period = week → zone_bounded LocalTZA) →
  1000 ≤ getFullYear LocalTZA date ≤ 9999 →
  bucketKey LocalTZA query_period date
  = four_digits (getFullYear LocalTZA date)
    +:+ (match query_period with month => "-" | week => "-W" end)
    +:+ two_digits (period_number LocalTZA query_period date).
Proof.
  intros Hz Hy.
  pose proof (period_number_range query_period date Hz) as Hn.
  unfold bucketKey.
  rewrite (String_of_number_four_digits _ Hy).
  destruct query_period; cbn in *; by rewrite padStart_two_digits by lia.
Qed.

Lemma compare_bucketKey query_period d1 d2 :
  (query_period = week → zone_bounded LocalTZA) →
  1000 ≤ getFullYear LocalTZA d1 ≤ 9999 →
  1000 ≤ getFullYear LocalTZA d2 ≤ 9999 →
  String.compare (bucketKey LocalTZA query_period d1)
    (bucketKey LocalTZA query_period d2)
  = match getFullYear LocalTZA d1 ?= getFullYear LocalTZA d2 with
    | Eq => period_number LocalTZA query_period d1
            ?= period_number LocalTZA query_period d2
    | ne => ne
    end.
Proof.
  intros Hz H1 H2. rewrite !bucketKey_digits by done.
  rewrite compare_four_digits by lia.
  destruct (_ ?= _); [|done..].
  pose proof (period_number_range query_period d1 Hz).
  pose proof (period_number_range query_period d2 Hz).
  assert (∀ s1 s2,
            String.compare (two_digits (period_number LocalTZA query_period d1) +:+ s1)
              (two_digits (period_number LocalTZA query_period d2) +:+ s2)
            = match period_number LocalTZA query_period d1
                    ?= period_number LocalTZA query_period d2 with
              | Eq => String.compare s1 s2
              | ne => ne
              end) as Hc
    by (intros; apply compare_two_digits; lia).
  specialize (Hc EmptyString EmptyString).
  assert (∀ s, s +:+ EmptyString = s) as Hnil
    by (intros s; induction s as [|c s IH]; [done|]; by rewrite app_String, IH).
  rewrite !Hnil in Hc.
  destruct query_period; rewrite !app_String, !app_EmptyString,
    !compare_String; cbn [Ascii.compare]; rewrite ?N.compare_refl, Hc;
    by destruct (_ ?= _).
Qed.

(** X3.  For creation years from 1000 to 9999 (by weeks: in a zone whose
    offsets are below a day), two tasks get the same history key exactly
    when they were created in the same local year and in the same month
    (for [month]) or with the same week number (for [week]). *)
Theorem bucketKey_same_period query_period d1 d2 :
  (query_period = week → zone_bounded LocalTZA) →
  1000 ≤ getFullYear LocalTZA d1 ≤ 9999 →
  1000 ≤ getFullYear LocalTZA d2 ≤ 9999 →
  bucketKey LocalTZA query_period d1 = bucketKey LocalTZA query_period d2
  ↔ getFullYear LocalTZA d1 = getFullYear LocalTZA d2
    ∧ period_number LocalTZA query_period d1
      = period_number LocalTZA query_period d2.
Proof.
  intros Hz H1 H2.
  pose proof (compare_bucketKey query_period d1 d2 Hz H1 H2) as Hc.
  split.
  - intros Heq. rewrite Heq, compare_refl in Hc.
    destruct (Z.compare_spec (getFullYear LocalTZA d1) (getFullYear LocalTZA d2));
      [|done..].
    split; [done|]. symmetry in Hc. by apply Z.compare_eq_iff in Hc.
  - intros [Hy Hn]. apply String.compare_eq_iff.
    rewrite Hc, Hy, Hn, !Z.compare_refl. done.
Qed.

(** X4.  In a zone whose local time never steps back (by weeks: and
    whose offsets are below a day), for creation years from 1000 to 9999,
    the history key grows with the creation instant: the lexicographic
    order of the keys is the chronological order of the periods. *)
Theorem bucketKey_chronological query_period d1 d2 :
  zone_monotone LocalTZA →
  (query_period = week → zone_bounded LocalTZA) →
  1000 ≤ getFullYear LocalTZA d1 ≤ 9999 →
  1000 ≤ getFullYear LocalTZA d2 ≤ 9999 →
  d1 ≤ d2 →
  String.le (bucketKey LocalTZA query_period d1)
    (bucketKey LocalTZA query_period d2).
Proof.
  intros Hmono Hz H1 H2 Hd. unfold String.le, String.leb.
  rewrite (compare_bucketKey query_period d1 d2 Hz H1 H2).
  pose proof (getFullYear_mono d1 d2 Hmono Hd) as Hy.
  destruct (Z.compare_spec (getFullYear LocalTZA d1) (getFullYear LocalTZA d2))
    as [Heq| |]; [|done|lia].
  pose proof (period_number_mono query_period d1 d2 Hmono Hd Heq) as Hn.
  destruct (Z.compare_spec (period_number LocalTZA query_period d1)
              (period_number LocalTZA query_period d2)); [done..|lia].
Qed.
End KeyOrder.

(** ** Numbers *)

Section NumberFacts.

Lemma digits2_pos_bounds p :
  2 ^ (Z.pos (digits2_pos p) - 1) ≤ Z.pos p < 2 ^ Z.pos (digits2_pos p).
Proof.
  induction p as [p IH|p IH|]; cbn [digits2_pos].
  - rewrite Pos2Z.inj_succ.
    replace (Z.succ (Z.pos (digits2_pos p)) - 1)
      with (Z.succ (Z.pos (digits2_pos p) - 1)) by lia.
    rewrite !Z.pow_succ_r by lia. lia.
  - rewrite Pos2Z.inj_succ.
    replace (Z.succ (Z.pos (digits2_pos p)) - 1)
      with (Z.succ (Z.pos (digits2_pos p) - 1)) by lia.
    rewrite !Z.pow_succ_r by lia. lia.
  - done.
Qed.

Lemma digits2_pos_unique p d :
  2 ^ (d - 1) ≤ Z.pos p < 2 ^ d → Z.pos (digits2_pos p) = d.
Proof.
  intros [Hlo Hhi]. pose proof (digits2_pos_bounds p) as [Hlo' Hhi'].
  assert (0 < d).
  { destruct (decide (0 < d)); [done|].
    assert (2 ^ d ≤ 2 ^ 0) by (apply Z.pow_le_mono_r; lia).
    change (2 ^ 0) with 1 in *. lia. }
  destruct (decide (Z.pos (digits2_pos p) < d)).
  { assert (2 ^ Z.pos (digits2_pos p) ≤ 2 ^ (d - 1))
      by (apply Z.pow_le_mono_r; lia). lia. }
  destruct (decide (d < Z.pos (digits2_pos p))); [|lia].
  assert (2 ^ d ≤ 2 ^ (Z.pos (digits2_pos p) - 1))
    by (apply Z.pow_le_mono_r; lia). lia.
Qed.

Lemma Pos_iter_xO m d : Z.pos (Pos.iter xO m d) = Z.pos m * 2 ^ Z.pos d.
Proof.
  induction d as [|d IH] using Pos.peano_ind.
  - cbn. lia.
  - rewrite Pos.iter_succ, Pos2Z.inj_succ, Z.pow_succ_r by lia.
    rewrite Pos2Z.inj_xO, IH. lia.
Qed.

Lemma iter_pos_iter {A} (f : A → A) p x : SpecFloat.iter_pos f p x = Pos.iter f x p.
Proof.
  revert x. induction p as [p IH|p IH|]; intros x; cbn; [|by rewrite !IH|done].
  by rewrite !IH, !Pos.iter_swap.
Qed.

Lemma shr_1_exact M p :
  0 < M →
  Pos.iter shr_1 (Build_shr_record (M * 2 ^ Z.pos p) false false) p
  = Build_shr_record M false false.
Proof.
  revert M. induction p as [|p IH] using Pos.peano_ind; intros M HM.
  - destruct M as [|q|q]; try lia.
    replace (Z.pos q * 2 ^ 1) with (Z.pos q~0) by lia. done.
  - rewrite Pos.iter_succ, Pos2Z.inj_succ, Z.pow_succ_r by lia.
    replace (M * (2 * 2 ^ Z.pos p)) with ((2 * M) * 2 ^ Z.pos p) by lia.
    rewrite IH by lia. destruct M as [|q|q]; try lia. done.
Qed.

(** A mantissa of 53 bits with an exponent in range is stable under rounding. *)
Lemma binary_round_aux_canonical s M E :
  Z.pos (digits2_pos M) = 53 → -1074 ≤ E ≤ 971 →
  binary_round_aux 53 1024 s (Z.pos M) E loc_Exact = S754_finite s M E.
Proof.
  intros HM HE. unfold binary_round_aux, shr_fexp, fexp, emin.
  cbn [Zdigits2 shr_record_of_loc]. rewrite HM.
  replace (Z.max (53 + E - 53) (3 - 1024 - 53) - E) with 0 by lia.
  cbn [shr shr_m loc_of_shr_record round_nearest_even Zdigits2 shr_record_of_loc].
  rewrite HM.
  replace (Z.max (53 + E - 53) (3 - 1024 - 53) - E) with 0 by lia.
  cbn [shr shr_m]. 
  replace (E <=? 1024 - 53) with true by lia. done.
Qed.

Lemma binary_round_canonical s m e M E b :
  Z.pos (digits2_pos M) = 53 → -1074 ≤ E ≤ 971 → b ≤ e → b ≤ E →
  Z.pos m * 2 ^ (e - b) = Z.pos M * 2 ^ (E - b) →
  binary_round 53 1024 s m e = S754_finite s M E.
Proof.
  intros HM HE Hbe HbE Heq. unfold binary_round.
  pose proof (digits2_pos_bounds M) as HMb. rewrite HM in HMb.
  change (2 ^ (53 - 1)) with 4503599627370496 in HMb.
  change (2 ^ 53) with 9007199254740992 in HMb.
  destruct (decide (E ≤ e)) as [Hle|Hlt].
  - (* the mantissa is shifted left *)
    assert (Z.pos M = Z.pos m * 2 ^ (e - E)) as HMm.
    { replace (e - b) with ((e - E) + (E - b)) in Heq by lia.
      rewrite Z.pow_add_r in Heq by lia.
      assert (0 < 2 ^ (E - b)) by (apply Z.pow_pos_nonneg; lia). nia. }
    assert (e - E < 53) as Hk.
    { destruct (decide (e - E < 53)); [done|].
      assert (2 ^ 53 ≤ 2 ^ (e - E)) by (apply Z.pow_le_mono_r; lia).
      change (2 ^ 53) with 9007199254740992 in *. nia. }
    assert (Z.pos (digits2_pos m) = 53 - (e - E)) as Hdm.
    { apply digits2_pos_unique.
      assert (2 ^ (53 - (e - E) - 1) * 2 ^ (e - E) = 4503599627370496) as H1.
      { rewrite <- Z.pow_add_r by lia.
        replace (53 - (e - E) - 1 + (e - E)) with 52 by lia. done. }
      assert (2 ^ (53 - (e - E)) * 2 ^ (e - E) = 9007199254740992) as H2.
      { rewrite <- Z.pow_add_r by lia.
        replace (53 - (e - E) + (e - E)) with 53 by lia. done. }
      assert (0 < 2 ^ (e - E)) by (apply Z.pow_pos_nonneg; lia). nia. }
    rewrite Hdm. unfold fexp, emin.
    replace (Z.max (53 - (e - E) + e - 53) (3 - 1024 - 53)) with E by lia.
    unfold shl_align. destruct (E - e) as [|p|p] eqn:Hd; try lia.
    + assert (e = E) as -> by lia. rewrite Z.sub_diag, Z.mul_1_r in HMm.
      injection HMm as ->. by apply binary_round_aux_canonical.
    + assert (Pos.iter xO m p = M) as ->.
      { apply Pos2Z.inj. rewrite Pos_iter_xO, HMm. do 2 f_equal. lia. }
      by apply binary_round_aux_canonical.
  - (* the mantissa is shifted right, exactly *)
    assert (Z.pos m = Z.pos M * 2 ^ (E - e)) as HmM.
    { replace (E - b) with ((E - e) + (e - b)) in Heq by lia.
      rewrite Z.pow_add_r in Heq by lia.
      assert (0 < 2 ^ (e - b)) by (apply Z.pow_pos_nonneg; lia). nia. }
    assert (Z.pos (digits2_pos m) = 53 + (E - e)) as Hdm.
    { apply digits2_pos_unique. rewrite HmM.
      replace (53 + (E - e) - 1) with (52 + (E - e)) by lia.
      rewrite !Z.pow_add_r by lia.
      change (2 ^ 52) with 4503599627370496.
      change (2 ^ 53) with 9007199254740992.
      assert (0 < 2 ^ (E - e)) by (apply Z.pow_pos_nonneg; lia). nia. }
    rewrite Hdm. unfold fexp, emin.
    replace (Z.max (53 + (E - e) + e - 53) (3 - 1024 - 53)) with E by lia.
    unfold shl_align. destruct (E - e) as [|p|p] eqn:Hd; try lia.
    unfold binary_round_aux, shr_fexp, fexp, emin.
    cbn [Zdigits2 shr_record_of_loc]. rewrite Hdm.
    replace (Z.max (53 + Z.pos p + e - 53) (3 - 1024 - 53) - e) with (Z.pos p)
      by lia.
    cbn [shr]. rewrite iter_pos_iter, HmM, shr_1_exact by lia.
    cbn [shr_m loc_of_shr_record round_nearest_even Zdigits2 shr_record_of_loc].
    rewrite HM.
    replace (Z.max (53 + (e + Z.pos p) - 53) (3 - 1024 - 53) - (e + Z.pos p))
      with 0 by lia.
    cbn [shr shr_m].
    replace (e + Z.pos p <=? 1024 - 53) with true by lia.
    f_equal. lia.
Qed.

(** The double that holds an integer [N] from 1 to 2^53. *)
Lemma canonical_integer N :
  1 ≤ N ≤ 2 ^ 53 →
  ∃ M E, Z.pos (digits2_pos M) = 53 ∧ -52 ≤ E ≤ 1
         ∧ Z.pos M * 2 ^ (E + 52) = N * 2 ^ 52.
Proof.
  intros HN. destruct N as [|p|p]; try lia.
  pose proof (digits2_pos_bounds p) as Hp.
  set (d := Z.pos (digits2_pos p)) in *.
  assert (1 ≤ d) by lia.
  destruct (decide (d ≤ 53)) as [Hd|Hd].
  - assert (0 < Z.pos p * 2 ^ (53 - d)) as Hpos.
    { assert (0 < 2 ^ (53 - d)) by (apply Z.pow_pos_nonneg; lia). lia. }
    destruct (Z.pos p * 2 ^ (53 - d)) as [|M|M] eqn:HM; try lia.
    exists M, (d - 53). split; [|split; [lia|]].
    + apply digits2_pos_unique. rewrite <- HM.
      assert (2 ^ (53 - 1) = 2 ^ (d - 1) * 2 ^ (53 - d)) as ->.
      { rewrite <- Z.pow_add_r by lia. f_equal. lia. }
      assert (2 ^ 53 = 2 ^ d * 2 ^ (53 - d)) as ->.
      { rewrite <- Z.pow_add_r by lia. f_equal. lia. }
      assert (0 < 2 ^ (53 - d)) by (apply Z.pow_pos_nonneg; lia). nia.
    + rewrite <- HM, <- Z.mul_assoc, <- Z.pow_add_r by lia.
      do 2 f_equal. lia.
  - assert (2 ^ 53 ≤ 2 ^ (d - 1)) by (apply Z.pow_le_mono_r; lia).
    change (2 ^ 53) with 9007199254740992 in *.
    assert (Z.pos p = 9007199254740992) as Hp' by lia. injection Hp' as ->.
    exists 4503599627370496%positive, 1. done.
Qed.

Lemma Number_of_Z_canonical N M E :
  Z.pos (digits2_pos M) = 53 → -52 ≤ E ≤ 1 →
  Z.pos M * 2 ^ (E + 52) = N * 2 ^ 52 → 0 < N →
  Number_of_Z N = S754_finite false M E
  ∧ Number_of_Z (- N) = S754_finite true M E.
Proof.
  intros HM HE Heq HN. destruct N as [|p|p]; try lia.
  unfold Number_of_Z. cbn [binary_normalize Z.opp].
  split; apply (binary_round_canonical _ _ _ _ _ (-52)); try done; try lia.
Qed.

(** Adding 1 to an integer from -2^53 to 2^53 - 1 is exact. *)
Lemma Number_add_1 n :
  - 2 ^ 53 ≤ n < 2 ^ 53 →
  Number_add (Number_of_Z n) (Number_of_Z 1) = Number_of_Z (n + 1).
Proof.
  intros Hn.
  destruct (decide (n = 0)) as [->|Hn0]; [done|].
  destruct (decide (n = -1)) as [->|Hn1]; [done|].
  destruct (canonical_integer (Z.abs n)) as (M & E & HM & HE & Heq); [lia|].
  destruct (canonical_integer (Z.abs (n + 1))) as (M' & E' & HM' & HE' & Heq');
    [lia|].
  destruct (Number_of_Z_canonical _ _ _ HM HE Heq) as [Hpos Hneg]; [lia|].
  destruct (Number_of_Z_canonical _ _ _ HM' HE' Heq') as [Hpos' Hneg']; [lia|].
  assert (∃ sn, Number_of_Z n = S754_finite sn M E
                ∧ cond_Zopp sn (Z.abs n) = n) as (sn & -> & Hsn).
  { destruct (decide (0 < n)).
    - exists false. rewrite <- Hpos. split; [f_equal|cbn]; lia.
    - exists true. rewrite <- Hneg. split; [f_equal|cbn]; lia. }
  change (Number_of_Z 1) with (S754_finite false 4503599627370496 (-52)).
  unfold Number_add, SFadd.
  replace (Z.min E (-52)) with (-52) by lia.
  assert (Z.pos (shl_align M E (-52)).1 = Z.abs n * 2 ^ 52) as ->.
  { rewrite <- Heq. unfold shl_align.
    destruct (-52 - E) as [|p|p] eqn:Hd; try lia; cbn [fst].
    - replace (E + 52) with 0 by lia. lia.
    - rewrite Pos_iter_xO. do 2 f_equal. lia. }
  change (shl_align 4503599627370496 (-52) (-52)).1
    with 4503599627370496%positive.
  assert (cond_Zopp sn (Z.abs n * 2 ^ 52) + cond_Zopp false 4503599627370496
          = (n + 1) * 2 ^ 52) as ->.
  { rewrite <- Hsn at 2. change (2 ^ 52) with 4503599627370496.
    destruct sn; cbn [cond_Zopp]; lia. }
  change (2 ^ 52) with 4503599627370496 in *.
  destruct (decide (0 < n + 1)).
  - replace (n + 1) with (Z.abs (n + 1)) by lia. rewrite Hpos'.
    destruct (Z.abs (n + 1) * 4503599627370496) as [|P|P] eqn:HP; try lia.
    cbn [binary_normalize].
    apply (binary_round_canonical _ _ _ _ _ (-52)); try done; try lia.
    change (2 ^ (-52 - -52)) with 1.
    replace (E' - -52) with (E' + 52) by lia. lia.
  - replace (n + 1) with (- Z.abs (n + 1)) at 2 by lia. rewrite Hneg'.
    replace ((n + 1) * 4503599627370496)
      with (- (Z.abs (n + 1) * 4503599627370496)) by lia.
    destruct (Z.abs (n + 1) * 4503599627370496) as [|P|P] eqn:HP; try lia.
    cbn [binary_normalize Z.opp].
    apply (binary_round_canonical _ _ _ _ _ (-52)); try done; try lia.
    change (2 ^ (-52 - -52)) with 1.
    replace (E' - -52) with (E' + 52) by lia. lia.
Qed.

(** 2^52 times the value of a number that is an integer. *)
Lemma Number_of_Z_scaled n :
  - 2 ^ 53 ≤ n ≤ 2 ^ 53 →
  match Number_of_Z n with
  | S754_zero _ => 0
  | S754_finite sn M E => cond_Zopp sn (Z.pos M * 2 ^ (E + 52))
  | _ => 0
  end = n * 2 ^ 52.
Proof.
  intros Hn. destruct (decide (n = 0)) as [->|Hn0]; [done|].
  destruct (canonical_integer (Z.abs n)) as (M & E & HM & HE & Heq); [lia|].
  destruct (Number_of_Z_canonical _ _ _ HM HE Heq) as [Hpos Hneg]; [lia|].
  destruct (decide (0 < n)).
  - replace n with (Z.abs n) at 1 by lia. rewrite Hpos. cbn. lia.
  - replace n with (- Z.abs n) at 1 by lia. rewrite Hneg. cbn. lia.
Qed.

Lemma Number_of_Z_inj a b :
  - 2 ^ 53 ≤ a ≤ 2 ^ 53 → - 2 ^ 53 ≤ b ≤ 2 ^ 53 →
  Number_of_Z a = Number_of_Z b → a = b.
Proof.
  intros Ha Hb Heq.
  pose proof (Number_of_Z_scaled a Ha) as Ha'.
  pose proof (Number_of_Z_scaled b Hb) as Hb'.
  rewrite Heq in Ha'. change (2 ^ 52) with 4503599627370496 in *. lia.
Qed.

(** [score += 1] on an integer score from -2^53 to 2^53 - 1 adds
    exactly 1. *)
Lemma credit_integer n :
  - 2 ^ 53 ≤ n < 2 ^ 53 →
  credit (Number_of_Z n) = Number_of_Z (n + 1)
  ∧ credit (Number_of_Z n) ≠ Number_of_Z n.
Proof.
  intros Hn. unfold credit. rewrite Number_add_1 by done.
  split; [done|]. intros Heq%Number_of_Z_inj; lia.
Qed.

(** At 2^53 the next integer is no double, and [score += 1] changes
    nothing; at 2^53 + 2 it adds 2. *)
Example credit_2_53 :
  credit (Number_of_Z (2 ^ 53)) = Number_of_Z (2 ^ 53)
  ∧ credit (Number_of_Z (2 ^ 53 + 2)) = Number_of_Z (2 ^ 53 + 4).
Proof. vm_compute. done. Qed.

Example credit_examples :
  credit (Number_of_Z 0) = Number_of_Z 1
  ∧ credit (Number_of_Z (-3)) = Number_of_Z (-2)
  ∧ credit (S754_finite false 4503599627370496 (-53))
    = S754_finite false 6755399441055744 (-52)
  ∧ credit (S754_infinity false) = S754_infinity false.
Proof. vm_compute. done. Qed.

End NumberFacts.

Example key_month_2024_01_02 : bucketKey Etc_UTC month 1704153600000 = "2024-01"%string.
Proof. vm_compute. reflexivity. Qed.
Example key_week_2024_01_02 : bucketKey Etc_UTC week 1704153600000 = "2024-W01"%string.
Proof. vm_compute. reflexivity. Qed.
Example key_week_2024_01_09 : bucketKey Etc_UTC week 1704758400000 = "2024-W02"%string.
Proof. vm_compute. reflexivity. Qed.
Example key_week_2023_12_31 : bucketKey Etc_UTC week 1704067199999 = "2023-W53"%string.
Proof. vm_compute. reflexivity. Qed.
Example key_month_leap_day : bucketKey Etc_UTC month 1709164800000 = "2024-02"%string.
Proof. vm_compute. reflexivity. Qed.
Example key_month_after_leap_day : bucketKey Etc_UTC month 1709251200000 = "2024-03"%string.
Proof. vm_compute. reflexivity. Qed.
Example key_month_2023_02_28 : bucketKey Etc_UTC month 1677628799999 = "2023-02"%string.
Proof. vm_compute. reflexivity. Qed.
Example key_month_2023_03_01 : bucketKey Etc_UTC month 1677628800000 = "2023-03"%string.
Proof. vm_compute. reflexivity. Qed.
Example key_month_1999_12_31 : bucketKey Etc_UTC month 946684799999 = "1999-12"%string.
Proof. vm_compute. reflexivity. Qed.
Example key_month_2000_01_01 : bucketKey Etc_UTC month 946684800000 = "2000-01"%string.
Proof. vm_compute. reflexivity. Qed.
Example key_month_zone :
  bucketKey (λ _ _, -18000000) month 946684800000 = "1999-12"%string.
Proof. vm_compute. reflexivity. Qed.
(** Under daylight saving, half an hour after the local midnight of
    1 July and of Saturday 6 July 2024 in New York. *)
Example key_month_daylight_saving :
  bucketKey America_New_York month 1719808200000 = "2024-07"%string.
Proof. vm_compute. reflexivity. Qed.
Example key_week_daylight_saving :
  bucketKey America_New_York week 1720240200000 = "2024-W27"%string.
Proof. vm_compute. reflexivity. Qed.
Example key_week_saturday_midnight :
  bucketKey Etc_UTC week 1640995200000 = "2022-W01"%string
  ∧ bucketKey Etc_UTC week 1640995200001 = "2022-W02"%string.
Proof. vm_compute. done. Qed.

(** The [GET] handlers return the store they were given. *)
Lemma get_handlers_read_only (LocalTZA : Z → bool → Z) now query_completed query_period
    familyId s :
  (list_members familyId s).1 = s
  ∧ (list_tasks query_completed familyId s).1 = s
  ∧ (stats_members familyId s).1 = s
  ∧ (history LocalTZA query_period familyId s).1 = s
  ∧ (overdue now familyId s).1 = s.
Proof.
  unfold list_members, list_tasks, stats_members, history, overdue,
    with_family.
  destruct (authenticate s familyId); [|done].
  repeat split. by destruct (forEach _ _ _).
Qed.

(** A query without [period] is a query by week. *)
Lemma history_default_week (LocalTZA : Z → bool → Z) :
  history LocalTZA None = history LocalTZA (Some week).
Proof. reflexivity. Qed.


(** ** The persistence layer *)

Section Collections.
Context {A : Type} (id : A → ObjectId).
Implicit Types (coll : list A) (doc d : A).

Lemma findOne_Some (q : A → Prop) `{∀ x, Decision (q x)} coll d :
  findOne q coll = Some d ↔
  ∃ i, coll !! i = Some d ∧ q d ∧ ∀ j y, coll !! j = Some y → (j < i)%nat → ¬ q y.
Proof.
  unfold findOne. split.
  - destruct (list_find q coll) as [[i x]|] eqn:Hf; [|done].
    intros [= <-]. exists i. by apply list_find_Some in Hf.
  - intros (i & Hi). by rewrite (proj2 (list_find_Some q coll i d) Hi).
Qed.

Lemma findOne_None (q : A → Prop) `{∀ x, Decision (q x)} coll :
  findOne q coll = None ↔ Forall (λ d, ¬ q d) coll.
Proof.
  unfold findOne. rewrite fmap_None. apply list_find_None.
Qed.

Lemma same_id_same_index coll i j d d' :
  NoDup (id <$> coll) →
  coll !! i = Some d → coll !! j = Some d' → id d = id d' → i = j.
Proof.
  intros Hnd Hi Hj Hid.
  apply (NoDup_lookup (id <$> coll) i j (id d)); [done|..];
    rewrite list_lookup_fmap; [by rewrite Hi | by rewrite Hj, Hid].
Qed.

(** With unique ids, a query that pins the id finds the document that
    has it. *)
Lemma findOne_by_id (q : A → Prop) `{∀ x, Decision (q x)} coll i d :
  NoDup (id <$> coll) →
  (∀ y, q y → id y = id d) →
  coll !! i = Some d → q d → findOne q coll = Some d.
Proof.
  intros Hnd Hq Hi Hd. apply findOne_Some. exists i. repeat split; [done..|].
  intros j y Hj Hlt Hy.
  assert (j = i) by (eapply same_id_same_index; eauto). lia.
Qed.

Lemma findOne_lookup (q : A → Prop) `{∀ x, Decision (q x)} coll d :
  findOne q coll = Some d → q d ∧ ∃ i, coll !! i = Some d.
Proof. intros (i & ? & ? & _)%findOne_Some. eauto. Qed.

(** Writing back a stored document replaces it where it is. *)
Lemma upsert_stored coll i d doc :
  NoDup (id <$> coll) → coll !! i = Some d → id d = id doc →
  upsert id doc coll = <[i := doc]> coll.
Proof.
  intros Hnd Hi Hid. unfold upsert.
  destruct (list_find _ coll) as [[j y]|] eqn:Hf.
  - apply list_find_Some in Hf as (Hj & Hy & _).
    assert (j = i) as -> by (eapply same_id_same_index; eauto; congruence).
    done.
  - apply list_find_None in Hf. rewrite Forall_lookup in Hf.
    by destruct (Hf i d Hi).
Qed.

Lemma upsert_new coll doc :
  Forall (λ d, id d ≠ id doc) coll → upsert id doc coll = coll ++ [doc].
Proof.
  intros Hnew. unfold upsert.
  destruct (list_find _ coll) as [[j y]|] eqn:Hf; [|done].
  apply list_find_Some in Hf as (Hj & Hy & _).
  rewrite Forall_lookup in Hnew. by destruct (Hnew j y Hj).
Qed.

Lemma ids_insert coll i d doc :
  coll !! i = Some d → id d = id doc →
  id <$> <[i := doc]> coll = id <$> coll.
Proof.
  intros Hi Hid. rewrite list_fmap_insert, <- Hid.
  apply list_insert_id. by rewrite list_lookup_fmap, Hi.
Qed.

Lemma ids_upsert_NoDup coll doc :
  NoDup (id <$> coll) → NoDup (id <$> upsert id doc coll).
Proof.
  intros Hnd. unfold upsert.
  destruct (list_find _ coll) as [[j y]|] eqn:Hf.
  - apply list_find_Some in Hf as (Hj & Hy & _).
    by rewrite (ids_insert _ _ y).
  - apply list_find_None in Hf.
    rewrite fmap_app. apply NoDup_app. repeat split; [done| |].
    + intros x Hx ->%list_elem_of_singleton.
      apply list_elem_of_fmap in Hx as (d & Hd & Hin).
      rewrite Forall_forall in Hf. by apply (Hf d).
    + apply NoDup_singleton.
Qed.

Lemma Forall_upsert (P : A → Prop) coll doc :
  Forall P coll → P doc → Forall P (upsert id doc coll).
Proof.
  intros Hall Hdoc. unfold upsert.
  destruct (list_find _ coll) as [[j y]|].
  - by apply Forall_insert.
  - apply Forall_app. split; [done|]. by apply Forall_singleton.
Qed.
End Collections.

(** ** Stored documents *)

Lemma valid_task_fields t t' :
  title t' = title t → comments t' = comments t → valid_task t' = valid_task t.
Proof. unfold valid_task. by intros -> ->. Qed.

Lemma valid_member_score v m : valid_member (set_score v m) = valid_member m.
Proof. done. Qed.

Lemma valid_family_member_score fam j m v :
  members fam !! j = Some m →
  valid_family fam →
  valid_family (set_members (<[j := set_score v m]> (members fam)) fam).
Proof.
  unfold valid_family. cbn. intros Hj.
  rewrite !andb_True. intros (? & Hall). split; [done|].
  rewrite forallb_True in Hall |- *.
  apply Forall_insert; [done|].
  rewrite valid_member_score. by eapply Forall_lookup_1 in Hall.
Qed.

Section Stored.
Context (s : Store) (Hok : store_ok s).

Lemma stored_task_valid i t : tasks s !! i = Some t → valid_task t.
Proof. intros Hi. eapply Forall_lookup_1 in Hi; [|apply Hok]. done. Qed.

Lemma stored_family_valid k fam : families s !! k = Some fam → valid_family fam.
Proof. intros Hk. eapply Forall_lookup_1 in Hk; [|apply Hok]. done. Qed.

Lemma authenticate_stored k fam :
  families s !! k = Some fam → authenticate s (f_id fam) = Some fam.
Proof.
  intros Hk. unfold authenticate.
  apply (findOne_by_id f_id _ _ k); [apply Hok|done..].
Qed.

Lemma findOne_task_stored i t :
  tasks s !! i = Some t →
  findOne (λ t', t_id t' = t_id t ∧ family t' = family t) (tasks s) = Some t.
Proof.
  intros Hi. apply (findOne_by_id t_id _ _ i); [apply Hok|tauto|done..].
Qed.

Lemma save_task_stored now i t0 t :
  tasks s !! i = Some t0 → t_id t = t_id t0 → valid_task t → t ≠ t0 →
  save_task now (Some t0) t s
  = Some (set_tasks (<[i := set_updatedAt now t]> (tasks s)) s).
Proof.
  intros Hi Hid Hv Hne. unfold save_task.
  destruct (valid_task t); [|done].
  rewrite decide_False by congruence.
  by rewrite (upsert_stored t_id _ i t0); [|apply Hok|..].
Qed.

Lemma save_task_unmodified now t :
  valid_task t → save_task now (Some t) t s = Some s.
Proof.
  intros Hv. unfold save_task. destruct (valid_task t); [|done].
  by rewrite decide_True.
Qed.

Lemma save_family_unmodified now f :
  valid_family f → save_family now (Some f) f s = Some s.
Proof.
  intros Hv. unfold save_family. destruct (valid_family f); [|done].
  by rewrite decide_True.
Qed.

Lemma save_family_stored now k f0 f :
  families s !! k = Some f0 → f_id f = f_id f0 → valid_family f → f ≠ f0 →
  save_family now (Some f0) f s
  = Some (set_families (<[k := set_f_updatedAt now f]> (families s)) s).
Proof.
  intros Hk Hid Hv Hne. unfold save_family.
  destruct (valid_family f); [|done].
  rewrite decide_False by congruence.
  by rewrite (upsert_stored f_id _ k f0); [|apply Hok|..].
Qed.

(** Replacing a stored document by a valid one with the same id. *)
Lemma store_ok_insert_task i t0 t :
  tasks s !! i = Some t0 → t_id t = t_id t0 → valid_task t →
  store_ok (set_tasks (<[i := t]> (tasks s)) s).
Proof.
  intros Hi Hid Hv. destruct Hok as [Htv Hfv Htn Hfn Htf Hff]. split; cbn; try done.
  - by apply Forall_insert.
  - by rewrite (ids_insert t_id _ _ t0).
  - apply Forall_insert; [done|]. rewrite Hid.
    by apply (Forall_lookup_1 _ _ _ _ Htf Hi).
Qed.

Lemma store_ok_insert_family k f0 f :
  families s !! k = Some f0 → f_id f = f_id f0 → valid_family f →
  store_ok (set_families (<[k := f]> (families s)) s).
Proof.
  intros Hk Hid Hv. destruct Hok as [Htv Hfv Htn Hfn Htf Hff]. split; cbn; try done.
  - by apply Forall_insert.
  - by rewrite (ids_insert f_id _ _ f0).
  - apply Forall_insert; [done|]. rewrite Hid.
    by apply (Forall_lookup_1 _ _ _ _ Hff Hk).
Qed.
End Stored.

Lemma authenticate_Some s familyId fam :
  authenticate s familyId = Some fam →
  f_id fam = familyId ∧ ∃ k, families s !! k = Some fam.
Proof.
  unfold authenticate. intros H.
  by apply (findOne_lookup (λ f, f_id f = familyId)) in H.
Qed.

(** ** Completion *)

Lemma set_score_same m : set_score (score m) m = m.
Proof. by destruct m. Qed.

Lemma set_members_same fam : set_members (members fam) fam = fam.
Proof. by destruct fam. Qed.

(** What the first completion of a stored task does. *)
Lemma complete_task_first now date s i t k fam :
  store_ok s →
  tasks s !! i = Some t → families s !! k = Some fam →
  family t = f_id fam → completed t = false →
  complete_task now (t_id t) date (f_id fam) s
  = match credited fam t with
    | Some (j, m) =>
        (mkStore
           (if decide (credit (score m) = score m) then families s
            else
              <[k := set_f_updatedAt now
                       (set_members
                          (<[j := set_score (credit (score m)) m]> (members fam))
                          fam)]> (families s))
           (<[i := completed_at now date t]> (tasks s))
           (next_oid s),
         Sent 200 (mkCompleteView (t_id t) true (Some (default now date))
                     (Some (credit (score m)))))
    | None =>
        (mkStore (families s) (<[i := completed_at now date t]> (tasks s))
           (next_oid s),
         Sent 200 (mkCompleteView (t_id t) true (Some (default now date)) None))
    end.
Proof.
  intros Hok Hi Hk Hfam Hc.
  unfold complete_task, with_family.
  rewrite (authenticate_stored s Hok k fam Hk).
  rewrite <- Hfam, (findOne_task_stored s Hok i t Hi), Hc.
  erewrite (save_task_stored s Hok now i t); [|done|done| |].
  2: { erewrite valid_task_fields; [by eapply stored_task_valid|done..]. }
  2: { intros Heq. apply (f_equal completed) in Heq. cbn in Heq. congruence. }
  change (if truthy _ then _ else None) with (credited fam t).
  destruct (credited fam t) as [[j m]|] eqn:Hcr; [|by destruct date].
  assert (members fam !! j = Some m) as Hj.
  { unfold credited in Hcr. destruct (truthy _); [|done].
    by apply list_find_Some in Hcr as (? & _). }
  set (s1 := set_tasks _ s).
  assert (store_ok s1) as Hok1.
  { apply (store_ok_insert_task s Hok i t); [done..|].
    erewrite valid_task_fields; [by eapply stored_task_valid|done..]. }
  change (Number_add (score m) (Number_of_Z 1)) with (credit (score m)).
  destruct (decide (credit (score m) = score m)) as [Heq|Hne].
  - rewrite Heq, set_score_same, list_insert_id, set_members_same by done.
    rewrite (save_family_unmodified s1 now fam)
      by (by eapply stored_family_valid).
    by destruct date.
  - rewrite (save_family_stored s1 Hok1 now k fam); [by destruct date|done..| |].
    + apply valid_family_member_score; [done|]. by eapply stored_family_valid.
    + intros Heq. apply (f_equal members) in Heq. cbn in Heq.
      apply (f_equal (λ l, score <$> l !! j)) in Heq.
      rewrite list_lookup_insert_eq, Hj in Heq by (by eapply lookup_lt_Some).
      cbn in Heq. by injection Heq.
Qed.

Lemma valid_family_names fam m :
  valid_family fam → m ∈ members fam → m_name m ≠ EmptyString.
Proof.
  unfold valid_family. rewrite !andb_True, forallb_True.
  intros (_ & Hall) Hin. rewrite Forall_forall in Hall.
  specialize (Hall m Hin). unfold valid_member, nonempty in Hall.
  by apply bool_decide_unpack in Hall.
Qed.

Lemma truthy_Some v : v ≠ EmptyString → truthy (Some v) = true.
Proof. intros Hv. unfold truthy, nonempty. by rewrite bool_decide_true. Qed.

(** The credited member is the first one, in registry order, whose name is
    the assignee. *)
Lemma credited_Some fam t j m :
  credited fam t = Some (j, m) ↔
  truthy (assignedTo t) = true
  ∧ members fam !! j = Some m
  ∧ assignedTo t = Some (m_name m)
  ∧ ∀ j' m', members fam !! j' = Some m' → (j' < j)%nat →
             assignedTo t ≠ Some (m_name m').
Proof.
  unfold credited. destruct (truthy (assignedTo t)).
  - rewrite list_find_Some. split.
    + intros (Hj & Hn & Hfirst). repeat split; [done..|].
      intros j' m' Hj' Hlt Heq. by apply (Hfirst j' m' Hj' Hlt).
    + intros (_ & Hj & Hn & Hfirst). repeat split; [done..|].
      intros j' m' Hj' Hlt Heq. by apply (Hfirst j' m' Hj' Hlt).
  - split; [done|]. by intros [? _].
Qed.

Lemma credited_None fam t :
  credited fam t = None ↔
  truthy (assignedTo t) = false
  ∨ Forall (λ m, assignedTo t ≠ Some (m_name m)) (members fam).
Proof.
  unfold credited. destruct (truthy (assignedTo t)).
  - rewrite list_find_None. split; [intros H; right|intros [|H]; [done|]];
      (eapply Forall_impl; [exact H|]); cbn; congruence.
  - split; [by left|done].
Qed.

(** The first member of a name is the credited one. *)
Lemma credited_first fam t before m after :
  valid_family fam →
  members fam = before ++ m :: after →
  Forall (λ m', m_name m' ≠ m_name m) before →
  assignedTo t = Some (m_name m) →
  credited fam t = Some (length before, m).
Proof.
  intros Hv Hm Hbefore Ha.
  apply credited_Some. rewrite Hm. repeat split.
  - rewrite Ha. apply truthy_Some.
    eapply valid_family_names; [done|].
    rewrite Hm. apply elem_of_app. right. apply list_elem_of_here.
  - by rewrite list_lookup_middle.
  - done.
  - intros j' m' Hj' Hlt. rewrite lookup_app_l in Hj' by done.
    eapply Forall_lookup_1 in Hbefore; [|done]. congruence.
Qed.

(** C1, amended.  In a store that satisfies the schemas, the first
    completion of a task of the caller's family stores the task with
    [completed = true] and with [completedAt] the supplied date, or the
    current instant when none is supplied, and replies 200 with them.
    When the assignee names a member, the first member of that name in
    the registry gets the score [score + 1] of JavaScript's numbers, the
    sum rounded to a double, no other member is touched, and the reply
    carries the new score as [memberScore]; the family is written unless
    the sum is the old score.  For a score that is an integer from -2^53
    to 2^53 - 1 the new score is the old one plus exactly 1. *)
Theorem complete_task_credits now date s i t k fam :
  store_ok s →
  tasks s !! i = Some t → families s !! k = Some fam →
  family t = f_id fam → completed t = false →
  let result := complete_task now (t_id t) date (f_id fam) s in
  let instant := match date with Some d => d | None => now end in
  tasks result.1
  = <[i := mkTask (t_id t) (family t) (title t) (description t) (priority t)
             (assignedTo t) (dueDate t) true (Some instant) (comments t)
             (createdAt t) now]> (tasks s)
  ∧ (∃ v, result.2 = Sent 200 v ∧ cv_id v = t_id t
          ∧ cv_completed v = true ∧ cv_completedAt v = Some instant)
  ∧ ∀ m0, m0 ∈ members fam → assignedTo t = Some (m_name m0) →
      ∃ j m,
        members fam !! j = Some m ∧ m_name m = m_name m0
        ∧ (∀ j' m', members fam !! j' = Some m' → (j' < j)%nat →
                    m_name m' ≠ m_name m0)
        ∧ result.2
          = Sent 200
              (mkCompleteView (t_id t) true (Some instant)
                 (Some (credit (score m))))
        ∧ families result.1
          = (if decide (credit (score m) = score m) then families s
             else
               <[k := mkFamily (f_id fam) (f_name fam) (code fam)
                        (passwordHash fam)
                        (<[j := mkMember (m_id m) (m_name m)
                                  (credit (score m))]> (members fam))
                        (f_createdAt fam) now]> (families s))
        ∧ ∀ n, - 2 ^ 53 ≤ n < 2 ^ 53 → score m = Number_of_Z n →
            credit (score m) = Number_of_Z (n + 1)
            ∧ credit (score m) ≠ score m.
Proof.
  intros Hok Hi Hk Hfam Hc. cbv zeta.
  rewrite (complete_task_first now date s i t k fam) by done.
  split; [|split].
  - destruct (credited fam t) as [[j m]|]; by destruct date.
  - destruct (credited fam t) as [[j m]|]; eexists;
      (split; [reflexivity|]); by destruct date.
  - intros m0 Hin Ha.
    assert (truthy (assignedTo t) = true) as Htr.
    { rewrite Ha. apply truthy_Some.
      eapply valid_family_names; [by eapply stored_family_valid|done]. }
    destruct (credited fam t) as [[j m]|] eqn:Hcr.
    + exists j, m. pose proof Hcr as (_ & Hj & Hn & Hfirst)%credited_Some.
      split; [done|]. split; [congruence|]. split.
      { intros j' m' Hj' Hlt Heq. apply (Hfirst j' m' Hj' Hlt). congruence. }
      split; [by destruct date|]. split; [done|].
      intros n Hn' ->. by apply credit_integer.
    + apply credited_None in Hcr as [?|Hall]; [congruence|].
      rewrite Forall_forall in Hall. by destruct (Hall m0 Hin).
Qed.

(** C8.  The first completion of a task whose assignee is absent, empty,
    or the name of no member stores the task completed and dated, leaves
    the family collection as it is (no family is written, no score
    changes) and leaves [memberScore] out of the reply. *)
Theorem complete_task_uncredited now date s i t k fam :
  store_ok s →
  tasks s !! i = Some t → families s !! k = Some fam →
  family t = f_id fam → completed t = false →
  assignedTo t = None ∨ assignedTo t = Some EmptyString
  ∨ Forall (λ m, assignedTo t ≠ Some (m_name m)) (members fam) →
  complete_task now (t_id t) date (f_id fam) s
  = (mkStore (families s)
       (<[i := set_updatedAt now
                 (set_completedAt
                    (Some match date with Some d => d | None => now end)
                    (set_completed true t))]> (tasks s))
       (next_oid s),
     Sent 200
       (mkCompleteView (t_id t) true
          (Some match date with Some d => d | None => now end) None)).
Proof.
  intros Hok Hi Hk Hfam Hc Ha.
  rewrite (complete_task_first now date s i t k fam) by done.
  assert (credited fam t = None) as ->; [|by destruct date].
  apply credited_None.
  destruct Ha as [->|[->|Hall]]; [by left..|by right].
Qed.

(** C10, amended.  When several members carry the assignee's name, the
    first completion gives the first of them in registry order the score
    [score + 1] of JavaScript's numbers and replies with that score; the
    members after it, namesakes included, and the members before it are
    left as they are.  The family is written unless the sum is the old
    score; for a score that is an integer from -2^53 to 2^53 - 1 the new
    score is the old one plus exactly 1. *)
Theorem complete_task_first_namesake now date s i t k fam before m after :
  store_ok s →
  tasks s !! i = Some t → families s !! k = Some fam →
  family t = f_id fam → completed t = false →
  members fam = before ++ m :: after →
  Forall (λ m', m_name m' ≠ m_name m) before →
  assignedTo t = Some (m_name m) →
  complete_task now (t_id t) date (f_id fam) s
  = (mkStore
       (if decide (credit (score m) = score m) then families s
        else
          <[k := mkFamily (f_id fam) (f_name fam) (code fam) (passwordHash fam)
                   (before
                    ++ mkMember (m_id m) (m_name m) (credit (score m))
                       :: after)
                   (f_createdAt fam) now]> (families s))
       (<[i := mkTask (t_id t) (family t) (title t) (description t)
                 (priority t) (assignedTo t) (dueDate t) true
                 (Some match date with Some d => d | None => now end)
                 (comments t) (createdAt t) now]> (tasks s))
       (next_oid s),
     Sent 200
       (mkCompleteView (t_id t) true
          (Some match date with Some d => d | None => now end)
          (Some (credit (score m)))))
  ∧ ∀ n, - 2 ^ 53 ≤ n < 2 ^ 53 → score m = Number_of_Z n →
      credit (score m) = Number_of_Z (n + 1) ∧ credit (score m) ≠ score m.
Proof.
  intros Hok Hi Hk Hfam Hc Hm Hbefore Ha.
  split; [|intros n Hn ->; by apply credit_integer].
  rewrite (complete_task_first now date s i t k fam) by done.
  rewrite (credited_first fam t before m after)
    by (done || by eapply stored_family_valid).
  assert (<[length before := set_score (credit (score m)) m]> (members fam)
          = before ++ set_score (credit (score m)) m :: after) as ->.
  { rewrite Hm.
    replace (length before) with (length before + 0)%nat at 1 by lia.
    by rewrite insert_app_r. }
  by destruct date.
Qed.

(** Completing a completed task: nothing is written and the reply repeats
    the stored [completedAt]. *)
Lemma complete_task_again now id date familyId s fam t :
  authenticate s familyId = Some fam →
  findOne (λ t', t_id t' = id ∧ family t' = f_id fam) (tasks s) = Some t →
  completed t = true →
  complete_task now id date familyId s
  = (s, Sent 200 (mkCompleteView (t_id t) true (completedAt t) None)).
Proof.
  intros Ha Hf Hc. unfold complete_task, with_family.
  by rewrite Ha, Hf, Hc.
Qed.

(** A reply 200 of [complete_task] comes from a stored task of the family. *)
Lemma complete_task_Sent now id date familyId s s1 status v :
  complete_task now id date familyId s = (s1, Sent status v) →
  ∃ fam t,
    authenticate s familyId = Some fam
    ∧ findOne (λ t', t_id t' = id ∧ family t' = f_id fam) (tasks s) = Some t.
Proof.
  unfold complete_task, with_family.
  destruct (authenticate s familyId) as [fam|]; [|done].
  destruct (findOne _ (tasks s)) as [t|] eqn:Hf; [|done].
  intros _. by exists fam, t.
Qed.

(** After the first completion of a stored task: the store satisfies the
    schemas, the task is stored completed where it was, and the family is
    where it was, with the credited member's new score. *)
Lemma complete_task_first_after now date s i t k fam :
  store_ok s →
  tasks s !! i = Some t → families s !! k = Some fam →
  family t = f_id fam → completed t = false →
  let s1 := (complete_task now (t_id t) date (f_id fam) s).1 in
  store_ok s1
  ∧ tasks s1 !! i = Some (completed_at now date t)
  ∧ ∃ fam1,
      families s1 !! k = Some fam1 ∧ f_id fam1 = f_id fam
      ∧ members fam1
        = match credited fam t with
          | Some (j, m) =>
              <[j := set_score (credit (score m)) m]> (members fam)
          | None => members fam
          end.
Proof.
  intros Hok Hi Hk Hfam Hc. cbv zeta.
  rewrite (complete_task_first now date s i t k fam) by done.
  set (t1 := completed_at now date t).
  assert (store_ok (set_tasks (<[i := t1]> (tasks s)) s)) as Hok1.
  { apply (store_ok_insert_task s Hok i t); [done..|].
    erewrite valid_task_fields; [by eapply stored_task_valid|done..]. }
  assert ((<[i := t1]> (tasks s)) !! i = Some t1) as Hins
    by (apply list_lookup_insert_eq; by eapply lookup_lt_Some).
  destruct (credited fam t) as [[j m]|] eqn:Hcr; cbn [fst].
  - apply credited_Some in Hcr as (_ & Hj & _).
    destruct (decide (credit (score m) = score m)) as [Heq|Hne].
    + split; [done|]. split; [done|]. exists fam.
      split; [done|]. split; [done|].
      by rewrite Heq, set_score_same, list_insert_id.
    + split; [|split; [done|]].
      * apply (store_ok_insert_family _ Hok1 k fam); [done..|].
        apply (valid_family_member_score fam j m); [done|].
        by eapply stored_family_valid.
      * eexists. split.
        { apply list_lookup_insert_eq. by eapply lookup_lt_Some. }
        done.
  - split; [done|]. split; [done|]. by exists fam.
Qed.

(** C2, amended.  Completing a task that is already completed replies
    [completed = true] with the stored [completedAt] and no [memberScore],
    and leaves the store as it is.  Hence a second completion, whatever
    its instant and date, repeats [completedAt] of the first and leaves
    the store of the first.  After the two calls the first member of the
    assignee's name has the score [score + 1] of JavaScript's numbers,
    added once, and the other members are as before; for a score that is
    an integer from -2^53 to 2^53 - 1 that is the old score plus exactly
    1. *)
Theorem complete_task_idempotent now id date familyId s :
  (∀ fam t,
     authenticate s familyId = Some fam →
     findOne (λ t', t_id t' = id ∧ family t' = f_id fam) (tasks s) = Some t →
     completed t = true →
     complete_task now id date familyId s
     = (s, Sent 200 (mkCompleteView (t_id t) true (completedAt t) None)))
  ∧ (store_ok s →
     ∀ s1 v,
       complete_task now id date familyId s = (s1, Sent 200 v) →
       cv_completed v = true
       ∧ ∀ now' date',
           complete_task now' id date' familyId s1
           = (s1, Sent 200 (mkCompleteView (cv_id v) true (cv_completedAt v)
                              None)))
  ∧ (store_ok s →
     ∀ i t k fam before m after now' date',
       tasks s !! i = Some t → families s !! k = Some fam →
       t_id t = id → f_id fam = familyId →
       family t = f_id fam → completed t = false →
       members fam = before ++ m :: after →
       Forall (λ m', m_name m' ≠ m_name m) before →
       assignedTo t = Some (m_name m) →
       let s1 := (complete_task now id date familyId s).1 in
       let s2 := (complete_task now' id date' familyId s1).1 in
       ∃ fam2,
         families s2 !! k = Some fam2
         ∧ members fam2
           = before ++ mkMember (m_id m) (m_name m) (credit (score m)) :: after
         ∧ ∀ n, - 2 ^ 53 ≤ n < 2 ^ 53 → score m = Number_of_Z n →
             credit (score m) = Number_of_Z (n + 1)).
Proof.
  split; [intros fam t ???; by apply (complete_task_again _ _ _ _ _ fam)|].
  assert (∀ i t k fam now' date',
            store_ok s →
            tasks s !! i = Some t → families s !! k = Some fam →
            family t = f_id fam → completed t = false →
            let s1 := (complete_task now (t_id t) date (f_id fam) s).1 in
            complete_task now' (t_id t) date' (f_id fam) s1
            = (s1, Sent 200 (mkCompleteView (t_id t) true
                               (Some (default now date)) None))) as Hsecond.
  { intros i t k fam now' date' Hok Hi Hk Hfam Hc. cbv zeta.
    destruct (complete_task_first_after now date s i t k fam Hok Hi Hk Hfam Hc)
      as (Hok1 & Hi1 & fam1 & Hk1 & Hfid1 & _).
    set (s1 := (complete_task now (t_id t) date (f_id fam) s).1) in *.
    rewrite (complete_task_again now' (t_id t) date' (f_id fam) s1 fam1
               (completed_at now date t)); [done| | |done].
    - rewrite <- Hfid1. by apply (authenticate_stored s1 Hok1 k).
    - rewrite Hfid1, <- Hfam.
      by apply (findOne_task_stored s1 Hok1 i (completed_at now date t)). }
  split.
  - intros Hok s1 v Hfirst.
    destruct (complete_task_Sent _ _ _ _ _ _ _ _ Hfirst) as (fam & t & Ha & Hf).
    destruct (authenticate_Some _ _ _ Ha) as [Hfid [k Hk]].
    destruct (findOne_lookup _ _ _ Hf) as [[Hid Hfam] [i Hi]].
    destruct (completed t) eqn:Hc.
    + rewrite (complete_task_again _ _ _ _ _ fam t) in Hfirst by done.
      injection Hfirst as <- <-. split; [done|]. intros now' date'.
      by rewrite (complete_task_again _ _ _ _ _ fam t).
    + subst id familyId.
      specialize (Hsecond i t k fam).
      cbv zeta in Hsecond. rewrite Hfirst in Hsecond. cbn [fst] in Hsecond.
      rewrite (complete_task_first now date s i t k fam) in Hfirst by done.
      assert (cv_completed v = true ∧ cv_id v = t_id t
              ∧ cv_completedAt v = Some (default now date))
        as (Hv & Hvid & Hvat).
      { destruct (credited fam t) as [[j m]|]; by injection Hfirst as _ <-. }
      split; [done|]. intros now' date'. rewrite Hvid, Hvat. by apply Hsecond.
  - intros Hok i t k fam before m after now' date' Hi Hk <- <- Hfam Hc Hm
      Hbefore Ha. cbv zeta.
    rewrite (Hsecond i t k fam now' date') by done. cbn [fst].
    destruct (complete_task_first_after now date s i t k fam Hok Hi Hk Hfam Hc)
      as (_ & _ & fam1 & Hk1 & _ & Hm1).
    rewrite (credited_first fam t before m after) in Hm1
      by (done || by eapply stored_family_valid).
    exists fam1. split; [done|]. split.
    + rewrite Hm1, Hm.
      replace (length before) with (length before + 0)%nat at 1 by lia.
      by rewrite insert_app_r.
    + intros n Hn ->. by apply credit_integer.
Qed.

(** ** The generic update *)

Lemma assign_key_proj {A B} (f : Task → B) (set : A → Task → Task) value task :
  (∀ v t, f (set v t) = f t) → f (assign_key set value task) = f task.
Proof. intros Hset. destruct value; [apply Hset|done]. Qed.

Ltac assign_skip :=
  rewrite ?assign_key_proj
    by (intros v t; try destruct v; reflexivity).

Lemma Object_assign_fields task update :
  let task' := Object_assign task update in
  t_id task' = t_id task
  ∧ family task'
    = match u_family update with
      | Some (Cast_ok g) => g
      | _ => family task
      end
  ∧ title task' = default (title task) (u_title update)
  ∧ comments task' = default (comments task) (u_comments update)
  ∧ completed task' = default (completed task) (u_completed update)
  ∧ completedAt task'
    = match u_completedAt update with
      | Some Nullish => None
      | Some (Cast_ok d) => Some d
      | _ => completedAt task
      end
  ∧ createdAt task' = createdAt task.
Proof.
  unfold Object_assign. cbv zeta. repeat split.
  - by assign_skip.
  - assign_skip. destruct (u_family update) as [[| |]|]; cbn;
      try reflexivity; by assign_skip.
  - assign_skip. by destruct (u_title update).
  - destruct (u_comments update); cbn; [reflexivity|]. by assign_skip.
  - assign_skip. destruct (u_completed update); cbn; [reflexivity|].
    by assign_skip.
  - assign_skip. destruct (u_completedAt update) as [[| |]|]; cbn;
      try reflexivity; by assign_skip.
  - by assign_skip.
Qed.

Lemma updated_fields now update task0 :
  let task := updated now update task0 in
  t_id task = t_id task0
  ∧ family task
    = match u_family update with
      | Some (Cast_ok g) => g
      | _ => family task0
      end
  ∧ title task = default (title task0) (u_title update)
  ∧ comments task = default (comments task0) (u_comments update)
  ∧ completed task = default (completed task0) (u_completed update)
  ∧ completedAt task
    = match u_completed update,
            match u_completedAt update with
            | Some Nullish => None
            | Some (Cast_ok d) => Some d
            | _ => completedAt task0
            end with
      | Some true, None => Some now
      | _, copied => copied
      end
  ∧ createdAt task = createdAt task0.
Proof.
  cbv zeta. unfold updated.
  destruct (Object_assign_fields task0 update)
    as (? & ? & ? & ? & ? & Hat & ?).
  rewrite Hat.
  destruct (u_completed update) as [[]|],
    (match u_completedAt update with
     | Some Nullish => None
     | Some (Cast_ok d) => Some d
     | _ => completedAt task0
     end) eqn:Hat0; cbn; rewrite ?Hat; done.
Qed.

(** [update_task] writes no family, whatever the request. *)
Lemma update_task_families now id update familyId s :
  families (update_task now id update familyId s).1 = families s.
Proof.
  unfold update_task, with_family.
  destruct (authenticate s familyId) as [fam|]; [|done].
  destruct (findOne _ (tasks s)) as [t0|]; [|done].
  destruct (rejected update); [done|].
  unfold save_task. destruct (valid_task _); [|done].
  by destruct (decide _).
Qed.

(** What [update_task] does to a stored task of the caller's family when
    the validation accepts the result. *)
Lemma update_task_stored now update s i t0 k fam :
  store_ok s →
  tasks s !! i = Some t0 → families s !! k = Some fam →
  family t0 = f_id fam →
  rejected update = false → valid_task (updated now update t0) →
  update_task now (t_id t0) update (f_id fam) s
  = (if decide (updated now update t0 = t0) then s
     else set_tasks
            (<[i := set_updatedAt now (updated now update t0)]> (tasks s)) s,
     Sent 200 (task_view (updated now update t0))).
Proof.
  intros Hok Hi Hk Hfam Hrej Hv.
  unfold update_task, with_family.
  rewrite (authenticate_stored s Hok k fam Hk).
  rewrite <- Hfam, (findOne_task_stored s Hok i t0 Hi), Hrej.
  fold (updated now update t0).
  destruct (updated_fields now update t0) as (Hid & _).
  destruct (decide (updated now update t0 = t0)) as [Heq|Hne].
  - by rewrite Heq, (save_task_unmodified s now t0) by (by rewrite <- Heq).
  - by rewrite (save_task_stored s Hok now i t0).
Qed.

Lemma valid_task_updated now update t0 :
  valid_task t0 →
  u_title update ≠ Some EmptyString →
  Forall (λ c, valid_comment c) (default [] (u_comments update)) →
  valid_task (updated now update t0).
Proof.
  intros Hv0 Htitle Hcs.
  destruct (updated_fields now update t0) as (_ & _ & Ht & Hcm & _).
  unfold valid_task in *. rewrite Ht, Hcm.
  apply andb_True in Hv0 as [Hv0 Hc0]. apply andb_True. split.
  - destruct (u_title update) as [v|]; [|done]. cbn.
    unfold nonempty. apply bool_decide_pack. congruence.
  - destruct (u_comments update) as [cs|]; [|done]. cbn in *.
    by apply forallb_True.
Qed.

(** C9, amended.  [PUT /api/tasks/:id] writes no family, so no score
    changes.  On a stored task of the caller's family, with a body that
    the validation accepts (no blank title, no value that fails to cast,
    valid comments), the task is stored with the body's [completed], and
    its [completedAt] is decided in two steps: a [completedAt] key of the
    body is copied first ([null] unsets the field), and then, if the
    body's [completed] is true and the field is unset, it is set to the
    current instant.  So with a body without a [completedAt] key,
    [completed: true] stores the task completed, with [completedAt] the
    current instant if it was unset and its old value if it was set, and
    [completed: false] stores the task not completed and keeps
    [completedAt] as it was. *)
Theorem update_task_completion now update s i t0 k fam :
  store_ok s →
  tasks s !! i = Some t0 → families s !! k = Some fam →
  family t0 = f_id fam →
  let s' := (update_task now (t_id t0) update (f_id fam) s).1 in
  families s' = families s
  ∧ (u_title update ≠ Some EmptyString →
     rejected update = false →
     Forall (λ c, valid_comment c) (default [] (u_comments update)) →
     ∃ t', tasks s' !! i = Some t'
       ∧ completed t' = default (completed t0) (u_completed update)
       ∧ completedAt t'
         = match u_completed update,
                 match u_completedAt update with
                 | Some Nullish => None
                 | Some (Cast_ok d) => Some d
                 | _ => completedAt t0
                 end with
           | Some true, None => Some now
           | _, copied => copied
           end
       ∧ (u_completedAt update = None → u_completed update = Some true →
          completed t' = true
          ∧ completedAt t'
            = Some match completedAt t0 with Some d => d | None => now end)
       ∧ (u_completedAt update = None → u_completed update = Some false →
          completed t' = false ∧ completedAt t' = completedAt t0)).
Proof.
  intros Hok Hi Hk Hfam. cbv zeta.
  split; [apply update_task_families|].
  intros Htitle Hrej Hcs.
  pose proof (valid_task_updated now update t0
                (stored_task_valid s Hok i t0 Hi) Htitle Hcs) as Hv.
  rewrite (update_task_stored now update s i t0 k fam) by done.
  destruct (updated_fields now update t0)
    as (_ & _ & _ & _ & Hc & Hat & _).
  assert (∃ t', tasks (if decide (updated now update t0 = t0) then s
                       else set_tasks
                              (<[i := set_updatedAt now
                                        (updated now update t0)]>
                                 (tasks s)) s) !! i = Some t'
                ∧ completed t' = completed (updated now update t0)
                ∧ completedAt t' = completedAt (updated now update t0))
    as (t' & Hi' & Hc' & Hat').
  { destruct (decide (updated now update t0 = t0)) as [Heq|Hne].
    - exists t0. by rewrite Heq.
    - exists (set_updatedAt now (updated now update t0)).
      split; [|done]. cbn.
      apply list_lookup_insert_eq. by eapply lookup_lt_Some. }
  exists t'. split; [exact Hi'|]. rewrite Hc', Hat', Hc, Hat.
  split; [done|]. split; [done|].
  split; intros -> ->; (split; [done|]); by destruct (completedAt t0).
Qed.

(** ** Statistics per member *)

(** C4.  [GET /api/stats/members] replies with one record per member, in
    registry order, members without tasks included: [member] is the
    member's name, [totalTasks] counts the family's tasks whose
    [assignedTo] is exactly that name, [completedTasks] counts the
    completed ones among them (so it is at most [totalTasks]), and [score]
    is the stored score of the member. *)
Theorem stats_members_counts familyId s fam :
  authenticate s familyId = Some fam →
  ∃ stats,
    stats_members familyId s = (s, Sent 200 stats)
    ∧ length stats = length (members fam)
    ∧ ∀ j m, members fam !! j = Some m →
        ∃ st, stats !! j = Some st
          ∧ member st = m_name m
          ∧ totalTasks st
            = Z.of_nat (length (filter
                (λ t, family t = f_id fam ∧ assignedTo t = Some (m_name m))
                (tasks s)))
          ∧ completedTasks st
            = Z.of_nat (length (filter
                (λ t, family t = f_id fam ∧ assignedTo t = Some (m_name m)
                      ∧ completed t = true)
                (tasks s)))
          ∧ 0 ≤ completedTasks st ≤ totalTasks st
          ∧ ms_score st = score m.
Proof.
  intros Ha. unfold stats_members, with_family, find. rewrite Ha.
  eexists. split; [reflexivity|]. split; [by rewrite length_fmap|].
  intros j m Hj. rewrite list_lookup_fmap, Hj. cbn.
  eexists. split; [reflexivity|]. cbn.
  rewrite !list_filter_filter.
  split; [done|]. split.
  { f_equal. f_equal. apply list_filter_iff. tauto. }
  split.
  { f_equal. f_equal. apply list_filter_iff. tauto. }
  split; [|done]. split; [lia|].
  apply inj_le.
  rewrite <- (list_filter_filter (λ t, completed t = true)).
  apply length_filter.
Qed.

(** ** Overdue alerts *)

Lemma op_lt_true field bound :
  op_lt field bound ↔ ∃ d, field = Some d ∧ d < bound.
Proof.
  unfold op_lt. destruct field as [d|].
  - rewrite bool_decide_spec. split; [eauto|]. by intros (? & [= <-] & ?).
  - split; [done|]. by intros (? & ? & _).
Qed.

(** C5.  In a store with unique ids, a task of the caller's family appears
    in the reply of [GET /api/alerts/overdue] at the instant [now] if and
    only if it is not completed and has a [dueDate] strictly before
    [now]; in particular a task without [dueDate] does not appear. *)
Theorem overdue_selects now familyId s fam :
  store_ok s →
  authenticate s familyId = Some fam →
  ∃ alerts,
    overdue now familyId s = (s, Sent 200 alerts)
    ∧ ∀ t, t ∈ tasks s → family t = f_id fam →
        (mkOverdueView (t_id t) (title t) (assignedTo t) (dueDate t) ∈ alerts
         ↔ completed t = false ∧ ∃ d, dueDate t = Some d ∧ d < now)
        ∧ (dueDate t = None →
           mkOverdueView (t_id t) (title t) (assignedTo t) (dueDate t)
           ∉ alerts).
Proof.
  intros Hok Ha. unfold overdue, with_family, find. rewrite Ha.
  eexists. split; [reflexivity|].
  intros t Hin Hfam.
  assert (mkOverdueView (t_id t) (title t) (assignedTo t) (dueDate t)
          ∈ (λ t, mkOverdueView (t_id t) (title t) (assignedTo t) (dueDate t))
              <$> filter (overdue_query (f_id fam) now) (tasks s)
          ↔ completed t = false ∧ ∃ d, dueDate t = Some d ∧ d < now) as Hiff.
  { rewrite list_elem_of_fmap. split.
    - intros (t' & [= Hid _ _ _] & Hin').
      apply list_elem_of_filter in Hin' as [Hq Hin'].
      assert (t' = t) as ->.
      { apply list_elem_of_lookup in Hin as [i Hi].
        apply list_elem_of_lookup in Hin' as [i' Hi'].
        assert (i = i') as ->
          by (eapply (same_id_same_index t_id); eauto; apply Hok).
        congruence. }
      destruct Hq as (_ & ? & ?%op_lt_true). done.
    - intros [Hc Hd]. exists t. split; [done|].
      apply list_elem_of_filter. split; [|done].
      repeat split; [done..|]. by apply op_lt_true. }
  split; [done|].
  intros Hnone Hin'. apply Hiff in Hin' as (_ & d & Hd & _). congruence.
Qed.

(** ** History *)

Lemma Zsum_app l1 l2 : Zsum (l1 ++ l2) = Zsum l1 + Zsum l2.
Proof. unfold Zsum. induction l1 as [|x l1 IH]; cbn; lia. Qed.

Lemma Zsum_insert (l : list Z) i x y :
  l !! i = Some x → Zsum (<[i := y]> l) = Zsum l - x + y.
Proof.
  unfold Zsum. revert i. induction l as [|z l IH]; intros [|i] Hi; try done.
  - injection Hi as ->. cbn. lia.
  - specialize (IH i Hi). simpl in *. lia.
Qed.

Lemma Zsum_Permutation l1 l2 : l1 ≡ₚ l2 → Zsum l1 = Zsum l2.
Proof. unfold Zsum. induction 1; cbn in *; lia. Qed.

Section MapFacts.
Context {V : Type}.
Implicit Types (m : Map V) (k : string) (v : V).

Lemma Map_has_false k m :
  Map_has k m = false →
  list_find (λ kv : string * V, kv.1 = k) m = None.
Proof.
  unfold Map_has. intros Hh%bool_decide_eq_false.
  apply list_find_None. by apply Forall_Exists_neg, Hh.
Qed.

Lemma Map_has_true k m :
  Map_has k m = true →
  ∃ i v, list_find (λ kv : string * V, kv.1 = k) m = Some (i, (k, v)).
Proof.
  unfold Map_has. intros Hh%bool_decide_eq_true.
  destruct (list_find (λ kv : string * V, kv.1 = k) m) as [[i [k' v]]|] eqn:Hf.
  - pose proof Hf as (_ & Hk & _)%list_find_Some. cbn in Hk. subst k'. eauto.
  - apply list_find_None in Hf. by apply Forall_Exists_neg in Hf.
Qed.

Lemma Map_find_new k v m :
  list_find (λ kv : string * V, kv.1 = k) m = None →
  list_find (λ kv : string * V, kv.1 = k) (m ++ [(k, v)])
  = Some (length m, (k, v)).
Proof.
  intros Hf. apply list_find_Some. repeat split.
  - by rewrite list_lookup_middle.
  - intros j [k' v'] Hj Hlt. rewrite lookup_app_l in Hj by done.
    apply list_find_None in Hf. by eapply Forall_lookup_1 in Hf.
Qed.
End MapFacts.

(** One task more in the map: the map stays well formed, its total grows
    by one and its completed count by one when the task is completed. *)
Lemma history_step_sums LocalTZA query_period map t :
  buckets_ok map →
  ∃ map',
    history_step LocalTZA query_period map t = Some map'
    ∧ buckets_ok map'
    ∧ sum_total map'.*2 = sum_total map.*2 + 1
    ∧ sum_completed map'.*2
      = sum_completed map.*2 + (if completed t then 1 else 0).
Proof.
  intros [Hnd Hper]. unfold history_step. cbv zeta.
  set (key := bucketKey LocalTZA query_period (createdAt t)).
  assert (∃ map1 i e,
            (if negb (Map_has key map)
             then Map_set key (mkHistoryEntry key 0 0) map else map) = map1
            ∧ list_find (λ kv : string * HistoryEntry, kv.1 = key) map1
              = Some (i, (key, e))
            ∧ buckets_ok map1
            ∧ sum_total map1.*2 = sum_total map.*2
            ∧ sum_completed map1.*2 = sum_completed map.*2)
    as (map1 & i & e & -> & Hf & [Hnd1 Hper1] & Ht & Hc).
  { destruct (Map_has key map) eqn:Hh; cbn.
    - apply Map_has_true in Hh as (i & e & Hf).
      by exists map, i, e.
    - apply Map_has_false in Hh. unfold Map_set. rewrite Hh.
      exists (map ++ [(key, mkHistoryEntry key 0 0)]), (length map),
        (mkHistoryEntry key 0 0).
      split; [done|]. split; [by apply Map_find_new|].
      split; [split|].
      + rewrite fmap_app. apply NoDup_app. repeat split; [done| |].
        * intros x Hx ->%list_elem_of_singleton.
          apply list_elem_of_fmap in Hx as (kv & Hkv & Hin).
          apply list_find_None in Hh. rewrite Forall_forall in Hh.
          by apply (Hh kv).
        * apply NoDup_singleton.
      + apply Forall_app. split; [done|]. by apply Forall_singleton.
      + unfold sum_total, sum_completed.
        rewrite !fmap_app, !Zsum_app. cbn. lia. }
  unfold Map_get, findOne. rewrite Hf. cbn.
  unfold Map_set. rewrite Hf.
  pose proof Hf as (Hi & _)%list_find_Some.
  eexists. split; [reflexivity|].
  assert (period e = key) as He
    by (by eapply Forall_lookup_1 in Hper1; [|exact Hi]).
  split; [split|].
  - rewrite list_fmap_insert. cbn.
    rewrite list_insert_id; [done|]. by rewrite list_lookup_fmap, Hi.
  - apply Forall_insert; [done|]. by destruct (completed t).
  - unfold sum_total, sum_completed in *.
    rewrite !list_fmap_insert.
    rewrite (Zsum_insert _ i (total e)), (Zsum_insert _ i (h_completed e));
      [|by rewrite !list_lookup_fmap, Hi..].
    destruct (completed t); cbn; lia.
Qed.

Lemma forEach_history_sums LocalTZA query_period tasks map :
  buckets_ok map →
  ∃ map',
    forEach (history_step LocalTZA query_period) tasks map = Some map'
    ∧ buckets_ok map'
    ∧ sum_total map'.*2 = sum_total map.*2 + Z.of_nat (length tasks)
    ∧ sum_completed map'.*2
      = sum_completed map.*2
        + Z.of_nat (length (filter (λ t, completed t = true) tasks)).
Proof.
  revert map. induction tasks as [|t tasks IH]; intros map Hok.
  - exists map. cbn. repeat split; try apply Hok; lia.
  - destruct (history_step_sums LocalTZA query_period map t Hok)
      as (map1 & Hstep & Hok1 & Ht1 & Hc1).
    destruct (IH map1 Hok1) as (map' & Hrun & Hok' & Ht & Hc).
    exists map'. split; [cbn; by rewrite Hstep|].
    split; [done|]. split; [rewrite Ht, Ht1; cbn [length]; lia|].
    rewrite Hc, Hc1, filter_cons.
    destruct (completed t);
      [rewrite decide_True by done|rewrite decide_False by done];
      cbn [length]; lia.
Qed.

Global Instance period_le_total : Total period_le.
Proof. intros a b. unfold period_le. apply String.le_total. Qed.

Lemma buckets_periods map : buckets_ok map → period <$> map.*2 = map.*1.
Proof.
  intros [_ Hper]. induction Hper as [|[k e] map Hk _ IH]; [done|].
  cbn in *. by rewrite Hk, IH.
Qed.

(** C6.  For either granularity (a query without [period] means [week]),
    [GET /api/stats/history] replies with entries whose [total] add up to
    the number of tasks of the family and whose [completed] add up to the
    number of its completed tasks; the entries are in ascending
    lexicographic order of [period], one entry per period. *)
Theorem history_totals LocalTZA query_period familyId s fam :
  authenticate s familyId = Some fam →
  ∃ entries,
    history LocalTZA query_period familyId s = (s, Sent 200 entries)
    ∧ sum_total entries
      = Z.of_nat (length (filter (λ t, family t = f_id fam) (tasks s)))
    ∧ sum_completed entries
      = Z.of_nat (length (filter
          (λ t, family t = f_id fam ∧ completed t = true) (tasks s)))
    ∧ Sorted (λ a b, String.le (period a) (period b)) entries
    ∧ NoDup (period <$> entries).
Proof.
  intros Ha. unfold history, with_family, find. rewrite Ha.
  destruct (forEach_history_sums LocalTZA (default week query_period)
              (filter (λ t, family t = f_id fam) (tasks s)) [])
    as (map & -> & Hok & Ht & Hc).
  { split; [apply NoDup_nil_2|apply Forall_nil_2]. }
  eexists. split; [reflexivity|].
  unfold Map_values.
  pose proof (merge_sort_Permutation period_le map.*2) as Hperm.
  repeat split.
  - unfold sum_total in *.
    rewrite (Zsum_Permutation _ (total <$> map.*2)) by (by rewrite Hperm).
    rewrite Ht. cbn. lia.
  - unfold sum_completed in *.
    rewrite (Zsum_Permutation _ (h_completed <$> map.*2)) by (by rewrite Hperm).
    rewrite Hc, list_filter_filter.
    change (Zsum (h_completed <$> [].*2)) with 0. rewrite Z.add_0_l.
    f_equal. f_equal. apply list_filter_iff. tauto.
  - apply (Sorted_merge_sort period_le).
  - rewrite Hperm, buckets_periods by done. apply Hok.
Qed.

(** ** Invariants of the state machine *)

Lemma save_task_Some now t0 t s s' :
  save_task now t0 t s = Some s' →
  valid_task t
  ∧ (s' = s
     ∨ s' = set_tasks (upsert t_id (set_updatedAt now t) (tasks s)) s).
Proof.
  unfold save_task. destruct (valid_task t); [|done].
  destruct (decide _); intros [= <-]; auto.
Qed.

Lemma save_family_Some now f0 f s s' :
  save_family now f0 f s = Some s' →
  valid_family f
  ∧ (s' = s
     ∨ s' = set_families (upsert f_id (set_f_updatedAt now f) (families s)) s).
Proof.
  unfold save_family. destruct (valid_family f); [|done].
  destruct (decide _); intros [= <-]; auto.
Qed.

Lemma save_task_ok now t0 t s s' :
  store_ok s → (t_id t < next_oid s)%N →
  save_task now t0 t s = Some s' → store_ok s'.
Proof.
  intros Hok Hfresh (Hv & [->| ->])%save_task_Some; [done|].
  destruct Hok as [Htv Hfv Htn Hfn Htf Hff]. split; cbn; try done.
  - by apply Forall_upsert.
  - by apply ids_upsert_NoDup.
  - by apply Forall_upsert.
Qed.

Lemma save_family_ok now f0 f s s' :
  store_ok s → (f_id f < next_oid s)%N →
  save_family now f0 f s = Some s' → store_ok s'.
Proof.
  intros Hok Hfresh (Hv & [->| ->])%save_family_Some; [done|].
  destruct Hok as [Htv Hfv Htn Hfn Htf Hff]. split; cbn; try done.
  - by apply Forall_upsert.
  - by apply ids_upsert_NoDup.
  - by apply Forall_upsert.
Qed.


Lemma save_family_tasks now f0 f s s' :
  save_family now f0 f s = Some s' → tasks s' = tasks s.
Proof. by intros (_ & [->| ->])%save_family_Some. Qed.

Lemma take_oids_ok n s : store_ok s → store_ok (take_oids n s).
Proof.
  intros [Htv Hfv Htn Hfn Htf Hff]. split; cbn; try done;
    (eapply Forall_impl; [eassumption|]); cbn; lia.
Qed.

Lemma stored_task_fresh s t :
  store_ok s → t ∈ tasks s → (t_id t < next_oid s)%N.
Proof.
  intros [Htv Hfv Htn Hfn Htf Hff] Hin. rewrite Forall_forall in Htf. auto.
Qed.

Lemma stored_family_fresh s f :
  store_ok s → f ∈ families s → (f_id f < next_oid s)%N.
Proof.
  intros [Htv Hfv Htn Hfn Htf Hff] Hin. rewrite Forall_forall in Hff. auto.
Qed.

Lemma findOne_elem_of {A} (q : A → Prop) `{∀ x, Decision (q x)} coll d :
  findOne q coll = Some d → d ∈ coll.
Proof.
  intros (_ & i & Hi)%findOne_lookup. by eapply list_elem_of_lookup_2.
Qed.

Lemma authenticate_elem_of s familyId fam :
  authenticate s familyId = Some fam → fam ∈ families s.
Proof. apply findOne_elem_of. Qed.

(** Every handler keeps the store within the schemas. *)
Lemma step_store_ok s r : store_ok s → store_ok (step s r).
Proof.
  intros Hok. destruct r; cbn.
  - (* register *)
    unfold register. destruct (findOne _ (families s)); [done|].
    destruct (save_family _ _ _ _) as [s'|] eqn:Hs; cbn.
    + eapply save_family_ok; [|
        |exact Hs]; [by apply take_oids_ok|cbn; lia].
    + by apply take_oids_ok.
  - (* create_member *)
    unfold create_member, with_family.
    destruct (authenticate s familyId) as [fam|] eqn:Ha; [|done].
    assert (store_ok
              (match save_family now (Some fam)
                       (set_members
                          (members fam
                           ++ [mkMember (next_oid s) name (Number_of_Z 0)])
                          fam)
                       (take_oids 1 s) with
               | Some s' => s' | None => take_oids 1 s end)) as Hres.
    { destruct (save_family _ _ _ _) as [s'|] eqn:Hs; [|by apply take_oids_ok].
      eapply save_family_ok; [| |exact Hs]; [by apply take_oids_ok|].
      cbn. apply authenticate_elem_of in Ha.
      pose proof (stored_family_fresh s fam Hok Ha). lia. }
    destruct (save_family _ _ _ _) as [s'|]; [|done].
    by destruct (last _).
  - (* create_task *)
    unfold create_task, with_family.
    destruct (authenticate s familyId) as [fam|] eqn:Ha; [|done].
    destruct (save_task _ _ _ _) as [s'|] eqn:Hs; cbn.
    + eapply save_task_ok; [| |exact Hs]; [by apply take_oids_ok|cbn; lia].
    + by apply take_oids_ok.
  - (* update_task *)
    unfold update_task, with_family.
    destruct (authenticate s familyId) as [fam|] eqn:Ha; [|done].
    destruct (findOne _ (tasks s)) as [t0|] eqn:Hf; [|done].
    fold (updated now update t0).
    destruct (rejected update); [done|].
    destruct (save_task _ _ _ _) as [s'|] eqn:Hs; [|done]. cbn.
    eapply save_task_ok; [done| |exact Hs].
    destruct (updated_fields now update t0) as (-> & _).
    apply stored_task_fresh; [done|]. by eapply findOne_elem_of.
  - (* delete_task *)
    unfold delete_task, with_family, deleteOne.
    destruct (authenticate s familyId) as [fam|] eqn:Ha; [|done].
    destruct (list_find _ (tasks s)) as [[i t0]|]; [|done].
    rewrite decide_False by done. cbn.
    destruct Hok as [Htv Hfv Htn Hfn Htf Hff]. split; cbn; try done.
    + by apply Forall_delete.
    + rewrite list_fmap_delete.
      apply (sublist_NoDup _ (t_id <$> tasks s)); [done|apply sublist_delete].
    + by apply Forall_delete.
  - (* assign_task *)
    unfold assign_task, with_family.
    destruct (authenticate s familyId) as [fam|] eqn:Ha; [|done].
    destruct (findOne _ (tasks s)) as [t0|] eqn:Hf; [|done].
    destruct (negb _); [done|].
    destruct (save_task _ _ _ _) as [s'|] eqn:Hs; [|done]. cbn.
    eapply save_task_ok; [done| |exact Hs]. cbn.
    apply stored_task_fresh; [done|]. by eapply findOne_elem_of.
  - (* complete_task *)
    unfold complete_task, with_family.
    destruct (authenticate s familyId) as [fam|] eqn:Ha; [|done].
    destruct (findOne _ (tasks s)) as [t0|] eqn:Hf; [|done].
    destruct (completed t0); [done|].
    destruct (save_task _ _ _ _) as [s'|] eqn:Hs; [|done].
    assert (store_ok s') as Hok'.
    { eapply save_task_ok; [done| |exact Hs]. cbn.
      apply stored_task_fresh; [done|]. by eapply findOne_elem_of. }
    assert (next_oid s' = next_oid s) as Hoid.
    { by apply save_task_Some in Hs as (_ & [->| ->]). }
    destruct (if truthy _ then _ else _) as [[j m]|]; [|done].
    destruct (save_family _ _ _ _) as [s''|] eqn:Hs'; [|done]. cbn.
    eapply save_family_ok; [done| |exact Hs']. cbn. rewrite Hoid.
    apply stored_family_fresh; [done|]. by eapply authenticate_elem_of.
  - (* add_comment *)
    unfold add_comment, with_family.
    destruct (authenticate s familyId) as [fam|] eqn:Ha; [|done].
    destruct (findOne _ (tasks s)) as [t0|] eqn:Hf; [|done].
    destruct (save_task _ _ _ _) as [s'|] eqn:Hs; [|done]. cbn.
    eapply save_task_ok; [done| |exact Hs]. cbn.
    apply stored_task_fresh; [done|]. by eapply findOne_elem_of.
Qed.

Lemma empty_store_ok : store_ok empty_store.
Proof. split; cbn; constructor. Qed.

Lemma run_store_ok requests s : store_ok s → store_ok (run requests s).
Proof.
  revert s. induction requests as [|r requests IH]; intros s Hok; [done|].
  cbn. apply IH. by apply step_store_ok.
Qed.

Lemma reachable_store_ok s : reachable s → store_ok s.
Proof. intros [requests ->]. apply run_store_ok, empty_store_ok. Qed.





(** ** The scenarios of the specification *)

Lemma demo_store_ok : store_ok demo_store.
Proof. apply run_store_ok, empty_store_ok. Defined.

Lemma completed_store_ok : store_ok completed_store.
Proof. apply run_store_ok, empty_store_ok. Defined.

Lemma namesake_store_ok : store_ok namesake_store.
Proof. apply run_store_ok, empty_store_ok. Defined.

Lemma complete_task_credits_witness :
  tasks (complete_task 5 3 None 0 demo_store).1
  = [mkTask 3 0 "T1" None medium (Some "Alice"%string) None true (Some 5) []
       1 5;
     demo_T2]
  ∧ (complete_task 5 3 None 0 demo_store).2
    = Sent 200 (mkCompleteView 3 true (Some 5) (Some (Number_of_Z 1)))
  ∧ members <$> families (complete_task 5 3 None 0 demo_store).1
    = [[mkMember 1 "Alice" (Number_of_Z 1); mkMember 2 "Bob" (Number_of_Z 0)]].
Proof.
  destruct (complete_task_credits 5 None demo_store 0 demo_T1 0 demo_family
              demo_store_ok eq_refl eq_refl eq_refl eq_refl)
    as (Htasks & _ & Hmember).
  destruct (Hmember (mkMember 1 "Alice" (Number_of_Z 0))
              (list_elem_of_here _ _) eq_refl)
    as (j & m & Hj & Hn & _ & Hreply & Hfams & _).
  destruct j as [|[|j]]; cbn in Hj.
  - injection Hj as <-.
    split; [exact Htasks|]. split; [exact Hreply|].
    change (complete_task 5 3 None 0 demo_store)
      with (complete_task 5 (t_id demo_T1) None (f_id demo_family) demo_store).
    rewrite Hfams. reflexivity.
  - injection Hj as <-. discriminate Hn.
  - discriminate Hj.
Defined.

Lemma complete_task_uncredited_witness :
  complete_task 5 4 None 0 demo_store
  = (mkStore (families demo_store)
       [demo_T1;
        mkTask 4 0 "T2" None medium None (Some 50) true (Some 5) [] 2 5]
       5,
     Sent 200 (mkCompleteView 4 true (Some 5) None)).
Proof.
  apply (complete_task_uncredited 5 None demo_store 1 demo_T2 0 demo_family).
  - exact demo_store_ok.
  - reflexivity.
  - reflexivity.
  - reflexivity.
  - reflexivity.
  - left. reflexivity.
Defined.

Lemma complete_task_first_namesake_witness :
  complete_task 5 3 None 0 namesake_store
  = (mkStore
       [mkFamily 0 "G" "G-1" "$2a$10$hash"
          [mkMember 1 "Ann" (Number_of_Z 1); mkMember 2 "Ann" (Number_of_Z 0)]
          0 5]
       [mkTask 3 0 "T" None medium (Some "Ann"%string) None true (Some 5) []
          1 5]
       4,
     Sent 200 (mkCompleteView 3 true (Some 5) (Some (Number_of_Z 1)))).
Proof.
  apply (complete_task_first_namesake 5 None namesake_store 0
           (mkTask 3 0 "T" None medium (Some "Ann"%string) None false None []
              1 1)
           0
           (mkFamily 0 "G" "G-1" "$2a$10$hash"
              [mkMember 1 "Ann" (Number_of_Z 0);
               mkMember 2 "Ann" (Number_of_Z 0)] 0 0)
           [] (mkMember 1 "Ann" (Number_of_Z 0))
           [mkMember 2 "Ann" (Number_of_Z 0)]).
  - exact namesake_store_ok.
  - reflexivity.
  - reflexivity.
  - reflexivity.
  - reflexivity.
  - reflexivity.
  - constructor.
  - reflexivity.
Defined.

Lemma complete_task_idempotent_witness :
  complete_task 9 3 (Some 77) 0 completed_store
  = (completed_store, Sent 200 (mkCompleteView 3 true (Some 5) None))
  ∧ ∃ fam2,
      families (complete_task 9 3 (Some 77) 0 completed_store).1 !! 0%nat
      = Some fam2
      ∧ members fam2
        = [mkMember 1 "Alice" (Number_of_Z 1); mkMember 2 "Bob" (Number_of_Z 0)].
Proof.
  destruct (complete_task_idempotent 5 3 None 0 demo_store)
    as (_ & Htwice & Hscore).
  split.
  - destruct (Htwice demo_store_ok completed_store
                (mkCompleteView 3 true (Some 5) (Some (Number_of_Z 1))))
      as [_ Hagain].
    + reflexivity.
    + exact (Hagain 9 (Some 77)).
  - destruct (Hscore demo_store_ok 0%nat demo_T1 0%nat demo_family []
                (mkMember 1 "Alice" (Number_of_Z 0))
                [mkMember 2 "Bob" (Number_of_Z 0)] 9 (Some 77))
      as (fam2 & Hk & Hm & _).
    + reflexivity.
    + reflexivity.
    + reflexivity.
    + reflexivity.
    + reflexivity.
    + reflexivity.
    + reflexivity.
    + constructor.
    + reflexivity.
    + exists fam2. split; [exact Hk|exact Hm].
Defined.

Lemma stats_members_counts_witness :
  ∃ stats,
    stats_members 0 demo_store = (demo_store, Sent 200 stats)
    ∧ length stats = 2%nat.
Proof.
  destruct (stats_members_counts 0 demo_store demo_family)
    as (stats & Heq & Hlen & _).
  - reflexivity.
  - exists stats. split; [exact Heq|exact Hlen].
Defined.

Lemma overdue_selects_witness :
  ∃ alerts,
    overdue 100 0 demo_store = (demo_store, Sent 200 alerts)
    ∧ mkOverdueView 4 "T2" None (Some 50) ∈ alerts
    ∧ mkOverdueView 3 "T1" (Some "Alice"%string) None ∉ alerts.
Proof.
  destruct (overdue_selects 100 0 demo_store demo_family)
    as (alerts & Heq & Hall).
  - exact demo_store_ok.
  - reflexivity.
  - exists alerts. split; [exact Heq|]. split.
    + apply (Hall demo_T2).
      * apply (list_elem_of_lookup_2 _ 1%nat). reflexivity.
      * reflexivity.
      * split; [reflexivity|]. exists 50. split; [reflexivity|lia].
    + apply (Hall demo_T1).
      * apply (list_elem_of_lookup_2 _ 0%nat). reflexivity.
      * reflexivity.
      * reflexivity.
Defined.

Lemma history_totals_witness :
  ∃ entries,
    history Etc_UTC (Some month) 0 january_store
    = (january_store, Sent 200 entries)
    ∧ sum_total entries = 2 ∧ sum_completed entries = 0.
Proof.
  destruct (history_totals Etc_UTC (Some month) 0 january_store
              (mkFamily 0 "F" "F-1" "$2a$10$hash" [] 0 0))
    as (entries & Heq & Ht & Hc & _).
  - reflexivity.
  - exists entries. split; [exact Heq|]. split; [exact Ht|exact Hc].
Defined.

Lemma update_task_completion_witness :
  ∃ t',
    tasks (update_task 7 3
             (mkTaskUpdate None None None None None (Some false) None None
                None)
             0 completed_store).1 !! 0%nat = Some t'
    ∧ completed t' = false ∧ completedAt t' = Some 5.
Proof.
  destruct (update_task_completion 7
              (mkTaskUpdate None None None None None (Some false) None None
                 None)
              completed_store 0
              (mkTask 3 0 "T1" None medium (Some "Alice"%string) None true
                 (Some 5) [] 1 5)
              0
              (mkFamily 0 "F" "F-1" "$2a$10$hash"
                 [mkMember 1 "Alice" (Number_of_Z 1);
                  mkMember 2 "Bob" (Number_of_Z 0)] 0 5))
    as (_ & Hstored).
  - exact completed_store_ok.
  - reflexivity.
  - reflexivity.
  - reflexivity.
  - destruct Hstored as (t' & Hi & _ & _ & _ & Hfalse).
    + discriminate.
    + reflexivity.
    + constructor.
    + exists t'. split; [exact Hi|]. exact (Hfalse eq_refl eq_refl).
Defined.


(** C1 as stated fails at a score of 2^53, which a registration can
    store: the first completion of Alice's task replies with the score
    2^53 as [memberScore] and leaves her stored score at 2^53 (no family
    is written); the score is not incremented. *)
Lemma complete_task_credits_counterexample :
  let result := complete_task 5 2 None 0 saturated_store in
  members <$> families saturated_store
  = [[mkMember 1 "Alice" (Number_of_Z (2 ^ 53))]]
  ∧ completed <$> tasks saturated_store = [false]
  ∧ result.2
    = Sent 200
        (mkCompleteView 2 true (Some 5) (Some (Number_of_Z (2 ^ 53))))
  ∧ completed <$> tasks result.1 = [true]
  ∧ families result.1 = families saturated_store.
Proof. vm_compute. done. Qed.

(** C10 as stated fails likewise: with the first of two namesakes at the
    score 2^53, the first completion leaves her score as it is. *)
Lemma complete_task_first_namesake_counterexample :
  let result := complete_task 5 3 None 0 saturated_namesake_store in
  members <$> families saturated_namesake_store
  = [[mkMember 1 "Ann" (Number_of_Z (2 ^ 53));
      mkMember 2 "Ann" (Number_of_Z 0)]]
  ∧ result.2
    = Sent 200
        (mkCompleteView 3 true (Some 5) (Some (Number_of_Z (2 ^ 53))))
  ∧ families result.1 = families saturated_namesake_store.
Proof. vm_compute. done. Qed.

(** C2 as stated fails at a score of 2^53 + 2: completing Alice's task
    twice adds 2 to her score in total, not 1 (the first call adds 2, the
    second nothing).  At 2^53 the two calls add nothing. *)
Lemma complete_task_idempotent_counterexample :
  let s1 := (complete_task 5 2 None 0 sparse_store).1 in
  let s2 := (complete_task 6 2 None 0 s1).1 in
  members <$> families sparse_store
  = [[mkMember 1 "Alice" (Number_of_Z (2 ^ 53 + 2))]]
  ∧ members <$> families s2
    = [[mkMember 1 "Alice" (Number_of_Z (2 ^ 53 + 4))]]
  ∧ members <$> families
      (complete_task 6 2 None 0 (complete_task 5 2 None 0 saturated_store).1).1
    = members <$> families saturated_store.
Proof. vm_compute. done. Qed.

(** C9 as stated fails with a [completedAt] key in the body.  T1 was
    completed at instant 5.  A [PUT] with [completed: false] and
    [completedAt: null] stores it without [completedAt]; a [PUT] with
    [completed: true] and [completedAt: null] at instant 8 stores it
    with [completedAt] 8 in place of 5. *)
Lemma update_task_completion_counterexample :
  completedAt <$> tasks completed_store = [Some 5; None]
  ∧ completedAt
    <$> tasks (update_task 7 3
                 (mkTaskUpdate None None None None None (Some false)
                    (Some Nullish) None None)
                 0 completed_store).1
    = [None; None]
  ∧ completedAt
    <$> tasks (update_task 8 3
                 (mkTaskUpdate None None None None None (Some true)
                    (Some Nullish) None None)
                 0 completed_store).1
    = [Some 8; None].
Proof. vm_compute. done. Qed.


(** Scenario: T1 assigned to Alice; completing it twice credits Alice
    once, and Bob never. *)
Example scenario_alice_bob :
  let s1 := (complete_task 5 3 None 0 demo_store).1 in
  let s2 := (complete_task 6 3 None 0 s1).1 in
  (complete_task 5 3 None 0 demo_store).2
  = Sent 200 (mkCompleteView 3 true (Some 5) (Some (Number_of_Z 1)))
  ∧ (complete_task 6 3 None 0 s1).2
    = Sent 200 (mkCompleteView 3 true (Some 5) None)
  ∧ members <$> families s2
    = [[mkMember 1 "Alice" (Number_of_Z 1); mkMember 2 "Bob" (Number_of_Z 0)]].
Proof. vm_compute. done. Qed.

(** Scenario: T2, unassigned and past its due date, is reported overdue
    until it is completed. *)
Example scenario_overdue :
  (overdue 100 0 demo_store).2
  = Sent 200 [mkOverdueView 4 "T2" None (Some 50)]
  ∧ (overdue 100 0 (complete_task 60 4 None 0 demo_store).1).2 = Sent 200 [].
Proof. vm_compute. done. Qed.

(** Scenario: two tasks created on 2024-01-02 and 2024-01-09 make two
    weekly entries and one monthly entry. *)
Example scenario_history :
  (history Etc_UTC None 0 january_store).2
  = Sent 200 [mkHistoryEntry "2024-W01" 1 0; mkHistoryEntry "2024-W02" 1 0]
  ∧ (history Etc_UTC (Some month) 0 january_store).2
    = Sent 200 [mkHistoryEntry "2024-01" 2 0].
Proof. vm_compute. done. Qed.


(** * Beyond the claims *)

Example split_examples :
  split " " "Bearer abc" = ["Bearer"; "abc"]%string
  ∧ split " " "abc" = ["abc"]%string
  ∧ split " " EmptyString = [EmptyString]
  ∧ split " " "a  b " = ["a"; EmptyString; "b"; EmptyString]%string.
Proof. vm_compute. done. Qed.

(** ** The map of the history handler *)

Section MapLaws.
Context {V : Type}.
Implicit Types (m : Map V) (k : string) (v : V).

Lemma Map_get_Some k v m : Map_get k m = Some v → (k, v) ∈ m.
Proof.
  unfold Map_get. intros Hg.
  destruct (findOne (λ kv : string * V, kv.1 = k) m) as [[k' v']|] eqn:Hf;
    [|done].
  injection Hg as ->.
  pose proof (findOne_lookup _ _ _ Hf) as [Hk [i Hi]]. cbn in Hk. subst k'.
  by eapply list_elem_of_lookup_2.
Qed.

Lemma Map_get_elem_of k v m : NoDup m.*1 → (k, v) ∈ m → Map_get k m = Some v.
Proof.
  intros Hnd [i Hi]%list_elem_of_lookup. unfold Map_get.
  rewrite (proj2 (findOne_Some (λ kv : string * V, kv.1 = k) m (k, v)));
    [done|].
  exists i. split; [done|]. split; [done|].
  intros j [k' v'] Hj Hlt Hk. cbn in Hk. subst k'.
  assert (j = i); [|lia].
  apply (NoDup_lookup m.*1 j i k); [done|..];
    rewrite list_lookup_fmap; [by rewrite Hj|by rewrite Hi].
Qed.

Lemma Map_has_get k m : Map_has k m = bool_decide (is_Some (Map_get k m)).
Proof.
  destruct (Map_has k m) eqn:Hh; symmetry.
  - apply Map_has_true in Hh as (i & v & Hf).
    apply bool_decide_eq_true. unfold Map_get, findOne. rewrite Hf. by eexists.
  - apply Map_has_false in Hh.
    apply bool_decide_eq_false. unfold Map_get, findOne. rewrite Hh.
    by intros [? ?].
Qed.

(** [map.get] after [map.set]. *)
Lemma Map_get_set k k' v m :
  Map_get k' (Map_set k v m)
  = if decide (k = k') then Some v else Map_get k' m.
Proof.
  unfold Map_get, findOne, Map_set.
  destruct (list_find (λ kv : string * V, kv.1 = k) m) as [[i [k0 v0]]|] eqn:Hf.
  - apply list_find_Some in Hf as (Hi & Hk & Hfirst). cbn in Hk. subst k0.
    destruct (decide (k = k')) as [<-|Hne].
    + erewrite (proj2 (list_find_Some _ _ i (k, v))); [done|].
      split; [apply list_lookup_insert_eq; by eapply lookup_lt_Some|].
      split; [done|]. intros j y Hj Hlt.
      rewrite list_lookup_insert_ne in Hj by lia. by eapply Hfirst.
    + destruct (list_find (λ kv : string * V, kv.1 = k') m)
        as [[j [k1 v1]]|] eqn:Hf'.
      * apply list_find_Some in Hf' as (Hj & Hk' & Hfirst'). cbn in Hk'.
        subst k1.
        assert (i ≠ j) by (intros ->; congruence).
        erewrite (proj2 (list_find_Some _ _ j (k', v1))); [done|].
        split; [by rewrite list_lookup_insert_ne|].
        split; [done|]. intros j' y Hj' Hlt.
        destruct (decide (i = j')) as [<-|].
        -- rewrite list_lookup_insert_eq in Hj' by (by eapply lookup_lt_Some).
           injection Hj' as <-. done.
        -- rewrite list_lookup_insert_ne in Hj' by done. by eapply Hfirst'.
      * rewrite (proj2 (list_find_None _ _)); [done|].
        apply list_find_None in Hf'. apply Forall_insert; [done|]. done.
  - apply list_find_None in Hf.
    destruct (decide (k = k')) as [<-|Hne].
    + rewrite (Map_find_new k v m); [done|]. by apply list_find_None.
    + destruct (list_find (λ kv : string * V, kv.1 = k') m)
        as [[j [k1 v1]]|] eqn:Hf'.
      * apply list_find_Some in Hf' as (Hj & Hk' & Hfirst').
        erewrite (proj2 (list_find_Some _ _ j (k1, v1))); [done|].
        split; [by rewrite lookup_app_l by (by eapply lookup_lt_Some)|].
        split; [done|]. intros j' y Hj' Hlt.
        rewrite lookup_app_l in Hj'
          by (apply lookup_lt_Some in Hj; lia).
        by eapply Hfirst'.
      * rewrite (proj2 (list_find_None _ _)); [done|].
        apply list_find_None in Hf'. apply Forall_app. split; [done|].
        by apply Forall_singleton.
Qed.
End MapLaws.

(** ** The history, bucket by bucket *)

Lemma bucket_of_snoc LocalTZA query_period l t key :
  bucket_of LocalTZA query_period (l ++ [t]) key
  = if decide (bucketKey LocalTZA query_period (createdAt t) = key)
    then
      let e := default (mkHistoryEntry key 0 0)
                 (bucket_of LocalTZA query_period l key) in
      Some (mkHistoryEntry key (total e + 1)
              (h_completed e + if completed t then 1 else 0))
    else bucket_of LocalTZA query_period l key.
Proof.
  unfold bucket_of. cbv zeta. rewrite filter_app, filter_cons, filter_nil.
  destruct (decide (bucketKey LocalTZA query_period (createdAt t) = key))
    as [Hk|Hk]; [|by rewrite app_nil_r].
  set (b := filter _ l).
  rewrite decide_False by (by destruct b).
  rewrite filter_app, !length_app, filter_cons, filter_nil.
  destruct (decide (b = [])) as [->|Hb]; cbn;
    destruct (completed t); [rewrite decide_True by done|
                             rewrite decide_False by done|
                             rewrite decide_True by done|
                             rewrite decide_False by done];
    cbn [length]; f_equal; f_equal; lia.
Qed.

Lemma history_step_bucket LocalTZA query_period map l t :
  (∀ key, Map_get key map = bucket_of LocalTZA query_period l key) →
  ∃ map',
    history_step LocalTZA query_period map t = Some map'
    ∧ ∀ key, Map_get key map' = bucket_of LocalTZA query_period (l ++ [t]) key.
Proof.
  intros Hinv. unfold history_step. cbv zeta.
  set (k := bucketKey LocalTZA query_period (createdAt t)).
  set (map1 := if negb (Map_has k map) then _ else map).
  assert (Map_get k map1
          = Some (default (mkHistoryEntry k 0 0)
                    (bucket_of LocalTZA query_period l k))
          ∧ ∀ key, k ≠ key → Map_get key map1 = Map_get key map)
    as [Hget Hother].
  { unfold map1. rewrite Map_has_get, Hinv.
    destruct (bucket_of LocalTZA query_period l k) as [e|] eqn:Hb.
    - rewrite bool_decide_eq_true_2 by (by eexists). cbn [negb default].
      by rewrite Hinv, Hb.
    - rewrite bool_decide_eq_false_2 by (by intros [? ?]). cbn [negb default].
      split; [by rewrite Map_get_set, decide_True|].
      intros key Hne. by rewrite Map_get_set, decide_False. }
  rewrite Hget. cbn. eexists. split; [reflexivity|].
  intros key. rewrite Map_get_set, bucket_of_snoc. fold k.
  destruct (decide (k = key)) as [<-|Hne].
  - f_equal. set (e := default _ _).
    assert (period e = k) as Hp.
    { unfold e, bucket_of. cbv zeta. by destruct (decide _). }
    destruct (completed t); cbn; rewrite Hp; f_equal; lia.
  - by rewrite Hother, Hinv.
Qed.

Lemma forEach_history_bucket LocalTZA query_period tasks map l :
  (∀ key, Map_get key map = bucket_of LocalTZA query_period l key) →
  ∃ map',
    forEach (history_step LocalTZA query_period) tasks map = Some map'
    ∧ ∀ key,
        Map_get key map' = bucket_of LocalTZA query_period (l ++ tasks) key.
Proof.
  revert map l. induction tasks as [|t tasks IH]; intros map l Hinv.
  - exists map. by rewrite app_nil_r.
  - destruct (history_step_bucket _ _ _ _ t Hinv) as (map1 & Hstep & Hinv1).
    destruct (IH map1 (l ++ [t]) Hinv1) as (map' & Hrun & Hinv').
    exists map'. cbn. rewrite Hstep. cbn. split; [done|].
    intros key. by rewrite Hinv', <- app_assoc.
Qed.

(** X1.  The history has exactly one entry for each key that a task of
    the family has, and none else; the entry's [total] is the number of
    the family's tasks with that key and its [completed] the number of
    the completed ones among them. *)
Theorem history_buckets LocalTZA query_period familyId s fam :
  authenticate s familyId = Some fam →
  ∃ entries,
    history LocalTZA query_period familyId s = (s, Sent 200 entries)
    ∧ ∀ e,
        e ∈ entries ↔
        bucket_of LocalTZA (default week query_period)
          (filter (λ t, family t = f_id fam) (tasks s)) (period e)
        = Some e.
Proof.
  intros Ha. unfold history, with_family, find. rewrite Ha.
  set (p := default week query_period).
  set (l := filter (λ t, family t = f_id fam) (tasks s)).
  destruct (forEach_history_sums LocalTZA p l [])
    as (map & Hrun & Hok & _).
  { split; [apply NoDup_nil_2|apply Forall_nil_2]. }
  destruct (forEach_history_bucket LocalTZA p l [] [])
    as (map' & Hrun' & Hinv).
  { intros key. unfold bucket_of. cbn. by rewrite decide_True. }
  rewrite Hrun in Hrun'. injection Hrun' as <-.
  rewrite Hrun. eexists. split; [reflexivity|].
  intros e. unfold Map_values.
  rewrite (merge_sort_Permutation period_le map.*2).
  cbn in Hinv. setoid_rewrite <- Hinv.
  destruct Hok as [Hnd Hper]. split.
  - intros ((k & e') & -> & Hin)%list_elem_of_fmap. cbn.
    rewrite Forall_forall in Hper. specialize (Hper _ Hin). cbn in Hper.
    rewrite Hper. by apply Map_get_elem_of.
  - intros Hg%Map_get_Some. apply list_elem_of_fmap.
    by exists (period e, e).
Qed.

(** ** What a request changes *)

Lemma save_task_stored_shape now i t0 t s s' :
  store_ok s → tasks s !! i = Some t0 → t_id t = t_id t0 →
  save_task now (Some t0) t s = Some s' →
  families s' = families s ∧ next_oid s' = next_oid s
  ∧ (tasks s' = tasks s ∨ tasks s' = <[i := set_updatedAt now t]> (tasks s)).
Proof.
  intros Hok Hi Hid (_ & [->| ->])%save_task_Some; [by auto|].
  cbn. split; [done|]. split; [done|]. right.
  apply (upsert_stored t_id _ i t0); [apply Hok|done|done].
Qed.

Lemma save_task_new_shape now t s s' :
  Forall (λ d, t_id d ≠ t_id t) (tasks s) →
  save_task now None t s = Some s' →
  families s' = families s ∧ next_oid s' = next_oid s
  ∧ tasks s' = tasks s ++ [set_updatedAt now t].
Proof.
  intros Hnew. unfold save_task. destruct (valid_task t); [|done].
  rewrite decide_False by done. intros [= <-]. cbn.
  by rewrite (upsert_new t_id) by done.
Qed.

Lemma save_family_stored_shape now k f0 f s s' :
  store_ok s → families s !! k = Some f0 → f_id f = f_id f0 →
  save_family now (Some f0) f s = Some s' →
  tasks s' = tasks s ∧ next_oid s' = next_oid s
  ∧ (families s' = families s
     ∨ families s' = <[k := set_f_updatedAt now f]> (families s)).
Proof.
  intros Hok Hk Hid (_ & [->| ->])%save_family_Some; [by auto|].
  cbn. split; [done|]. split; [done|]. right.
  apply (upsert_stored f_id _ k f0); [apply Hok|done|done].
Qed.

Lemma save_family_new_shape now f s s' :
  Forall (λ d, f_id d ≠ f_id f) (families s) →
  save_family now None f s = Some s' →
  tasks s' = tasks s ∧ next_oid s' = next_oid s
  ∧ families s' = families s ++ [set_f_updatedAt now f]
  ∧ valid_family f.
Proof.
  intros Hnew. unfold save_family. destruct (valid_family f); [|done].
  rewrite decide_False by done. intros [= <-]. cbn.
  by rewrite (upsert_new f_id) by done.
Qed.

Lemma fresh_task_id s n :
  store_ok s → Forall (λ d, t_id d ≠ next_oid s) (tasks (take_oids n s)).
Proof.
  intros [Htv Hfv Htn Hfn Htf Hff]. cbn. eapply Forall_impl; [exact Htf|].
  cbn. intros t. lia.
Qed.

Lemma fresh_family_id s n :
  store_ok s → Forall (λ d, f_id d ≠ next_oid s) (families (take_oids n s)).
Proof.
  intros [Htv Hfv Htn Hfn Htf Hff]. cbn. eapply Forall_impl; [exact Hff|].
  cbn. intros t. lia.
Qed.

Lemma new_members_fields first body_members :
  (λ m, (m_name m, score m)) <$> new_members first body_members
  = (λ b, (mi_name b, default (Number_of_Z 0) (mi_score b))) <$> body_members.
Proof.
  revert first. induction body_members as [|b body_members IH]; intros first;
    [done|].
  cbn. by rewrite IH.
Qed.

(** How one request changes the task collection: not at all, or one task
    of the requesting family is replaced in place by a task with the same
    id and creation date, or a new uncompleted task of that family is
    appended, or one task of that family is removed.  The task that
    replaces another has its family unless the request is a [PUT] with a
    [family]; its comments extend the old ones and its [completedAt] is
    set if it was, unless the request is a [PUT] with keys beyond the
    declared ones. *)
Lemma step_tasks s r :
  store_ok s →
  tasks (step s r) = tasks s
  ∨ (∃ fam i t0 t',
       request_family r = Some (f_id fam) ∧ fam ∈ families s
       ∧ tasks s !! i = Some t0 ∧ family t0 = f_id fam
       ∧ t_id t' = t_id t0 ∧ createdAt t' = createdAt t0
       ∧ (¬ moves_task r → family t' = family t0)
       ∧ (declared_update r →
          comments t0 `prefix_of` comments t'
          ∧ (is_Some (completedAt t0) → is_Some (completedAt t')))
       ∧ tasks (step s r) = <[i := t']> (tasks s))
  ∨ (∃ fam t',
       request_family r = Some (f_id fam) ∧ fam ∈ families s
       ∧ family t' = f_id fam ∧ t_id t' = next_oid s
       ∧ completed t' = false ∧ completedAt t' = None ∧ comments t' = []
       ∧ tasks (step s r) = tasks s ++ [t'])
  ∨ (∃ fam i t0,
       request_family r = Some (f_id fam) ∧ fam ∈ families s
       ∧ tasks s !! i = Some t0 ∧ family t0 = f_id fam
       ∧ tasks (step s r) = delete i (tasks s)).
Proof.
  intros Hok.
  assert (∀ now fam id t0 t s',
            authenticate s (f_id fam) = Some fam →
            findOne (λ t', t_id t' = id ∧ family t' = f_id fam) (tasks s)
            = Some t0 →
            t_id t = t_id t0 → createdAt t = createdAt t0 →
            (¬ moves_task r → family t = family t0) →
            (declared_update r →
             comments t0 `prefix_of` comments t
             ∧ (is_Some (completedAt t0) → is_Some (completedAt t))) →
            save_task now (Some t0) t s = Some s' →
            tasks s' = tasks s
            ∨ ∃ fam' i t0 t',
                Some (f_id fam) = Some (f_id fam') ∧ fam' ∈ families s
                ∧ tasks s !! i = Some t0 ∧ family t0 = f_id fam'
                ∧ t_id t' = t_id t0 ∧ createdAt t' = createdAt t0
                ∧ (¬ moves_task r → family t' = family t0)
                ∧ (declared_update r →
                   comments t0 `prefix_of` comments t'
                   ∧ (is_Some (completedAt t0) → is_Some (completedAt t')))
                ∧ tasks s' = <[i := t']> (tasks s)) as Hsave.
  { intros now fam id t0 t s' Ha Hf Hid Hcr Hfam Hkeep Hs.
    destruct (findOne_lookup _ _ _ Hf) as [[_ Hfam0] [i Hi]].
    destruct (save_task_stored_shape _ _ _ _ _ _ Hok Hi Hid Hs)
      as (_ & _ & [?| ->]); [by left|].
    right. exists fam, i, t0, (set_updatedAt now t).
    split; [done|]. split; [by eapply authenticate_elem_of|].
    repeat split; try done; cbn; tauto. }
  destruct r; cbn.
  - (* register *)
    left. unfold register. destruct (findOne _ (families s)); [done|].
    destruct (save_family _ _ _ _) as [s'|] eqn:Hs; [|done]. cbn.
    by rewrite (save_family_tasks _ _ _ _ _ Hs).
  - (* create_member *)
    left. unfold create_member, with_family.
    destruct (authenticate s familyId) as [fam|]; [|done].
    destruct (save_family _ _ _ _) as [s'|] eqn:Hs; [|done].
    apply save_family_tasks in Hs. cbn in Hs.
    destruct (last _); cbn; by rewrite Hs.
  - (* create_task *)
    unfold create_task, with_family.
    destruct (authenticate s familyId) as [fam|] eqn:Ha; [|by left].
    destruct (save_task _ _ _ _) as [s'|] eqn:Hs; [|by left]. cbn.
    apply save_task_new_shape in Hs as (_ & _ & ->);
      [|by apply fresh_task_id].
    right. right. left.
    destruct (authenticate_Some _ _ _ Ha) as [<- _].
    eexists fam, _. repeat split; [by eapply authenticate_elem_of|done..].
  - (* update_task *)
    unfold update_task, with_family.
    destruct (authenticate s familyId) as [fam|] eqn:Ha; [|by left].
    destruct (authenticate_Some _ _ _ Ha) as [<- _].
    destruct (findOne _ (tasks s)) as [t0|] eqn:Hf; [|by left].
    fold (updated now update t0).
    destruct (rejected update); [by left|].
    destruct (save_task _ _ _ _) as [s'|] eqn:Hs; [|by left]. cbn.
    destruct (updated_fields now update t0)
      as (Hid & Hfam & _ & Hcm & _ & Hat & Hcr).
    eapply (Hsave _ fam) in Hs; [|done..| |].
    + destruct Hs as [?|?]; [by left|right; by left].
    + cbn. intros Hmove. rewrite Hfam.
      destruct (u_family update) as [[|g|]|]; try done.
      destruct Hmove. by exists g.
    + cbn. intros (Hdat & _ & Hdcm). rewrite Hcm, Hat, Hdat, Hdcm.
      split; [done|]. intros [d ->].
      by destruct (u_completed update) as [[]|].
  - (* delete_task *)
    unfold delete_task, with_family, deleteOne.
    destruct (authenticate s familyId) as [fam|] eqn:Ha; [|by left].
    destruct (authenticate_Some _ _ _ Ha) as [<- _].
    destruct (list_find _ (tasks s)) as [[i t0]|] eqn:Hf; [|by left].
    rewrite decide_False by done. cbn.
    apply list_find_Some in Hf as (Hi & [_ Hfam] & _).
    right. right. right. exists fam, i, t0.
    repeat split; [by eapply authenticate_elem_of|done..].
  - (* assign_task *)
    unfold assign_task, with_family.
    destruct (authenticate s familyId) as [fam|] eqn:Ha; [|by left].
    destruct (authenticate_Some _ _ _ Ha) as [<- _].
    destruct (findOne _ (tasks s)) as [t0|] eqn:Hf; [|by left].
    destruct (negb _); [by left|].
    destruct (save_task _ _ _ _) as [s'|] eqn:Hs; [|by left]. cbn.
    eapply (Hsave _ fam) in Hs; [|done..].
    destruct Hs as [?|?]; [by left|right; by left].
  - (* complete_task *)
    unfold complete_task, with_family.
    destruct (authenticate s familyId) as [fam|] eqn:Ha; [|by left].
    destruct (authenticate_Some _ _ _ Ha) as [<- _].
    destruct (findOne _ (tasks s)) as [t0|] eqn:Hf; [|by left].
    destruct (completed t0); [by left|].
    destruct (save_task _ _ _ _) as [s'|] eqn:Hs; [|by left].
    match goal with
    | |- context [tasks (match ?found with Some _ => _ | None => _ end).1] =>
        assert (tasks (match found with
                       | Some (j, m) =>
                           match save_family now (Some fam)
                                   (set_members
                                      (<[j := set_score (credit (score m)) m]>
                                         (members fam)) fam) s' with
                           | Some s'' =>
                               (s'', Sent 200 (mkCompleteView (t_id t0) true
                                                 None None))
                           | None => (s', Thrown "ValidationError")
                           end
                       | None =>
                           (s', Sent 200 (mkCompleteView (t_id t0) true None
                                            None))
                       end).1 = tasks s') as Htasks
    end.
    { destruct (if truthy _ then _ else _) as [[j m]|]; [|done].
      destruct (save_family _ _ _ _) as [s''|] eqn:Hs'; [|done]. cbn.
      by rewrite (save_family_tasks _ _ _ _ _ Hs'). }
    assert (∀ (X Y : Store * Reply CompleteView), X.1 = Y.1 →
              tasks X.1 = tasks Y.1) as Hfst by (by intros ?? ->).
    match goal with |- context [tasks (?X).1] =>
      assert (tasks X.1 = tasks s') as ->
    end.
    { rewrite <- Htasks. apply Hfst.
      destruct (if truthy _ then _ else _) as [[j m]|]; [|done].
      by destruct (save_family _ _ _ _). }
    eapply (Hsave _ fam) in Hs;
      [|first [done | by (intros _; split; [|intros _; eexists])]..].
    destruct Hs as [?|?]; [by left|right; by left].
  - (* add_comment *)
    unfold add_comment, with_family.
    destruct (authenticate s familyId) as [fam|] eqn:Ha; [|by left].
    destruct (authenticate_Some _ _ _ Ha) as [<- _].
    destruct (findOne _ (tasks s)) as [t0|] eqn:Hf; [|by left].
    destruct (save_task _ _ _ _) as [s'|] eqn:Hs; [|by left]. cbn.
    eapply (Hsave _ fam) in Hs;
      [|first [done | by (intros _; split; [apply prefix_app_r|])]..].
    destruct Hs as [?|?]; [by left|right; by left].
Qed.

Lemma save_task_families now t0 t s s' :
  save_task now t0 t s = Some s' → families s' = families s.
Proof. by intros (_ & [->| ->])%save_task_Some. Qed.

(** How one request changes the family collection: not at all, or a
    registration appends a family with an unused code and the members of
    its body, or a member with score 0 is appended to the requesting
    family, or a completion replaces the score of one member of the
    requesting family by that score plus 1. *)
Lemma step_families s r :
  store_ok s →
  families (step s r) = families s
  ∨ (∃ now hash name family_code body_members,
       r = Register now hash name family_code body_members
       ∧ Forall (λ g, code g ≠ family_code) (families s)
       ∧ families (step s r)
         = families s
           ++ [mkFamily (next_oid s) name family_code hash
                 (new_members (next_oid s + 1)%N body_members) now now])
  ∨ (∃ k f0 m now,
       request_family r = Some (f_id f0) ∧ is_completion r = false
       ∧ families s !! k = Some f0 ∧ score m = Number_of_Z 0
       ∧ families (step s r)
         = <[k := set_f_updatedAt now
                    (set_members (members f0 ++ [m]) f0)]> (families s))
  ∨ (∃ k f0 j m now,
       request_family r = Some (f_id f0) ∧ is_completion r = true
       ∧ families s !! k = Some f0 ∧ members f0 !! j = Some m
       ∧ families (step s r)
         = <[k := set_f_updatedAt now
                    (set_members
                       (<[j := set_score (credit (score m)) m]> (members f0))
                       f0)]> (families s)).
Proof.
  intros Hok. destruct r; cbn.
  - (* register *)
    unfold register.
    destruct (findOne _ (families s)) eqn:Hf; [by left|].
    apply findOne_None in Hf.
    destruct (save_family _ _ _ _) as [s'|] eqn:Hs; [|by left]. cbn.
    apply save_family_new_shape in Hs as (_ & _ & -> & _);
      [|by apply fresh_family_id].
    right. left. by exists now, hash, name, family_code, body_members.
  - (* create_member *)
    unfold create_member, with_family.
    destruct (authenticate s familyId) as [fam|] eqn:Ha; [|by left].
    destruct (authenticate_Some _ _ _ Ha) as [<- [k Hk]].
    destruct (save_family _ _ _ _) as [s'|] eqn:Hs; [|by left].
    apply (save_family_stored_shape _ k) in Hs as (_ & _ & Hs);
      [|by apply take_oids_ok|done..].
    assert (∀ (X : Store * Reply MemberView), X.1 = s' →
              families X.1 = families s') as Hfst by (by intros ? ->).
    rewrite (Hfst _) by (by destruct (last _)).
    destruct Hs as [->| ->]; [by left|].
    right. right. left.
    by exists k, fam, (mkMember (next_oid s) name (Number_of_Z 0)), now.
  - (* create_task *)
    left. unfold create_task, with_family.
    destruct (authenticate s familyId) as [fam|]; [|done].
    destruct (save_task _ _ _ _) as [s'|] eqn:Hs; [|done]. cbn.
    by rewrite (save_task_families _ _ _ _ _ Hs).
  - left. apply update_task_families.
  - (* delete_task *)
    left. unfold delete_task, with_family, deleteOne.
    destruct (authenticate s familyId) as [fam|]; [|done].
    destruct (list_find _ (tasks s)) as [[i t0]|]; [|done].
    by rewrite decide_False.
  - (* assign_task *)
    left. unfold assign_task, with_family.
    destruct (authenticate s familyId) as [fam|]; [|done].
    destruct (findOne _ (tasks s)) as [t0|]; [|done].
    destruct (negb _); [done|].
    destruct (save_task _ _ _ _) as [s'|] eqn:Hs; [|done]. cbn.
    by rewrite (save_task_families _ _ _ _ _ Hs).
  - (* complete_task *)
    unfold complete_task, with_family.
    destruct (authenticate s familyId) as [fam|] eqn:Ha; [|by left].
    destruct (authenticate_Some _ _ _ Ha) as [<- [k Hk]].
    destruct (findOne _ (tasks s)) as [t0|] eqn:Hf; [|by left].
    destruct (completed t0); [by left|].
    destruct (save_task _ _ _ _) as [s'|] eqn:Hs; [|by left].
    assert (store_ok s') as Hok'.
    { eapply save_task_ok; [done| |exact Hs]. cbn.
      apply stored_task_fresh; [done|]. by eapply findOne_elem_of. }
    apply save_task_families in Hs.
    destruct (if truthy _ then _ else _) as [[j m]|] eqn:Hfind;
      [|left; by rewrite <- Hs].
    assert (members fam !! j = Some m) as Hj.
    { destruct (truthy _); [|done].
      by apply list_find_Some in Hfind as (? & _). }
    destruct (save_family _ _ _ _) as [s''|] eqn:Hs'; [|left; by rewrite <- Hs].
    cbn. rewrite <- Hs in Hk.
    apply (save_family_stored_shape _ k) in Hs' as (_ & _ & [->| ->]);
      [by left| |done..].
    right. right. right. exists k, fam, j, m, now.
    rewrite Hs in Hk. by rewrite Hs.
  - (* add_comment *)
    left. unfold add_comment, with_family.
    destruct (authenticate s familyId) as [fam|]; [|done].
    destruct (findOne _ (tasks s)) as [t0|]; [|done].
    destruct (save_task _ _ _ _) as [s'|] eqn:Hs; [|done]. cbn.
    by rewrite (save_task_families _ _ _ _ _ Hs).
Qed.

(** ** Tenants *)

Lemma filter_insert_skip {A} (P : A → Prop) `{∀ x, Decision (P x)}
    (l : list A) i x y :
  l !! i = Some x → ¬ P x → ¬ P y → filter P (<[i := y]> l) = filter P l.
Proof.
  revert i. induction l as [|z l IH]; intros [|i] Hi Hx Hy; try done.
  - injection Hi as ->. change (<[0%nat := y]> (x :: l)) with (y :: l).
    by rewrite !filter_cons, !decide_False.
  - change (l !! i = Some x) in Hi.
    change (<[S i := y]> (z :: l)) with (z :: <[i := y]> l).
    by rewrite !filter_cons, (IH i).
Qed.

Lemma filter_delete_skip {A} (P : A → Prop) `{∀ x, Decision (P x)}
    (l : list A) i x :
  l !! i = Some x → ¬ P x → filter P (delete i l) = filter P l.
Proof.
  revert i. induction l as [|z l IH]; intros [|i] Hi Hx; try done.
  - injection Hi as ->. change (delete 0%nat (x :: l)) with l.
    by rewrite filter_cons, decide_False.
  - change (l !! i = Some x) in Hi.
    change (delete (S i) (z :: l)) with (z :: delete i l).
    by rewrite !filter_cons, (IH i).
Qed.

Lemma filter_snoc_skip {A} (P : A → Prop) `{∀ x, Decision (P x)}
    (l : list A) y :
  ¬ P y → filter P (l ++ [y]) = filter P l.
Proof.
  intros Hy.
  by rewrite filter_app, filter_cons, decide_False, filter_nil, app_nil_r.
Qed.

Lemma step_tasks_other s r familyId :
  store_ok s → request_family r = Some familyId → ¬ moves_task r →
  filter (λ t, family t ≠ familyId) (tasks (step s r))
  = filter (λ t, family t ≠ familyId) (tasks s).
Proof.
  intros Hok Hreq Hmove.
  destruct (step_tasks s r Hok)
    as [->|[(fam & i & t0 & t' & Hr & _ & Hi & Hf0 & _ & _ & Hf' & _ & ->)
       |[(fam & t' & Hr & _ & Hf' & _ & _ & _ & _ & ->)
        |(fam & i & t0 & Hr & _ & Hi & Hf0 & ->)]]]; [done|..];
    rewrite Hreq in Hr; injection Hr as ->.
  - specialize (Hf' Hmove).
    apply (filter_insert_skip _ _ _ t0); [done|..]; intros Hne; congruence.
  - apply filter_snoc_skip. intros Hne. congruence.
  - apply (filter_delete_skip _ _ _ t0); [done|]. intros Hne. congruence.
Qed.

Lemma step_families_other s r familyId :
  store_ok s → request_family r = Some familyId →
  filter (λ f, f_id f ≠ familyId) (families (step s r))
  = filter (λ f, f_id f ≠ familyId) (families s).
Proof.
  intros Hok Hreq.
  destruct (step_families s r Hok)
    as [->|[(now & hash & name & family_code & body_members & -> & _)
       |[(k & f0 & m & now & Hr & _ & Hk & _ & ->)
        |(k & f0 & j & m & now & Hr & _ & Hk & _ & ->)]]];
    [done|by cbn in Hreq|..];
    rewrite Hreq in Hr; injection Hr as ->;
    (apply (filter_insert_skip _ _ _ f0); [done|..]); intros Hne; by apply Hne.
Qed.

Lemma step_registration s r :
  store_ok s → request_family r = None →
  tasks (step s r) = tasks s
  ∧ ∃ new, families (step s r) = families s ++ new.
Proof.
  intros Hok Hreq. split.
  - destruct (step_tasks s r Hok)
      as [->|[(fam & i & t0 & t' & Hr & _)
         |[(fam & t' & Hr & _)|(fam & i & t0 & Hr & _)]]]; [done|..];
      rewrite Hreq in Hr; done.
  - destruct (step_families s r Hok)
      as [->|[(now & hash & name & family_code & body_members & _ & _ & ->)
         |[(k & f0 & m & now & Hr & _)
          |(k & f0 & j & m & now & Hr & _)]]].
    + exists []. by rewrite app_nil_r.
    + by eexists.
    + rewrite Hreq in Hr. done.
    + rewrite Hreq in Hr. done.
Qed.

(** X5.  A request made as one family leaves the documents of every other
    family as they are, and their tasks too unless it is a [PUT] whose
    body names a [family]; a registration leaves every task and every
    registered family as it is. *)
Theorem other_tenants_untouched s r :
  store_ok s →
  match request_family r with
  | Some familyId =>
      (¬ moves_task r →
       filter (λ t, family t ≠ familyId) (tasks (step s r))
       = filter (λ t, family t ≠ familyId) (tasks s))
      ∧ filter (λ f, f_id f ≠ familyId) (families (step s r))
        = filter (λ f, f_id f ≠ familyId) (families s)
  | None =>
      tasks (step s r) = tasks s
      ∧ ∃ new, families (step s r) = families s ++ new
  end.
Proof.
  intros Hok. destruct (request_family r) as [familyId|] eqn:Hreq.
  - split; [by apply step_tasks_other|by apply step_families_other].
  - by apply step_registration.
Qed.

(** ** Codes, scores and the history of a task *)

Lemma step_codes s r :
  store_ok s → NoDup (code <$> families s) →
  NoDup (code <$> families (step s r)).
Proof.
  intros Hok Hnd.
  destruct (step_families s r Hok)
    as [->|[(now & hash & name & family_code & body_members & _ & Hnew & ->)
       |[(k & f0 & m & now & _ & _ & Hk & _ & ->)
        |(k & f0 & j & m & now & _ & _ & Hk & _ & ->)]]]; [done|..].
  - rewrite fmap_app. apply NoDup_app. repeat split; [done| |].
    + intros c Hc ->%list_elem_of_singleton.
      apply list_elem_of_fmap in Hc as (g & Hg & Hin).
      rewrite Forall_forall in Hnew. by apply (Hnew g).
    + apply NoDup_singleton.
  - rewrite list_fmap_insert. cbn.
    rewrite list_insert_id; [done|]. by rewrite list_lookup_fmap, Hk.
  - rewrite list_fmap_insert. cbn.
    rewrite list_insert_id; [done|]. by rewrite list_lookup_fmap, Hk.
Qed.

(** X6.  Whatever requests the service has handled, no two families have
    the same code. *)
Theorem codes_unique requests :
  NoDup (code <$> families (run requests empty_store)).
Proof.
  assert (∀ s, store_ok s → NoDup (code <$> families s) →
               NoDup (code <$> families (run requests s))) as Hrun.
  { induction requests as [|r requests IH]; intros s Hok Hnd; [done|].
    cbn. apply IH; [by apply step_store_ok|by apply step_codes]. }
  apply Hrun; [apply empty_store_ok|constructor].
Qed.

(** X7.  A request keeps every family and every member in its place, with
    the same ids and names; a member's score is unchanged, except that a
    completion request may replace it by the double nearest to that score
    plus 1, which is the next integer when the score is an integer from
    [-2^53] to [2^53 - 1]. *)
Theorem scores_only_grow s r k f j m :
  store_ok s →
  families s !! k = Some f → members f !! j = Some m →
  ∃ f' m',
    families (step s r) !! k = Some f' ∧ f_id f' = f_id f
    ∧ f_name f' = f_name f ∧ code f' = code f
    ∧ members f' !! j = Some m'
    ∧ m_id m' = m_id m ∧ m_name m' = m_name m
    ∧ (score m' = score m
       ∨ is_completion r = true ∧ score m' = credit (score m)
         ∧ ∀ n, - 2 ^ 53 ≤ n < 2 ^ 53 → score m = Number_of_Z n →
                score m' = Number_of_Z (n + 1)).
Proof.
  intros Hok Hk Hj.
  destruct (step_families s r Hok)
    as [->|[(now & hash & name & family_code & body_members & _ & _ & ->)
       |[(k0 & f0 & m0 & now & _ & _ & Hk0 & _ & ->)
        |(k0 & f0 & j0 & m0 & now & _ & Hc & Hk0 & Hj0 & ->)]]].
  - exists f, m. repeat split; try done. by left.
  - exists f, m. rewrite lookup_app_l by (by eapply lookup_lt_Some).
    repeat split; try done. by left.
  - destruct (decide (k = k0)) as [->|Hne].
    + assert (f0 = f) as -> by congruence.
      eexists _, m.
      rewrite list_lookup_insert_eq by (by eapply lookup_lt_Some).
      split; [done|]. cbn.
      rewrite lookup_app_l by (by eapply lookup_lt_Some).
      repeat split; try done. by left.
    + exists f, m. rewrite list_lookup_insert_ne by done.
      repeat split; try done. by left.
  - destruct (decide (k = k0)) as [->|Hne].
    + assert (f0 = f) as -> by congruence.
      destruct (decide (j = j0)) as [->|Hnej].
      * assert (m0 = m) as -> by congruence.
        eexists _, (set_score (credit (score m)) m).
        rewrite list_lookup_insert_eq by (by eapply lookup_lt_Some).
        split; [done|]. cbn.
        rewrite list_lookup_insert_eq by (by eapply lookup_lt_Some).
        repeat split; try done. right. repeat split; try done.
        intros n Hn ->. by apply credit_integer.
      * eexists _, m.
        rewrite list_lookup_insert_eq by (by eapply lookup_lt_Some).
        split; [done|]. cbn. rewrite list_lookup_insert_ne by done.
        repeat split; try done. by left.
    + exists f, m. rewrite list_lookup_insert_ne by done.
      repeat split; try done. by left.
Qed.

Lemma new_members_scoreless first body_members :
  Forall (λ b, mi_score b = None) body_members →
  Forall (λ m, score m = Number_of_Z 0) (new_members first body_members).
Proof.
  intros Hall. revert first.
  induction Hall as [|b body_members Hb _ IH]; intros first;
    [constructor|].
  cbn. constructor; [by rewrite Hb|apply IH].
Qed.

Lemma credit_counted x :
  counted x → counted (credit x).
Proof.
  intros (n & Hn & ->).
  destruct (decide (n = 2 ^ 53)) as [->|Hne].
  - exists (2 ^ 53). split; [done|]. apply credit_2_53.
  - exists (n + 1). split; [lia|]. apply credit_integer. lia.
Qed.

Lemma step_scores_counted s r :
  store_ok s → scoreless r →
  Forall (λ f, Forall (λ m, counted (score m)) (members f)) (families s) →
  Forall (λ f, Forall (λ m, counted (score m)) (members f))
    (families (step s r)).
Proof.
  intros Hok Hr Hall.
  destruct (step_families s r Hok)
    as [->|[(now & hash & name & family_code & body_members & -> & _ & ->)
       |[(k0 & f0 & m0 & now & _ & _ & Hk0 & Hz & ->)
        |(k0 & f0 & j0 & m0 & now & _ & Hc & Hk0 & Hj0 & ->)]]]; [done|..].
  - apply Forall_app. split; [done|]. apply Forall_singleton. cbn.
    eapply Forall_impl; [by apply new_members_scoreless|]. cbn.
    intros m ->. by exists 0.
  - apply Forall_insert; [done|]. cbn.
    eapply Forall_lookup_1 in Hk0; [|exact Hall]. cbn in Hk0.
    apply Forall_app. split; [done|]. apply Forall_singleton.
    rewrite Hz. by exists 0.
  - apply Forall_insert; [done|]. cbn.
    eapply Forall_lookup_1 in Hk0; [|exact Hall]. cbn in Hk0.
    apply Forall_insert; [done|]. cbn.
    eapply Forall_lookup_1 in Hj0; [|exact Hk0]. cbn in Hj0.
    by apply credit_counted.
Qed.

(** X8.  Whatever requests the service has handled, if no registration
    among them gave a member a [score], every member's score is an integer
    from 0 to [2^53]. *)
Theorem scores_nonnegative requests :
  Forall scoreless requests →
  Forall (λ f, Forall (λ m, counted (score m)) (members f))
    (families (run requests empty_store)).
Proof.
  assert (∀ s, store_ok s → Forall scoreless requests →
               Forall (λ f, Forall (λ m, counted (score m)) (members f))
                 (families s) →
               Forall (λ f, Forall (λ m, counted (score m)) (members f))
                 (families (run requests s))) as Hrun.
  { induction requests as [|r requests IH]; intros s Hok Hrs Hall; [done|].
    apply Forall_cons in Hrs as [Hr Hrs].
    cbn. apply IH; [by apply step_store_ok|done|by apply step_scores_counted]. }
  intros Hrs. apply Hrun; [apply empty_store_ok|done|constructor].
Qed.

Lemma same_id_eq {A} (id : A → ObjectId) (l : list A) x y :
  NoDup (id <$> l) → x ∈ l → y ∈ l → id x = id y → x = y.
Proof.
  intros Hnd [i Hi]%list_elem_of_lookup [j Hj]%list_elem_of_lookup Hid.
  assert (i = j) as -> by (eapply (same_id_same_index id); eauto).
  congruence.
Qed.

(** X9.  Through any request, a task keeps its creation date; it keeps its
    family unless the request is a [PUT] whose body names a [family]; and
    unless the request is a [PUT] with a key beyond the declared ones, its
    earlier comments stay in place at the head of its comments and a
    [completedAt] that is set stays set. *)
Theorem task_history_kept s r t t' :
  store_ok s →
  t ∈ tasks s → t' ∈ tasks (step s r) → t_id t' = t_id t →
  createdAt t' = createdAt t
  ∧ (¬ moves_task r → family t' = family t)
  ∧ (declared_update r →
     comments t `prefix_of` comments t'
     ∧ (is_Some (completedAt t) → is_Some (completedAt t'))).
Proof.
  intros Hok Hin Hin' Hid.
  assert (∀ x, x ∈ tasks s → t_id x = t_id t → x = t) as Huniq.
  { intros x Hx Hx'. by apply (same_id_eq t_id (tasks s)); [apply Hok|..]. }
  destruct (step_tasks s r Hok)
    as [Ht|[(fam & i & t0 & t1 & _ & _ & Hi & _ & Hid1 & Hcr & Hf1 & Hkeep
             & Ht)
       |[(fam & t1 & _ & _ & _ & Hid1 & _ & _ & _ & Ht)
        |(fam & i & t0 & _ & _ & Hi & _ & Ht)]]];
    rewrite Ht in Hin'.
  - by rewrite (Huniq t' Hin' Hid).
  - apply list_elem_of_lookup in Hin' as [i' Hi'].
    destruct (decide (i' = i)) as [->|Hne].
    + rewrite list_lookup_insert_eq in Hi' by (by eapply lookup_lt_Some).
      injection Hi' as <-.
      assert (t0 = t) as ->.
      { apply Huniq; [by eapply list_elem_of_lookup_2|congruence]. }
      done.
    + rewrite list_lookup_insert_ne in Hi' by done.
      by rewrite (Huniq t' (list_elem_of_lookup_2 _ _ _ Hi') Hid).
  - apply elem_of_app in Hin' as [Hin'|Hnew].
    + by rewrite (Huniq t' Hin' Hid).
    + apply list_elem_of_singleton in Hnew. subst t'.
      pose proof (stored_task_fresh s t Hok Hin). lia.
  - assert (t' ∈ tasks s) as Hin''.
    { by eapply list_elem_of_delete_inv. }
    by rewrite (Huniq t' Hin'' Hid).
Qed.

(** ** Registration, members and new tasks *)

Lemma valid_new_members first body_members :
  forallb valid_member (new_members first body_members)
  = forallb nonempty (mi_name <$> body_members).
Proof.
  revert first. induction body_members as [|b body_members IH]; intros first;
    [done|].
  cbn. by rewrite IH.
Qed.

Lemma new_members_ids first body_members :
  m_id <$> new_members first body_members
  = imap (λ i b, default (first + N.of_nat i)%N (mi_id b)) body_members.
Proof.
  revert first. induction body_members as [|b body_members IH]; intros first;
    [done|].
  cbn. rewrite N.add_0_r, IH. f_equal.
  apply imap_ext. intros i x _. unfold compose.
  destruct (mi_id x); cbn [default from_option id]; [done|lia].
Qed.

(** X10.  A registration with a code that some family has is refused with
    409 and changes nothing.  With an unused code and a name, a code, a
    hash and member names that are all non-empty, it appends one family
    with a fresh id and the members of the body in the order given, each
    with the name, the score and the id its body element gives, score 0
    and a fresh id where it gives none, and replies 201 with the id, the
    name and the code.  With an unused code and a blank among those
    strings it throws and no family is stored. *)
Theorem register_outcome now hash name family_code body_members s :
  store_ok s →
  let result := register now hash name family_code body_members s in
  if bool_decide (Exists (λ f, code f = family_code) (families s))
  then result = (s, Refused 409 "Family code already exists")
  else if nonempty name && nonempty family_code && nonempty hash
          && forallb nonempty (mi_name <$> body_members)
  then
    ∃ registered,
      result
      = (mkStore
           (families s
            ++ [mkFamily (next_oid s) name family_code hash registered
                  now now])
           (tasks s)
           (next_oid s + (1 + N.of_nat (length body_members)))%N,
         Sent 201 (mkFamilyView (next_oid s) name family_code))
      ∧ m_name <$> registered = mi_name <$> body_members
      ∧ score <$> registered
        = (λ b, default (Number_of_Z 0) (mi_score b)) <$> body_members
      ∧ m_id <$> registered
        = imap (λ i b, default (next_oid s + 1 + N.of_nat i)%N (mi_id b))
            body_members
  else
    families result.1 = families s ∧ tasks result.1 = tasks s
    ∧ result.2 = Thrown "ValidationError".
Proof.
  intros Hok. cbv zeta. unfold register.
  destruct (findOne _ (families s)) as [f|] eqn:Hf.
  - rewrite bool_decide_eq_true_2; [done|].
    apply findOne_lookup in Hf as [Hc [i Hi]].
    apply Exists_exists. exists f. split; [|done].
    by eapply list_elem_of_lookup_2.
  - apply findOne_None in Hf.
    rewrite bool_decide_eq_false_2 by (by apply Forall_Exists_neg).
    unfold save_family, valid_family. cbn [f_name code passwordHash members].
    rewrite valid_new_members.
    destruct (nonempty name && nonempty family_code && nonempty hash
              && forallb nonempty (mi_name <$> body_members)); [|done].
    rewrite decide_False by done.
    rewrite (upsert_new f_id) by (by apply fresh_family_id).
    exists (new_members (next_oid s + 1)%N body_members).
    split; [done|].
    pose proof (new_members_fields (next_oid s + 1)%N body_members) as Hfields.
    split; [|split].
    + apply (f_equal (fmap fst)) in Hfields.
      by rewrite <- !list_fmap_compose in Hfields.
    + apply (f_equal (fmap snd)) in Hfields.
      by rewrite <- !list_fmap_compose in Hfields.
    + apply new_members_ids.
Qed.

Lemma valid_family_snoc fam m :
  valid_family fam →
  valid_family (set_members (members fam ++ [m]) fam) = valid_member m.
Proof.
  unfold valid_family. cbn. rewrite forallb_app. cbn.
  destruct (nonempty (f_name fam)), (nonempty (code fam)),
    (nonempty (passwordHash fam)), (forallb valid_member (members fam));
    cbn; try done.
  intros _. by rewrite andb_true_r.
Qed.

(** X11.  For an authenticated family, adding a member with a non-empty
    name appends it to the registry with a fresh id and score 0, whether
    or not the name is already taken, leaves the other members, the other
    families and the tasks as they are, replies 201, and the member list
    then ends with the new member.  A blank name throws and no family is
    written. *)
Theorem create_member_outcome now name s k fam :
  store_ok s → families s !! k = Some fam →
  let result := create_member now name (f_id fam) s in
  let new := mkMember (next_oid s) name (Number_of_Z 0) in
  if nonempty name
  then
    result
    = (mkStore
         (<[k := set_f_updatedAt now
                   (set_members (members fam ++ [new]) fam)]> (families s))
         (tasks s) (next_oid s + 1)%N,
       Sent 201 (mkMemberView (next_oid s) name (Number_of_Z 0)))
    ∧ (list_members (f_id fam) result.1).2
      = Sent 200
          (((λ m, mkMemberView (m_id m) (m_name m) (score m)) <$> members fam)
           ++ [mkMemberView (next_oid s) name (Number_of_Z 0)])
  else
    families result.1 = families s ∧ tasks result.1 = tasks s
    ∧ result.2 = Thrown "ValidationError".
Proof.
  intros Hok Hk. cbv zeta. unfold create_member, with_family.
  rewrite (authenticate_stored s Hok k fam Hk).
  pose proof (stored_family_valid s Hok k fam Hk) as Hv.
  assert (save_family now (Some fam)
            (set_members
               (members fam ++ [mkMember (next_oid s) name (Number_of_Z 0)])
               fam)
            (take_oids 1 s)
          = if nonempty name
            then Some (mkStore
                         (<[k := set_f_updatedAt now
                                   (set_members
                                      (members fam
                                       ++ [mkMember (next_oid s) name
                                             (Number_of_Z 0)])
                                      fam)]> (families s))
                         (tasks s) (next_oid s + 1)%N)
            else None) as ->.
  { unfold save_family. rewrite (valid_family_snoc fam _ Hv).
    unfold valid_member. cbn [m_name].
    destruct (nonempty name); [|done].
    rewrite decide_False.
    2: { intros [= Heq]. apply (f_equal (λ f, length (members f))) in Heq.
         cbn in Heq. rewrite length_app in Heq. cbn in Heq. lia. }
    cbn [families take_oids].
    by rewrite (upsert_stored f_id _ k fam); [|apply Hok|done|done]. }
  destruct (nonempty name) eqn:Hn; [|done].
  cbn [set_members members]. rewrite last_snoc. cbn.
  split; [done|].
  unfold list_members, with_family.
  set (fam' := set_f_updatedAt now _).
  assert (store_ok (mkStore (<[k := fam']> (families s)) (tasks s)
                      (next_oid s + 1))) as Hok'.
  { apply (take_oids_ok 1) in Hok as Hok1.
    apply (store_ok_insert_family _ Hok1 k fam fam'); [done|done|].
    unfold fam'. change (valid_family (set_f_updatedAt ?n ?f))
      with (valid_family f).
    rewrite (valid_family_snoc fam _ Hv). unfold valid_member. cbn.
    by rewrite Hn. }
  change (f_id fam) with (f_id fam').
  rewrite (authenticate_stored _ Hok' k fam').
  - cbn. by rewrite fmap_app.
  - cbn. apply list_lookup_insert_eq. by eapply lookup_lt_Some.
Qed.

(** X12.  For an authenticated family, creating a task with a non-empty
    title appends a task of that family with a fresh id, priority
    [medium] unless one is given, not completed, without [completedAt] and
    without comments; the assignee is stored as given, member or not.
    The reply is 201 and the task list of the family then ends with the
    new task.  A blank title throws and no task is stored. *)
Theorem create_task_outcome now b_title b_description b_priority b_dueDate
    b_assignedTo s k fam :
  store_ok s → families s !! k = Some fam →
  let result :=
    create_task now b_title b_description b_priority b_dueDate b_assignedTo
      (f_id fam) s in
  let new :=
    mkTask (next_oid s) (f_id fam) b_title b_description
      (default medium b_priority) b_assignedTo b_dueDate false None [] now
      now in
  if nonempty b_title
  then
    result
    = (mkStore (families s) (tasks s ++ [new]) (next_oid s + 1)%N,
       Sent 201 (task_view new))
    ∧ (list_tasks None (f_id fam) result.1).2
      = Sent 200
          ((task_view <$> filter (λ t, family t = f_id fam) (tasks s))
           ++ [task_view new])
  else
    families result.1 = families s ∧ tasks result.1 = tasks s
    ∧ result.2 = Thrown "ValidationError".
Proof.
  intros Hok Hk. cbv zeta. unfold create_task, with_family.
  pose proof (authenticate_stored s Hok k fam Hk) as Ha. rewrite Ha.
  set (new := mkTask _ _ _ _ _ _ _ _ _ _ _ _).
  assert (save_task now None new (take_oids 1 s)
          = if nonempty b_title
            then Some (mkStore (families s) (tasks s ++ [new])
                         (next_oid s + 1)%N)
            else None) as ->.
  { unfold save_task, valid_task. cbn [title comments forallb new].
    rewrite andb_true_r.
    destruct (nonempty b_title); [|done].
    rewrite decide_False by done.
    by rewrite (upsert_new t_id) by (by apply fresh_task_id). }
  destruct (nonempty b_title); [|done].
  cbn [fst snd]. split; [done|].
  unfold list_tasks, with_family.
  change (authenticate (mkStore (families s) ?t ?n) ?f)
    with (authenticate s f).
  rewrite Ha. unfold find. cbn [tasks snd].
  rewrite filter_app, filter_cons, decide_True by done.
  by rewrite fmap_app.
Qed.

(** ** Deleting, assigning and commenting *)

Lemma list_find_task_stored s i t :
  store_ok s → tasks s !! i = Some t →
  list_find (λ t', t_id t' = t_id t ∧ family t' = family t) (tasks s)
  = Some (i, t).
Proof.
  intros Hok Hi. apply list_find_Some. repeat split; [done|].
  intros j y Hj Hlt [Hid _].
  assert (j = i); [|lia].
  eapply (same_id_same_index t_id); [apply Hok|done..].
Qed.

Lemma list_find_task_foreign s i t familyId :
  store_ok s → tasks s !! i = Some t → family t ≠ familyId →
  list_find (λ t', t_id t' = t_id t ∧ family t' = familyId) (tasks s) = None.
Proof.
  intros Hok Hi Hne. apply list_find_None, Forall_forall.
  intros y Hy [Hid Hfam].
  assert (y = t); [|congruence].
  apply (same_id_eq t_id (tasks s)); [apply Hok|done| |done].
  by eapply list_elem_of_lookup_2.
Qed.

Lemma deleted_id_gone {A} (id : A → ObjectId) (l : list A) i x :
  NoDup (id <$> l) → l !! i = Some x →
  Forall (λ y, id y ≠ id x) (delete i l).
Proof.
  intros Hnd Hi. apply Forall_forall. intros y Hy Hid.
  apply list_elem_of_lookup in Hy as [j Hj].
  destruct (decide (j < i)%nat).
  - rewrite list_lookup_delete_lt in Hj by done.
    assert (j = i); [|lia]. by eapply (same_id_same_index id).
  - rewrite list_lookup_delete_ge in Hj by lia.
    assert (S j = i); [|lia]. by eapply (same_id_same_index id).
Qed.

(** X13.  Deleting a stored task by its id: as the family that owns it,
    the task is removed, the other tasks stay in order, the reply is 204,
    and deleting it again is refused with 404; as another family the
    request is refused with 404 and nothing changes. *)
Theorem delete_task_outcome s i t k fam :
  store_ok s → tasks s !! i = Some t → families s !! k = Some fam →
  let result := delete_task (t_id t) (f_id fam) s in
  if decide (family t = f_id fam)
  then
    result = (set_tasks (delete i (tasks s)) s, Sent 204 ())
    ∧ delete_task (t_id t) (f_id fam) result.1
      = (result.1, Refused 404 "Task not found")
  else result = (s, Refused 404 "Task not found").
Proof.
  intros Hok Hi Hk. cbv zeta. unfold delete_task, with_family, deleteOne.
  rewrite (authenticate_stored s Hok k fam Hk).
  destruct (decide (family t = f_id fam)) as [Hfam|Hfam].
  - rewrite <- Hfam, (list_find_task_stored s i t Hok Hi).
    rewrite decide_False by done. split; [done|]. cbn [fst].
    change (authenticate (set_tasks ?t s) ?f) with (authenticate s f).
    rewrite Hfam, (authenticate_stored s Hok k fam Hk). cbn [tasks set_tasks].
    rewrite (proj2 (list_find_None _ _)); [done|].
    eapply Forall_impl;
      [apply (deleted_id_gone t_id _ i t); [apply Hok|done]|].
    cbn. tauto.
  - by rewrite (list_find_task_foreign s i t _ Hok Hi Hfam).
Qed.

Lemma delete_insert_same {A} (l : list A) i y :
  delete i (<[i := y]> l) = delete i l.
Proof.
  revert i. induction l as [|z l IH]; intros [|i]; try done.
  change (z :: delete i (<[i := y]> l) = z :: delete i l). by rewrite IH.
Qed.

(** A [PUT] whose body names another family hands the task over: it is
    stored with that family, the family that sent the request no longer
    finds it, and the other family can delete it. *)
Theorem update_task_moves now g s i t k fam :
  store_ok s →
  tasks s !! i = Some t → families s !! k = Some fam →
  family t = f_id fam → g ≠ f_id fam →
  let update :=
    mkTaskUpdate None None None None None None None (Some (Cast_ok g)) None in
  let result := update_task now (t_id t) update (f_id fam) s in
  result
  = (set_tasks (<[i := set_updatedAt now (set_family g t)]> (tasks s)) s,
     Sent 200 (task_view t))
  ∧ (∀ now' update',
       update_task now' (t_id t) update' (f_id fam) result.1
       = (result.1, Refused 404 "Task not found"))
  ∧ ∀ k' fam', families s !! k' = Some fam' → f_id fam' = g →
      delete_task (t_id t) g result.1
      = (set_tasks (delete i (tasks s)) s, Sent 204 ()).
Proof.
  intros Hok Hi Hk Hfam Hg. cbv zeta.
  set (t1 := set_updatedAt now (set_family g t)).
  set (s1 := set_tasks (<[i := t1]> (tasks s)) s).
  assert (store_ok s1) as Hok1.
  { apply (store_ok_insert_task s Hok i t); [done..|].
    by apply (stored_task_valid s Hok i t). }
  assert (tasks s1 !! i = Some t1) as Hi1.
  { apply list_lookup_insert_eq. by eapply lookup_lt_Some. }
  assert (update_task now (t_id t)
            (mkTaskUpdate None None None None None None None
               (Some (Cast_ok g)) None) (f_id fam) s
          = (s1, Sent 200 (task_view t))) as ->.
  { unfold update_task, with_family.
    rewrite (authenticate_stored s Hok k fam Hk).
    rewrite <- Hfam, (findOne_task_stored s Hok i t Hi).
    cbn [Object_assign assign_key u_title u_description u_priority u_dueDate
           u_assignedTo u_completed u_completedAt u_family u_comments
           set_cast_family from_option default andb].
    unfold rejected.
    cbn [u_title u_description u_priority u_dueDate
           u_assignedTo u_completed u_completedAt u_family u_comments].
    rewrite !bool_decide_eq_false_2 by done. cbn [orb].
    rewrite (save_task_stored s Hok now i t); [done..| |].
    - by apply (stored_task_valid s Hok i t).
    - intros Heq. apply (f_equal family) in Heq. cbn in Heq. congruence. }
  cbn [fst]. split; [done|]. split.
  - intros now' update'. unfold update_task, with_family.
    change (authenticate s1 ?f) with (authenticate s f).
    rewrite (authenticate_stored s Hok k fam Hk).
    unfold findOne.
    change (t_id t) with (t_id t1).
    by rewrite (list_find_task_foreign s1 i t1 (f_id fam) Hok1 Hi1).
  - intros k' fam' Hk' Hg'. subst g.
    unfold delete_task, with_family, deleteOne.
    change (authenticate s1 ?f) with (authenticate s f).
    rewrite (authenticate_stored s Hok k' fam' Hk').
    assert (list_find (λ t', t_id t' = t_id t ∧ family t' = f_id fam')
              (tasks s1) = Some (i, t1)) as ->
      by exact (list_find_task_stored s1 i t1 Hok1 Hi1).
    rewrite decide_False by done.
    unfold s1. cbn [tasks set_tasks]. by rewrite delete_insert_same.
Qed.

Lemma valid_task_comment t c :
  valid_task t →
  valid_task (set_comments (comments t ++ [c]) t) = valid_comment c.
Proof.
  unfold valid_task. cbn. rewrite forallb_app. cbn.
  destruct (nonempty (title t)), (forallb valid_comment (comments t));
    cbn; try done.
  intros _. by rewrite andb_true_r.
Qed.

(** X15.  Commenting a stored task of the caller's family with a
    non-empty member and text (the member need not be in the registry)
    appends the comment, dated now, after the comments the task has, and
    replies 201 with all comments; a blank member or text throws and
    nothing is written. *)
Theorem add_comment_outcome now b_member b_text s i t k fam :
  store_ok s → tasks s !! i = Some t → families s !! k = Some fam →
  family t = f_id fam →
  let result := add_comment now (t_id t) b_member b_text (f_id fam) s in
  let new := mkComment b_member b_text now in
  if nonempty b_member && nonempty b_text
  then
    result
    = (set_tasks
         (<[i := set_updatedAt now (set_comments (comments t ++ [new]) t)]>
            (tasks s)) s,
       Sent 201 (mkCommentsView (t_id t) (comments t ++ [new])))
  else result = (s, Thrown "ValidationError").
Proof.
  intros Hok Hi Hk Hfam. cbv zeta. unfold add_comment, with_family.
  rewrite (authenticate_stored s Hok k fam Hk).
  rewrite <- Hfam, (findOne_task_stored s Hok i t Hi).
  unfold save_task.
  rewrite (valid_task_comment t _ (stored_task_valid s Hok i t Hi)).
  unfold valid_comment. cbn [c_member c_text].
  destruct (nonempty b_member && nonempty b_text); [|done].
  rewrite decide_False.
  2: { intros [= Heq]. apply (f_equal (λ t, length (comments t))) in Heq.
       cbn in Heq. rewrite length_app in Heq. cbn in Heq. lia. }
  by rewrite (upsert_stored t_id _ i t); [|apply Hok|done|done].
Qed.

Lemma save_task_stored_result now i t0 t s :
  store_ok s → tasks s !! i = Some t0 →
  t_id t = t_id t0 → title t = title t0 → comments t = comments t0 →
  ∃ s1 t1,
    save_task now (Some t0) t s = Some s1
    ∧ store_ok s1 ∧ families s1 = families s
    ∧ tasks s1 !! i = Some t1
    ∧ (t1 = t ∨ t1 = set_updatedAt now t).
Proof.
  intros Hok Hi Hid Ht Hc.
  assert (valid_task t) as Hv.
  { erewrite valid_task_fields; [by eapply stored_task_valid|done..]. }
  destruct (decide (t = t0)) as [->|Hne].
  - exists s, t0. rewrite save_task_unmodified by done.
    split; [done|]. split; [exact Hok|]. split; [done|].
    split; [done|by left].
  - exists (set_tasks (<[i := set_updatedAt now t]> (tasks s)) s),
      (set_updatedAt now t).
    rewrite (save_task_stored s Hok now i t0) by done.
    split; [done|]. split; [by apply (store_ok_insert_task s Hok i t0)|].
    split; [done|]. split; [|by right].
    apply list_lookup_insert_eq. by eapply lookup_lt_Some.
Qed.

(** X14.  Assigning a stored, uncompleted task of the caller's family to
    a name: if no member has the name the request is refused with 404 and
    nothing changes; otherwise the task is stored with the name, no family
    is written and the reply is 200 with the name, and a completion of the
    task that follows stores the task completed, gives the first member of
    that name its score plus 1 as JavaScript adds and leaves every other
    member as it is, and replies with that score; the sum is the next
    integer when the score is an integer from [-2^53] to [2^53 - 1]. *)
Theorem assign_then_complete now now' date b_member s i t k fam :
  store_ok s → tasks s !! i = Some t → families s !! k = Some fam →
  family t = f_id fam → completed t = false →
  let assigned := assign_task now (t_id t) b_member (f_id fam) s in
  let t1 :=
    if decide (assignedTo t = Some b_member) then t
    else set_updatedAt now (set_assignedTo (Some b_member) t) in
  if bool_decide (Exists (λ m, m_name m = b_member) (members fam))
  then
    assigned.2 = Sent 200 (mkAssignView (t_id t) (Some b_member))
    ∧ families assigned.1 = families s
    ∧ tasks assigned.1 = <[i := t1]> (tasks s)
    ∧ ∃ j m,
        members fam !! j = Some m ∧ m_name m = b_member
        ∧ (∀ j' m', members fam !! j' = Some m' → (j' < j)%nat →
                    m_name m' ≠ b_member)
        ∧ complete_task now' (t_id t) date (f_id fam) assigned.1
          = (mkStore
               (if decide (credit (score m) = score m) then families s
                else
                  <[k := set_f_updatedAt now'
                           (set_members
                              (<[j := set_score (credit (score m)) m]>
                                 (members fam))
                              fam)]> (families s))
               (<[i := completed_at now' date t1]> (tasks s))
               (next_oid s),
             Sent 200
               (mkCompleteView (t_id t) true
                  (Some match date with Some d => d | None => now' end)
                  (Some (credit (score m)))))
        ∧ ∀ n, - 2 ^ 53 ≤ n < 2 ^ 53 → score m = Number_of_Z n →
               credit (score m) = Number_of_Z (n + 1)
               ∧ credit (score m) ≠ score m
  else assigned = (s, Refused 404 "Member not found").
Proof.
  intros Hok Hi Hk Hfam Hc. cbv zeta. unfold assign_task, with_family.
  rewrite (authenticate_stored s Hok k fam Hk).
  rewrite <- Hfam, (findOne_task_stored s Hok i t Hi).
  destruct (bool_decide (Exists _ (members fam))) eqn:Hex; [|done].
  cbn [negb].
  set (t' := set_assignedTo (Some b_member) t).
  set (t1 := if decide (assignedTo t = Some b_member) then t
             else set_updatedAt now t').
  pose proof (stored_task_valid s Hok i t Hi) as Hv.
  assert (∃ s1, save_task now (Some t) t' s = Some s1 ∧ store_ok s1
                ∧ families s1 = families s ∧ next_oid s1 = next_oid s
                ∧ tasks s1 = <[i := t1]> (tasks s))
    as (s1 & -> & Hok1 & Hfams & Hoid & Htasks).
  { unfold t1. destruct (decide (assignedTo t = Some b_member)) as [Ha|Ha].
    - assert (t' = t) as ->.
      { unfold t'. destruct t. cbn in Ha. by rewrite Ha. }
      exists s. rewrite save_task_unmodified by done.
      do 4 (split; [done|]). by rewrite list_insert_id.
    - exists (set_tasks (<[i := set_updatedAt now t']> (tasks s)) s).
      rewrite (save_task_stored s Hok now i t); [|done..|].
      + split; [done|]. split; [|done].
        by apply (store_ok_insert_task s Hok i t).
      + intros Heq. apply Ha. by rewrite <- Heq. }
  cbn [fst snd]. split; [done|]. split; [done|]. split; [done|].
  apply bool_decide_eq_true in Hex.
  apply Exists_exists in Hex as (m0 & Hin & Hname).
  assert (tasks s1 !! i = Some t1) as Hi1.
  { rewrite Htasks. apply list_lookup_insert_eq. by eapply lookup_lt_Some. }
  assert (t_id t1 = t_id t ∧ family t1 = f_id fam ∧ completed t1 = false
          ∧ assignedTo t1 = Some b_member) as (Hid1 & Hfam1 & Hc1 & Ha1).
  { unfold t1. destruct (decide _); cbn; by rewrite <- ?Hfam. }
  assert (families s1 !! k = Some fam) as Hk1 by (by rewrite Hfams).
  rewrite Hfam, <- Hid1.
  rewrite (complete_task_first now' date s1 i t1 k fam) by done.
  destruct (credited fam t1) as [[j m]|] eqn:Hcr.
  - apply credited_Some in Hcr as (_ & Hj & Hn & Hfirst).
    rewrite Ha1 in Hn, Hfirst.
    exists j, m. split; [done|]. split; [congruence|]. split.
    { intros j' m' Hj' Hlt Heq. apply (Hfirst j' m' Hj' Hlt).
      by rewrite Heq. }
    split.
    { rewrite Hfams, Hoid, Htasks, list_insert_insert_eq. by destruct date. }
    intros n Hn' Hs. rewrite Hs. by apply credit_integer.
  - apply credited_None in Hcr as [Htr|Hall].
    + rewrite Ha1, truthy_Some in Htr; [done|].
      rewrite <- Hname.
      by eapply valid_family_names; [eapply stored_family_valid|].
    + rewrite Forall_forall in Hall. destruct (Hall m0 Hin). congruence.
Qed.

(** X16.  The generic update stores an assignee without looking it up:
    with a name that no member has, the task carries that name, and a
    completion that follows credits nobody, omits [memberScore] and writes
    no family. *)
Theorem update_assignee_unchecked now now' date b_assignedTo s i t k fam :
  store_ok s → tasks s !! i = Some t → families s !! k = Some fam →
  family t = f_id fam → completed t = false →
  Forall (λ m, m_name m ≠ b_assignedTo) (members fam) →
  let updated_store :=
    (update_task now (t_id t)
       (mkTaskUpdate None None None None (Some b_assignedTo) None None None
          None)
       (f_id fam) s).1 in
  (∃ t1, tasks updated_store !! i = Some t1
         ∧ assignedTo t1 = Some b_assignedTo)
  ∧ (complete_task now' (t_id t) date (f_id fam) updated_store).2
    = Sent 200
        (mkCompleteView (t_id t) true
           (Some match date with Some d => d | None => now' end) None)
  ∧ families (complete_task now' (t_id t) date (f_id fam) updated_store).1
    = families s.
Proof.
  intros Hok Hi Hk Hfam Hc Hall. cbv zeta.
  unfold update_task, with_family.
  rewrite (authenticate_stored s Hok k fam Hk).
  rewrite <- Hfam, (findOne_task_stored s Hok i t Hi).
  cbn [Object_assign assign_key u_title u_description u_priority u_dueDate
         u_assignedTo u_completed u_completedAt u_family u_comments
         from_option default andb].
  unfold rejected.
  cbn [u_title u_description u_priority u_dueDate u_assignedTo u_completed
         u_completedAt u_family u_comments].
  rewrite !bool_decide_eq_false_2 by done. cbn [orb].
  destruct (save_task_stored_result now i t
              (set_assignedTo (Some b_assignedTo) t)
              s Hok Hi eq_refl eq_refl eq_refl)
    as (s1 & t1 & -> & Hok1 & Hfams & Hi1 & Ht1).
  cbn [fst snd].
  assert (t_id t1 = t_id t ∧ family t1 = f_id fam ∧ completed t1 = false
          ∧ assignedTo t1 = Some b_assignedTo) as (Hid1 & Hfam1 & Hc1 & Ha1).
  { destruct Ht1 as [->| ->]; cbn; by rewrite Hfam. }
  split; [by exists t1|].
  assert (families s1 !! k = Some fam) as Hk1 by (by rewrite Hfams).
  rewrite <- Hid1, Hfam.
  rewrite (complete_task_first now' date s1 i t1 k fam) by done.
  assert (credited fam t1 = None) as ->.
  { apply credited_None. right. rewrite Ha1.
    eapply Forall_impl; [exact Hall|]. cbn. congruence. }
  cbn. split; [by destruct date|done].
Qed.

(** After a reply 200 of [complete_task] the task is stored completed. *)
Lemma complete_task_Sent_after now id date familyId s s1 v :
  store_ok s →
  complete_task now id date familyId s = (s1, Sent 200 v) →
  store_ok s1
  ∧ ∃ fam1 i t1,
      authenticate s1 familyId = Some fam1
      ∧ tasks s1 !! i = Some t1 ∧ t_id t1 = id ∧ completed t1 = true.
Proof.
  intros Hok Hfirst.
  assert (store_ok s1) as Hok1.
  { change s1 with (s1, Sent 200 v).1. rewrite <- Hfirst.
    apply (step_store_ok s (CompleteTask now id date familyId) Hok). }
  split; [done|].
  destruct (complete_task_Sent _ _ _ _ _ _ _ _ Hfirst) as (fam & t & Ha & Hf).
  destruct (authenticate_Some _ _ _ Ha) as [Hfid [k Hk]].
  destruct (findOne_lookup _ _ _ Hf) as [[Hid Hfam] [i Hi]].
  destruct (completed t) eqn:Hc.
  - rewrite (complete_task_again _ _ _ _ _ fam t) in Hfirst by done.
    injection Hfirst as <- <-. by exists fam, i, t.
  - subst id familyId.
    rewrite (complete_task_first now date s i t k fam) in Hfirst by done.
    assert (i < length (tasks s))%nat by (by eapply lookup_lt_Some).
    assert (k < length (families s))%nat by (by eapply lookup_lt_Some).
    destruct (credited fam t) as [[j m]|]; injection Hfirst as <- <-.
    + revert Hok1.
      destruct (decide (credit (score m) = score m)); intros Hok1.
      * exists fam, i, (completed_at now date t).
        split; [|split; [by apply list_lookup_insert_eq|done]].
        by apply (authenticate_stored _ Hok1 k).
      * eexists _, i, _.
        split; [|split; [by apply list_lookup_insert_eq|done]].
        set (fam1 := set_f_updatedAt now _).
        change (f_id fam) with (f_id fam1).
        apply (authenticate_stored _ Hok1 k). by apply list_lookup_insert_eq.
    + exists fam, i, (completed_at now date t).
      split; [|split; [by apply list_lookup_insert_eq|done]].
      by apply (authenticate_stored _ Hok1 k).
Qed.

(** X17.  After a completion that replied 200, the task is on no overdue
    list of the family, whatever the instant of the query and whatever
    its due date. *)
Theorem completed_not_overdue now date id familyId s s1 v now' :
  store_ok s →
  complete_task now id date familyId s = (s1, Sent 200 v) →
  ∃ alerts,
    overdue now' familyId s1 = (s1, Sent 200 alerts)
    ∧ Forall (λ a, ov_id a ≠ id) alerts.
Proof.
  intros Hok Hfirst.
  destruct (complete_task_Sent_after _ _ _ _ _ _ _ Hok Hfirst)
    as (Hok1 & fam1 & i & t1 & Ha & Hi & Hid & Hc).
  unfold overdue, with_family, find. rewrite Ha.
  eexists. split; [reflexivity|].
  apply Forall_fmap, Forall_forall. intros t Hin. cbn. intros Hidt.
  apply list_elem_of_filter in Hin as [(_ & Hct & _) Hin].
  assert (t = t1); [|congruence].
  apply (same_id_eq t_id (tasks s1)); [apply Hok1|done| |congruence].
  by eapply list_elem_of_lookup_2.
Qed.

(** ** The token check and the login *)

Lemma split_piece scheme rest :
  no_space scheme →
  split " " (scheme +:+ " " +:+ rest) = scheme :: split " " rest.
Proof.
  induction scheme as [|c scheme IH]; cbn [no_space]; intros Hs.
  - reflexivity.
  - apply andb_True in Hs as [Hc Hs]. rewrite app_String. cbn [split].
    destruct (Ascii.eqb c " "); [done|].
    by rewrite (IH Hs).
Qed.

Lemma split_last token : no_space token → split " " token = [token].
Proof.
  induction token as [|c token IH]; cbn [no_space]; intros Hs; [done|].
  apply andb_True in Hs as [Hc Hs]. cbn [split].
  destruct (Ascii.eqb c " "); [done|]. by rewrite (IH Hs).
Qed.

Lemma nonempty_app_space scheme rest :
  nonempty (scheme +:+ " " +:+ rest) = true.
Proof.
  unfold nonempty. apply bool_decide_eq_true. by destruct scheme.
Qed.

(** X18.  The token check reads the piece of the [Authorization] header
    between its first and its second space as the token, whatever word
    stands before it and whatever follows it: a header [scheme token] or
    [scheme token rest] is accepted exactly when the token verifies and
    names a stored family, which is then the family of the request.  A
    missing or empty header is refused as missing, and a header without a
    space as an invalid token, all with 401. *)
Theorem authenticate_request_token jwt_verify now scheme token rest s :
  no_space scheme → no_space token →
  let decided :=
    match jwt_verify now token with
    | None => inr (401, "Invalid or expired token"%string)
    | Some familyId =>
        match authenticate s familyId with
        | None => inr (401, "Family not found"%string)
        | Some family => inl family
        end
    end in
  authenticate_request jwt_verify now (Some (scheme +:+ " " +:+ token)) s
  = decided
  ∧ authenticate_request jwt_verify now
      (Some (scheme +:+ " " +:+ token +:+ " " +:+ rest)) s
    = decided
  ∧ authenticate_request jwt_verify now (Some scheme) s
    = inr (401, if nonempty scheme then "Invalid or expired token"%string
                else "No authorization header provided"%string)
  ∧ authenticate_request jwt_verify now None s
    = inr (401, "No authorization header provided"%string).
Proof.
  intros Hs Ht. cbv zeta. unfold authenticate_request.
  cbn [truthy default from_option id]. rewrite !nonempty_app_space.
  cbn [negb].
  rewrite !split_piece, (split_last token) by done.
  repeat split.
  destruct (nonempty scheme); [|done]. cbn [negb].
  by rewrite split_last.
Qed.

Lemma findOne_snoc {A} (q : A → Prop) `{∀ x, Decision (q x)} (l : list A) x :
  Forall (λ y, ¬ q y) l → q x → findOne q (l ++ [x]) = Some x.
Proof.
  intros Hl Hx. apply findOne_Some. exists (length l).
  split; [by rewrite list_lookup_middle|]. split; [done|].
  intros j y Hj Hlt. rewrite lookup_app_l in Hj by done.
  by eapply Forall_lookup_1 in Hl.
Qed.

Lemma register_Sent now hash name family_code body_members s s1 status v :
  store_ok s →
  register now hash name family_code body_members s = (s1, Sent status v) →
  let f :=
    mkFamily (next_oid s) name family_code hash
      (new_members (next_oid s + 1)%N body_members) now now in
  families s1 = families s ++ [f]
  ∧ Forall (λ g, ¬ code g = family_code) (families s)
  ∧ Forall (λ g, ¬ f_id g = next_oid s) (families s)
  ∧ fv_id v = next_oid s.
Proof.
  intros Hok. unfold register.
  destruct (findOne _ (families s)) as [g|] eqn:Hf; [done|].
  apply findOne_None in Hf.
  destruct (save_family _ _ _ _) as [s'|] eqn:Hs; [|done].
  intros [= <- _ <-].
  apply save_family_new_shape in Hs as (_ & _ & -> & _);
    [|by apply fresh_family_id].
  cbv zeta. split; [done|]. split; [done|].
  split; [|done]. by apply (fresh_family_id s 0).
Qed.

(** X19.  After a registration that replied 201, a login with the code
    and a password that matches the stored hash replies 200 with a token
    issued for the new family's id and code, and a request carrying a
    token that verifies to that id is authenticated as the registered
    family, with the members of the registration body; a login with a
    password that does not match is refused with 401 and
    [Invalid code or password], and so is a login with a code that no
    family has.  The login writes nothing. *)
Theorem register_then_login bcrypt_compare jwt_sign jwt_verify
    now hash name family_code body_members s s1 v now' password token :
  store_ok s →
  register now hash name family_code body_members s = (s1, Sent 201 v) →
  let f :=
    mkFamily (next_oid s) name family_code hash
      (new_members (next_oid s + 1)%N body_members) now now in
  login bcrypt_compare jwt_sign now' family_code password s1
  = (s1,
     if bcrypt_compare password hash
     then Sent 200 (jwt_sign now' (f_id f) family_code)
     else Refused 401 "Invalid code or password")
  ∧ (no_space token → jwt_verify now' token = Some (fv_id v) →
     authenticate_request jwt_verify now' (Some ("Bearer " +:+ token)) s1
     = inl f)
  ∧ (∀ unknown_code,
       Forall (λ g, code g ≠ unknown_code) (families s1) →
       login bcrypt_compare jwt_sign now' unknown_code password s1
       = (s1, Refused 401 "Invalid code or password"))
  ∧ m_name <$> members f = mi_name <$> body_members
  ∧ score <$> members f
    = (λ b, default (Number_of_Z 0) (mi_score b)) <$> body_members.
Proof.
  intros Hok Hreg. cbv zeta.
  destruct (register_Sent _ _ _ _ _ _ _ _ _ Hok Hreg)
    as (Hfams & Hcodes & Hids & Hv).
  split; [|split; [|split]].
  - unfold login. rewrite Hfams, findOne_snoc by done. cbn.
    by destruct (bcrypt_compare password hash).
  - intros Ht Hver.
    change ("Bearer " +:+ token) with ("Bearer" +:+ " " +:+ token).
    unfold authenticate_request.
    cbn [truthy default from_option id]. rewrite nonempty_app_space.
    cbn [negb].
    rewrite split_piece, (split_last token) by done. cbn.
    rewrite Hver. cbn. rewrite Hv. unfold authenticate.
    by rewrite Hfams, findOne_snoc.
  - intros unknown_code Hall. unfold login.
    by rewrite (proj2 (findOne_None _ _) Hall).
  - cbn [members].
    pose proof (new_members_fields (next_oid s + 1)%N body_members) as Hfields.
    split.
    + apply (f_equal (fmap fst)) in Hfields.
      by rewrite <- !list_fmap_compose in Hfields.
    + apply (f_equal (fmap snd)) in Hfields.
      by rewrite <- !list_fmap_compose in Hfields.
Qed.

(** ** Scenarios beyond the claims *)

Lemma tenants_store_ok : store_ok tenants_store.
Proof. apply run_store_ok, empty_store_ok. Defined.

Example tenants_store_contents :
  families tenants_store !! 0%nat = Some tenants_F
  ∧ tasks tenants_store = [tenants_F1; tenants_G1]
  ∧ next_oid tenants_store = 6%N.
Proof. vm_compute. done. Qed.

Lemma history_buckets_witness :
  ∃ entries,
    history Etc_UTC (Some month) 0 january_store = (january_store, Sent 200 entries)
    ∧ mkHistoryEntry "2024-01" 2 0 ∈ entries.
Proof.
  destruct (history_buckets Etc_UTC (Some month) 0 january_store
              (mkFamily 0 "F" "F-1" "$2a$10$hash" [] 0 0))
    as (entries & Heq & Hiff).
  - reflexivity.
  - exists entries. split; [exact Heq|]. apply Hiff. reflexivity.
Defined.

Lemma weekNumber_by_day_witness :
  weekNumber America_New_York 1704200000000 = 1.
Proof.
  rewrite weekNumber_by_day.
  - reflexivity.
  - assert (JSDate.getFullYear America_New_York 1704200000000 = 2024) as ->
      by reflexivity.
    lia.
  - reflexivity.
  - reflexivity.
Defined.

Lemma bucketKey_same_period_witness :
  bucketKey America_New_York week 1704200000000
  = bucketKey America_New_York week 1720240200000
  ↔ JSDate.getFullYear America_New_York 1704200000000
    = JSDate.getFullYear America_New_York 1720240200000
    ∧ period_number America_New_York week 1704200000000
      = period_number America_New_York week 1720240200000.
Proof.
  apply (bucketKey_same_period America_New_York week 1704200000000
           1720240200000).
  - intros _. exact America_New_York_bounded.
  - assert (JSDate.getFullYear America_New_York 1704200000000 = 2024) as ->
      by reflexivity.
    lia.
  - assert (JSDate.getFullYear America_New_York 1720240200000 = 2024) as ->
      by reflexivity.
    lia.
Defined.

Lemma bucketKey_chronological_witness :
  String.le (bucketKey Etc_UTC week 1704153600000)
    (bucketKey Etc_UTC week 1704758400000).
Proof.
  apply (bucketKey_chronological Etc_UTC week 1704153600000 1704758400000).
  - exact Etc_UTC_monotone.
  - intros _. exact Etc_UTC_bounded.
  - assert (JSDate.getFullYear Etc_UTC 1704153600000 = 2024) as ->
      by reflexivity.
    lia.
  - assert (JSDate.getFullYear Etc_UTC 1704758400000 = 2024) as ->
      by reflexivity.
    lia.
  - lia.
Defined.

Lemma other_tenants_untouched_witness :
  (¬ moves_task (CompleteTask 9 4 None 0) →
   filter (λ t, family t ≠ 0%N)
     (tasks (step tenants_store (CompleteTask 9 4 None 0)))
   = [tenants_G1])
  ∧ filter (λ f, f_id f ≠ 0%N)
      (families (step tenants_store (CompleteTask 9 4 None 0)))
    = filter (λ f, f_id f ≠ 0%N) (families tenants_store).
Proof.
  exact (other_tenants_untouched tenants_store (CompleteTask 9 4 None 0)
           tenants_store_ok).
Defined.

Lemma update_task_moves_witness :
  let update :=
    mkTaskUpdate None None None None None None None (Some (Cast_ok 2%N))
      None in
  let result := update_task 9 4 update 0 tenants_store in
  result
  = (set_tasks [set_updatedAt 9 (set_family 2 tenants_F1); tenants_G1]
       tenants_store,
     Sent 200 (task_view tenants_F1))
  ∧ (∀ now' update',
       update_task now' 4 update' 0 result.1
       = (result.1, Refused 404 "Task not found"))
  ∧ ∀ k' fam', families tenants_store !! k' = Some fam' → f_id fam' = 2%N →
      delete_task 4 2 result.1
      = (set_tasks [tenants_G1] tenants_store, Sent 204 ()).
Proof.
  apply (update_task_moves 9 2 tenants_store 0 tenants_F1 0 tenants_F).
  - exact tenants_store_ok.
  - reflexivity.
  - reflexivity.
  - reflexivity.
  - discriminate.
Defined.

Lemma scores_only_grow_witness :
  ∃ f' m',
    families (step tenants_store (CompleteTask 9 4 None 0)) !! 0%nat = Some f'
    ∧ f_id f' = 0%N ∧ f_name f' = "F"%string ∧ code f' = "F-1"%string
    ∧ members f' !! 0%nat = Some m'
    ∧ m_id m' = 1%N ∧ m_name m' = "Alice"%string
    ∧ (score m' = Number_of_Z 0
       ∨ true = true ∧ score m' = credit (Number_of_Z 0)
         ∧ ∀ n, - 2 ^ 53 ≤ n < 2 ^ 53 → Number_of_Z 0 = Number_of_Z n →
                score m' = Number_of_Z (n + 1)).
Proof.
  apply (scores_only_grow tenants_store (CompleteTask 9 4 None 0) 0 tenants_F
           0 (mkMember 1 "Alice" (Number_of_Z 0))).
  - exact tenants_store_ok.
  - reflexivity.
  - reflexivity.
Defined.

Lemma scores_nonnegative_witness :
  Forall (λ f, Forall (λ m, counted (score m)) (members f))
    (families tenants_store).
Proof.
  apply (scores_nonnegative tenants_requests).
  repeat constructor.
Defined.

Lemma task_history_kept_witness :
  let t' :=
    mkTask 4 0 "F1" None medium (Some "Alice"%string) None false None
      [mkComment "Bob" "done?" 9] 2 9 in
  createdAt t' = createdAt tenants_F1
  ∧ (¬ moves_task (AddComment 9 4 "Bob" "done?" 0) →
     family t' = family tenants_F1)
  ∧ (declared_update (AddComment 9 4 "Bob" "done?" 0) →
     comments tenants_F1 `prefix_of` comments t'
     ∧ (is_Some (completedAt tenants_F1) → is_Some (completedAt t'))).
Proof.
  apply (task_history_kept tenants_store (AddComment 9 4 "Bob" "done?" 0)).
  - exact tenants_store_ok.
  - apply list_elem_of_here.
  - apply list_elem_of_here.
  - reflexivity.
Defined.

Lemma register_outcome_witness :
  ∃ registered,
    register 9 "$2a$10$pw-h" "H" "H-1"
      [mkMemberInput "Zed" (Some (Number_of_Z (-3))) None; named "Yul"]
      demo_store
    = (mkStore
         (families demo_store
          ++ [mkFamily 5 "H" "H-1" "$2a$10$pw-h" registered 9 9])
         (tasks demo_store) 8,
       Sent 201 (mkFamilyView 5 "H" "H-1"))
    ∧ m_name <$> registered = ["Zed"; "Yul"]%string
    ∧ score <$> registered = [Number_of_Z (-3); Number_of_Z 0]
    ∧ m_id <$> registered = [6; 7]%N.
Proof.
  exact (register_outcome 9 "$2a$10$pw-h" "H" "H-1"
           [mkMemberInput "Zed" (Some (Number_of_Z (-3))) None; named "Yul"]
           demo_store demo_store_ok).
Defined.

Lemma create_member_outcome_witness :
  create_member 9 "Bob" 0 demo_store
  = (mkStore
       [mkFamily 0 "F" "F-1" "$2a$10$hash"
          [mkMember 1 "Alice" (Number_of_Z 0); mkMember 2 "Bob" (Number_of_Z 0);
           mkMember 5 "Bob" (Number_of_Z 0)] 0 9]
       (tasks demo_store) 6,
     Sent 201 (mkMemberView 5 "Bob" (Number_of_Z 0)))
  ∧ (list_members 0 (create_member 9 "Bob" 0 demo_store).1).2
    = Sent 200
        [mkMemberView 1 "Alice" (Number_of_Z 0);
         mkMemberView 2 "Bob" (Number_of_Z 0);
         mkMemberView 5 "Bob" (Number_of_Z 0)].
Proof.
  exact (create_member_outcome 9 "Bob" demo_store 0 demo_family
           demo_store_ok eq_refl).
Defined.

Lemma create_task_outcome_witness :
  create_task 9 "T3" None None None (Some "Nobody"%string) 0 demo_store
  = (mkStore (families demo_store)
       (tasks demo_store
        ++ [mkTask 5 0 "T3" None medium (Some "Nobody"%string) None false None
              [] 9 9])
       6,
     Sent 201 (mkTaskView 5 "T3" medium (Some "Nobody"%string) None false))
  ∧ (list_tasks None 0
       (create_task 9 "T3" None None None (Some "Nobody"%string) 0
          demo_store).1).2
    = Sent 200
        [task_view demo_T1; task_view demo_T2;
         mkTaskView 5 "T3" medium (Some "Nobody"%string) None false].
Proof.
  exact (create_task_outcome 9 "T3" None None None (Some "Nobody"%string)
           demo_store 0 demo_family demo_store_ok eq_refl).
Defined.

Lemma delete_task_outcome_witness :
  delete_task 5 0 tenants_store = (tenants_store, Refused 404 "Task not found").
Proof.
  exact (delete_task_outcome tenants_store 1 tenants_G1 0 tenants_F
           tenants_store_ok eq_refl eq_refl).
Defined.

Lemma assign_then_complete_witness :
  let assigned := assign_task 9 4 "Bob" 0 demo_store in
  let t1 := set_updatedAt 9 (set_assignedTo (Some "Bob"%string) demo_T2) in
  assigned.2 = Sent 200 (mkAssignView 4 (Some "Bob"%string))
  ∧ families assigned.1 = families demo_store
  ∧ tasks assigned.1 = [demo_T1; t1]
  ∧ ∃ j m,
      members demo_family !! j = Some m ∧ m_name m = "Bob"%string
      ∧ (∀ j' m', members demo_family !! j' = Some m' → (j' < j)%nat →
                  m_name m' ≠ "Bob"%string)
      ∧ complete_task 10 4 None 0 assigned.1
        = (mkStore
             (if decide (credit (score m) = score m)
              then families demo_store
              else
                <[0%nat := set_f_updatedAt 10
                             (set_members
                                (<[j := set_score (credit (score m)) m]>
                                   (members demo_family))
                                demo_family)]> (families demo_store))
             [demo_T1; completed_at 10 None t1]
             (next_oid demo_store),
           Sent 200 (mkCompleteView 4 true (Some 10) (Some (credit (score m)))))
      ∧ ∀ n, - 2 ^ 53 ≤ n < 2 ^ 53 → score m = Number_of_Z n →
             credit (score m) = Number_of_Z (n + 1)
             ∧ credit (score m) ≠ score m.
Proof.
  exact (assign_then_complete 9 10 None "Bob" demo_store 1 demo_T2 0
           demo_family demo_store_ok eq_refl eq_refl eq_refl eq_refl).
Defined.

Lemma add_comment_outcome_witness :
  add_comment 9 3 "Zoe" "nice" 0 demo_store
  = (set_tasks
       [mkTask 3 0 "T1" None medium (Some "Alice"%string) None false None
          [mkComment "Zoe" "nice" 9] 1 9;
        demo_T2] demo_store,
     Sent 201 (mkCommentsView 3 [mkComment "Zoe" "nice" 9])).
Proof.
  exact (add_comment_outcome 9 "Zoe" "nice" demo_store 0 demo_T1 0 demo_family
           demo_store_ok eq_refl eq_refl eq_refl).
Defined.

Lemma update_assignee_unchecked_witness :
  let updated_store :=
    (update_task 9 4
       (mkTaskUpdate None None None None (Some "Zoe"%string) None None None
          None)
       0 demo_store).1 in
  (∃ t1, tasks updated_store !! 1%nat = Some t1
         ∧ assignedTo t1 = Some "Zoe"%string)
  ∧ (complete_task 10 4 None 0 updated_store).2
    = Sent 200 (mkCompleteView 4 true (Some 10) None)
  ∧ families (complete_task 10 4 None 0 updated_store).1
    = families demo_store.
Proof.
  apply (update_assignee_unchecked 9 10 None "Zoe" demo_store 1 demo_T2 0
           demo_family demo_store_ok eq_refl eq_refl eq_refl eq_refl).
  repeat constructor; discriminate.
Defined.

Lemma completed_not_overdue_witness :
  ∃ alerts,
    overdue 100 0 (complete_task 60 4 None 0 demo_store).1
    = ((complete_task 60 4 None 0 demo_store).1, Sent 200 alerts)
    ∧ Forall (λ a, ov_id a ≠ 4%N) alerts.
Proof.
  apply (completed_not_overdue 60 None 4 0 demo_store _
           (mkCompleteView 4 true (Some 60) None)).
  - exact demo_store_ok.
  - reflexivity.
Defined.

Lemma authenticate_request_token_witness :
  authenticate_request toy_verify 7 (Some "Basic 0"%string) demo_store
  = inl demo_family
  ∧ authenticate_request toy_verify 7 (Some "Basic 0 and more"%string)
      demo_store
    = inl demo_family
  ∧ authenticate_request toy_verify 7 (Some "Basic"%string) demo_store
    = inr (401, "Invalid or expired token"%string)
  ∧ authenticate_request toy_verify 7 None demo_store
    = inr (401, "No authorization header provided"%string).
Proof.
  exact (authenticate_request_token toy_verify 7 "Basic" "0" "and more"
           demo_store I I).
Defined.

Lemma register_then_login_witness :
  let s1 :=
    (register 0 "$2a$10$pw" "F" "F-1"
       [mkMemberInput "Alice" (Some (Number_of_Z 7)) None] empty_store).1 in
  let f :=
    mkFamily 0 "F" "F-1" "$2a$10$pw" [mkMember 1 "Alice" (Number_of_Z 7)] 0 0 in
  login toy_compare toy_sign 5 "F-1" "pw" s1 = (s1, Sent 200 "0"%string)
  ∧ (no_space "0" → toy_verify 5 "0" = Some 0%N →
     authenticate_request toy_verify 5 (Some "Bearer 0"%string) s1 = inl f)
  ∧ (∀ unknown_code,
       Forall (λ g, code g ≠ unknown_code) (families s1) →
       login toy_compare toy_sign 5 unknown_code "pw" s1
       = (s1, Refused 401 "Invalid code or password"))
  ∧ m_name <$> members f = ["Alice"%string]
  ∧ score <$> members f = [Number_of_Z 7].
Proof.
  exact (register_then_login toy_compare toy_sign toy_verify 0 "$2a$10$pw" "F"
           "F-1" [mkMemberInput "Alice" (Some (Number_of_Z 7)) None]
           empty_store _ (mkFamilyView 0 "F" "F-1")
           5 "pw" "0" empty_store_ok eq_refl).
Defined.

(** X20.  Whatever requests the service has handled, no stored task has
    an empty title, no stored comment an empty member or text, no stored
    family an empty name, code or password hash, and no member an empty
    name: a write that would store one is refused by the schemas. *)
Theorem required_strings_kept requests :
  let s := run requests empty_store in
  Forall (λ t, title t ≠ EmptyString
               ∧ Forall (λ c, c_member c ≠ EmptyString
                              ∧ c_text c ≠ EmptyString) (comments t))
    (tasks s)
  ∧ Forall (λ f, f_name f ≠ EmptyString ∧ code f ≠ EmptyString
                 ∧ passwordHash f ≠ EmptyString
                 ∧ Forall (λ m, m_name m ≠ EmptyString) (members f))
      (families s).
Proof.
  cbv zeta.
  destruct (run_store_ok requests empty_store empty_store_ok)
    as [Ht Hf _ _ _ _].
  assert (∀ x, nonempty x → x ≠ EmptyString) as Hne.
  { intros x Hx. by apply bool_decide_unpack in Hx. }
  split.
  - eapply Forall_impl; [exact Ht|]. intros t. cbn. unfold valid_task.
    rewrite andb_True, forallb_True. intros [Htitle Hcs].
    split; [by apply Hne|].
    eapply Forall_impl; [exact Hcs|]. intros c. cbn. unfold valid_comment.
    rewrite andb_True. intros [??]. split; by apply Hne.
  - eapply Forall_impl; [exact Hf|]. intros f. cbn. unfold valid_family.
    rewrite !andb_True, forallb_True. intros [[[??]?] Hms].
    repeat split; try by apply Hne.
    eapply Forall_impl; [exact Hms|]. intros m. cbn. by apply Hne.
Qed.
